(** * Painting calculator: the pricing rules of [calculateEstimate]

    The repository is a React form ([src/App.js]) whose only decision logic is
    the function [calculateEstimate]: it reads five fields of the form state,
    composes the rate and multiplier tables declared at the top of the
    component, applies the minimum-pricing policy and stores a rounded price
    range with [setEstimate].

    The embedding below follows that function line by line.  JavaScript
    numbers are kept abstract behind the class [JSNumber], and the function is
    written once against that class.  Two instances are provided:

    - [binary64]: IEEE 754 double precision, what a JavaScript engine
      computes, on Rocq's primitive floats;
    - [exact]: rational arithmetic without rounding error and without
      overflow, the arithmetic in which the pricing rules are described
      (1.6 + 0.2 = 1.8).

    Concrete scenarios are evaluated in both instances.  Properties
    quantified over every form state are proved in [binary64], the arithmetic
    of the program, and in the [exact] instance beside it.  For [binary64]
    the development carries a small theory of rounding: a double that is not
    negative is read as the integer multiple of 2^-2148 it stands for
    ([dbl]), and the operations of [calculateEstimate] are followed on these
    integers ([rnd], [roundZ], [floorsZ]). *)

From Stdlib Require Import ZArith QArith Qround Floats List String Ascii Bool Lia Lqa.
Import ListNotations.

Set Implicit Arguments.
Local Open Scope Z_scope.

(** ** Numbers *)

(** The operations [calculateEstimate] performs on numbers. *)
Class JSNumber (num : Type) := {
  of_Z : Z -> num;                   (* an integer as a Number *)
  NaN : num;
  neg : num -> num;                  (* unary minus *)
  add : num -> num -> num;
  sub : num -> num -> num;
  mul : num -> num -> num;
  div : num -> num -> num;
  lt : num -> num -> bool;           (* x < y, false when either is NaN *)
  Math_max2 : num -> num -> num;     (* Math.max of two arguments *)
  Math_round : num -> num;           (* nearest integer, ties towards +infinity *)
  ToBoolean : num -> bool            (* false exactly for 0, -0 and NaN *)
}.

(** *** Exact rationals *)

(** A rational or NaN.  Results are kept in lowest terms, so that equal
    numbers are equal terms.  There are no infinities and no negative zero:
    a division by zero, which the program never performs (it only divides by
    10, 100 and 2), gives [NotANumber]. *)
Inductive exact : Type :=
| Rat (q : Q)
| NotANumber.

Definition exact_lift2 (f : Q -> Q -> Q) (x y : exact) : exact :=
  match x, y with
  | Rat a, Rat b => Rat (Qred (f a b))
  | _, _ => NotANumber
  end.

Definition exact_div (x y : exact) : exact :=
  match x, y with
  | Rat a, Rat b => if Qeq_bool b 0 then NotANumber else Rat (Qred (a / b))
  | _, _ => NotANumber
  end.

Definition exact_ltb (x y : exact) : bool :=
  match x, y with
  | Rat a, Rat b => negb (Qle_bool b a)
  | _, _ => false
  end.

Definition exact_max2 (x y : exact) : exact :=
  match x, y with
  | Rat a, Rat b => if Qle_bool a b then Rat b else Rat a
  | _, _ => NotANumber
  end.

Definition exact_round (x : exact) : exact :=
  match x with
  | Rat a => Rat (inject_Z (Qfloor (a + (1 # 2))))
  | NotANumber => NotANumber
  end.

Definition exact_neg (x : exact) : exact :=
  match x with
  | Rat a => Rat (Qred (- a))
  | NotANumber => NotANumber
  end.

Definition exact_truthy (x : exact) : bool :=
  match x with
  | Rat a => negb (Qeq_bool a 0)
  | NotANumber => false
  end.

#[export] Instance exact_number : JSNumber exact := {|
  of_Z := fun z => Rat (inject_Z z);
  NaN := NotANumber;
  neg := exact_neg;
  add := exact_lift2 Qplus;
  sub := exact_lift2 Qminus;
  mul := exact_lift2 Qmult;
  div := exact_div;
  lt := exact_ltb;
  Math_max2 := exact_max2;
  Math_round := exact_round;
  ToBoolean := exact_truthy
|}.

(** *** IEEE 754 binary64 *)

Module Binary64.

(** The double nearest to an integer (round to nearest, ties to even). *)
Definition of_Z (z : Z) : float :=
  SF2Prim (binary_normalize prec emax z 0 false).

Definition max2 (x y : float) : float :=
  if PrimFloat.is_nan x then x
  else if PrimFloat.is_nan y then y
  else if PrimFloat.ltb x y then y
  else if PrimFloat.ltb y x then x
  else if PrimFloat.is_zero x && PrimFloat.get_sign x then y   (* -0 against +0 *)
  else x.

(** [Math.round]: the integer nearest to [x], the larger one on a tie; NaN,
    the infinities and the zeros are returned as they are, and a result that
    is zero keeps the sign of a negative [x]. *)
Definition round (x : float) : float :=
  match Prim2SF x with
  | S754_finite s m e =>
      if 0 <=? e then x
      else
        let k := Z.pow 2 (- e) in
        let n := ((if s then - (2 * Z.pos m) else 2 * Z.pos m) + k) / (2 * k) in
        if (n =? 0) && s then PrimFloat.opp (of_Z 0) else of_Z n
  | _ => x
  end.

Definition truthy (x : float) : bool :=
  negb (PrimFloat.is_zero x || PrimFloat.is_nan x).

End Binary64.

#[export] Instance binary64 : JSNumber float := {|
  of_Z := Binary64.of_Z;
  NaN := PrimFloat.nan;
  neg := PrimFloat.opp;
  add := PrimFloat.add;
  sub := PrimFloat.sub;
  mul := PrimFloat.mul;
  div := PrimFloat.div;
  lt := PrimFloat.ltb;
  Math_max2 := Binary64.max2;
  Math_round := Binary64.round;
  ToBoolean := Binary64.truthy
|}.

(** ** Values, objects and strings *)

Local Open Scope string_scope.
Local Open Scope Z_scope.

(** Strict equality of two strings. *)
Local Notation "a === b" := (String.eqb a b) (at level 70, no associativity).

Section Engine.

Context {num : Type} `{JSNumber num}.

(** A decimal literal with one or two fractional digits: [tenths 13] is the
    literal [1.3].  In [binary64] the quotient of two small integers is
    correctly rounded, so it is the double the literal denotes. *)
Definition tenths (m : Z) : num := div (of_Z m) (of_Z 10).
Definition hundredths (m : Z) : num := div (of_Z m) (of_Z 100).

(** What a property read can give in this program. *)
Inductive value : Type :=
| VUndefined
| VNumber (x : num)
| VString (s : string)
| VObject.   (* a function or object inherited from Object.prototype *)

(** The property names every object literal inherits from Object.prototype. *)
Definition Object_prototype : list string :=
  [ "constructor"; "hasOwnProperty"; "isPrototypeOf"; "propertyIsEnumerable";
    "toLocaleString"; "toString"; "valueOf"; "__proto__";
    "__defineGetter__"; "__defineSetter__"; "__lookupGetter__"; "__lookupSetter__" ].

(** [xs.includes(s)] on an array of strings. *)
Definition includes (xs : list string) (s : string) : bool :=
  existsb (String.eqb s) xs.

Fixpoint own (o : list (string * value)) (k : string) : option value :=
  match o with
  | [] => None
  | (k', v) :: o' => if String.eqb k k' then Some v else own o' k
  end.

(** [o[k]] on an object literal [o]: its own property, else the inherited
    one, else undefined. *)
Definition get (o : list (string * value)) (k : string) : value :=
  match own o k with
  | Some v => v
  | None => if includes Object_prototype k then VObject else VUndefined
  end.

Definition truthy (v : value) : bool :=
  match v with
  | VUndefined => false
  | VNumber x => ToBoolean x
  | VString s => negb (String.eqb s "")
  | VObject => true
  end.

(** [v || d] *)
Definition or_else (v d : value) : value := if truthy v then v else d.

(** The number an arithmetic operator sees: undefined, functions and plain
    objects convert to NaN.  No string reaches an arithmetic operator, the
    tables that are multiplied hold numbers only. *)
Definition ToNumber (v : value) : num :=
  match v with
  | VNumber x => x
  | _ => NaN
  end.

(** *** [parseInt] with no radix argument *)

Definition isWhiteSpace (c : ascii) : bool :=
  existsb (Nat.eqb (nat_of_ascii c)) [9; 10; 11; 12; 13; 32; 160]%nat.

Fixpoint trimStart (s : string) : string :=
  match s with
  | String c r => if isWhiteSpace c then trimStart r else s
  | EmptyString => s
  end.

Definition digitValue (radix : Z) (c : ascii) : option Z :=
  let n := Z.of_nat (nat_of_ascii c) in
  let d := if (48 <=? n) && (n <=? 57) then n - 48
           else if (97 <=? n) && (n <=? 122) then n - 87
           else if (65 <=? n) && (n <=? 90) then n - 55
           else radix in
  if d <? radix then Some d else None.

(** The value of the longest prefix of digits, [acc] when there is none. *)
Fixpoint digits (radix : Z) (s : string) (acc : option Z) : option Z :=
  match s with
  | String c r =>
      match digitValue radix c with
      | Some d => digits radix r (Some (radix * match acc with Some a => a | None => 0 end + d))
      | None => acc
      end
  | EmptyString => acc
  end.

Definition parseInt (s : string) : num :=
  let s := trimStart s in
  let '(negative, s) :=
    match s with
    | String "-" r => (true, r)
    | String "+" r => (false, r)
    | _ => (false, s)
    end in
  let '(radix, s) :=
    match s with
    | String "0" (String "x" r) => (16, r)
    | String "0" (String "X" r) => (16, r)
    | _ => (10, s)
    end in
  match digits radix s None with
  | Some z => if negative then neg (of_Z z) else of_Z z
  | None => NaN
  end.

(** ** The tables *)

(** The two files of the repository differ in [BASE_RATES] and agree on
    everything else [calculateEstimate] reads. *)
Variant source_file : Type := App_js | part_000.

Record Rates : Type := { rate_min : num; rate_max : num }.

Definition BASE_RATES (f : source_file) : Rates :=
  match f with
  | App_js => {| rate_min := tenths 15; rate_max := tenths 35 |}
  | part_000 => {| rate_min := hundredths 175; rate_max := of_Z 3 |}
  end.

Definition PAINT_MULTIPLIERS : list (string * value) :=
  [ ("standard", VNumber (of_Z 1));
    ("premium", VNumber (tenths 13));
    ("designer", VNumber (tenths 16)) ].

Definition DIFFICULTY_MULTIPLIERS : list (string * value) :=
  [ ("basic", VNumber (of_Z 1));
    ("standard", VNumber (tenths 12));
    ("moderate", VNumber (tenths 15));
    ("complex", VNumber (of_Z 2));
    ("high_difficulty", VNumber (tenths 25)) ].

(** [SURFACE_MULTIPLIERS.interior] and [SURFACE_MULTIPLIERS.exterior] *)
Definition SURFACE_MULTIPLIERS_interior : list (string * value) :=
  [ ("walls", VNumber (of_Z 1));
    ("ceilings", VNumber (tenths 4));
    ("trim", VNumber (tenths 3)) ].

Definition SURFACE_MULTIPLIERS_exterior : list (string * value) :=
  [ ("wood_siding", VNumber (of_Z 1));
    ("vinyl_siding", VNumber (tenths 11));
    ("cement", VNumber (tenths 13));
    ("stucco", VNumber (tenths 15));
    ("brick", VNumber (tenths 16));
    ("trim", VNumber (tenths 2)) ].

Definition MINIMUM_PRICING_absoluteMin : num := of_Z 3000.
Definition MINIMUM_PRICING_rangeSpread : num := of_Z 3000.

Definition tierNames : list (string * value) :=
  [ ("standard", VString "Standard Paint");
    ("premium", VString "Premium Paint");
    ("designer", VString "Designer/Specialty Paint") ].

(** ** The form state and [calculateEstimate] *)

(** The fields of [formData] that [calculateEstimate] reads.  All of them are
    strings typed or selected in the form, [surfaces] is the array of the
    checked surface ids in the order they were checked. *)
Record FormData : Type := {
  projectType : string;
  squareFootage : string;
  paintTier : string;
  surfaces : list string;
  difficultyLevel : string
}.

(** The object passed to [setEstimate]. *)
Record Estimate : Type := {
  min : num;
  max : num;
  tierName : value
}.

(** [Math.max(first, ...rest)] *)
Definition Math_max (first : num) (rest : list num) : num :=
  fold_left Math_max2 rest first.

Definition primary_exterior : list string :=
  [ "wood_siding"; "vinyl_siding"; "cement"; "stucco"; "brick" ].

(** [formData.surfaces.filter(surface => [...].includes(surface))] *)
Definition exteriorSurfaces (fd : FormData) : list string :=
  filter (includes primary_exterior) (surfaces fd).

(** [exteriorSurfaces.map(surface => SURFACE_MULTIPLIERS.exterior[surface] || 1.0)] *)
Definition exteriorMultipliers (fd : FormData) : list num :=
  map (fun surface =>
         ToNumber (or_else (get SURFACE_MULTIPLIERS_exterior surface) (VNumber (of_Z 1))))
      (exteriorSurfaces fd).

Definition interiorSurfaces (fd : FormData) : list string :=
  filter (includes [ "walls"; "ceilings" ]) (surfaces fd).

(** Property reads with a fixed name, as in [SURFACE_MULTIPLIERS.interior.walls]. *)
Definition interior (k : string) : num := ToNumber (get SURFACE_MULTIPLIERS_interior k).
Definition exterior (k : string) : num := ToNumber (get SURFACE_MULTIPLIERS_exterior k).

(** The branch for project type interior: the value of [surfaceMultiplier]
    when it ends. *)
Definition interior_branch (fd : FormData) : num :=
  let surfaceMultiplier := of_Z 0 in
  let surfaceMultiplier :=
    if includes (surfaces fd) "walls" then add surfaceMultiplier (interior "walls")
    else surfaceMultiplier in
  let surfaceMultiplier :=
    if includes (surfaces fd) "ceilings" then add surfaceMultiplier (interior "ceilings")
    else surfaceMultiplier in
  let surfaceMultiplier :=
    if includes (surfaces fd) "trim" then add surfaceMultiplier (interior "trim")
    else surfaceMultiplier in
  if negb (includes (surfaces fd) "walls") && lt (of_Z 0) surfaceMultiplier
  then add surfaceMultiplier (tenths 8)
  else surfaceMultiplier.

(** The branch for project type exterior or both; [surfaceMultiplier] is the
    value on entry, kept when neither a primary surface nor trim is checked. *)
Definition exterior_branch (fd : FormData) (surfaceMultiplier : num) : num :=
  match exteriorMultipliers fd with
  | m :: ms =>
      let surfaceMultiplier := Math_max m ms in
      if includes (surfaces fd) "trim" then add surfaceMultiplier (exterior "trim")
      else surfaceMultiplier
  | [] =>
      if includes (surfaces fd) "trim" then add (of_Z 1) (exterior "trim")
      else surfaceMultiplier
  end.

(** In the block for project type both: [interiorMultiplier] and
    [exteriorMultiplier] when the block reaches its last statement. *)
Definition interiorMultiplier (fd : FormData) : num :=
  let interiorMultiplier := of_Z 0 in
  let interiorMultiplier :=
    if (0 <? Z.of_nat (List.length (interiorSurfaces fd))) then
      let interiorMultiplier :=
        if includes (surfaces fd) "walls" then add interiorMultiplier (interior "walls")
        else interiorMultiplier in
      if includes (surfaces fd) "ceilings" then add interiorMultiplier (interior "ceilings")
      else interiorMultiplier
    else interiorMultiplier in
  if includes (surfaces fd) "trim" && (0 <? Z.of_nat (List.length (interiorSurfaces fd)))
  then add interiorMultiplier (interior "trim")
  else interiorMultiplier.

Definition exteriorMultiplier (fd : FormData) : num :=
  let exteriorMultiplier := of_Z 1 in
  let exteriorMultiplier :=
    match exteriorMultipliers fd with
    | m :: ms => Math_max m ms
    | [] => exteriorMultiplier
    end in
  if includes (surfaces fd) "trim" && (0 <? Z.of_nat (List.length (exteriorSurfaces fd)))
  then add exteriorMultiplier (exterior "trim")
  else exteriorMultiplier.

Definition both_block (fd : FormData) : num :=
  div (add (Math_max2 (interiorMultiplier fd) (of_Z 1)) (exteriorMultiplier fd)) (of_Z 2).

(** [surfaceMultiplier] when the statement [if (formData.surfaces.length > 0)]
    ends. *)
Definition surfaceMultiplier (fd : FormData) : num :=
  let surfaceMultiplier := of_Z 1 in
  if 0 <? Z.of_nat (List.length (surfaces fd)) then
    let surfaceMultiplier :=
      if projectType fd === "interior" then interior_branch fd
      else if (projectType fd === "exterior") || (projectType fd === "both")
           then exterior_branch fd surfaceMultiplier
           else surfaceMultiplier in
    if projectType fd === "both" then both_block fd else surfaceMultiplier
  else surfaceMultiplier.

(** [(baseMin, baseMax)] after the paint tier, the difficulty and the surface
    multipliers were applied, in that order. *)
Definition paintMultiplier (fd : FormData) : value :=
  or_else (get PAINT_MULTIPLIERS (paintTier fd)) (VNumber (of_Z 1)).

Definition difficultyMultiplier (fd : FormData) : value :=
  or_else (get DIFFICULTY_MULTIPLIERS (difficultyLevel fd)) (VNumber (of_Z 1)).

Definition base (f : source_file) (fd : FormData) : num * num :=
  let baseMin := rate_min (BASE_RATES f) in
  let baseMax := rate_max (BASE_RATES f) in
  let baseMin := mul baseMin (ToNumber (paintMultiplier fd)) in
  let baseMax := mul baseMax (ToNumber (paintMultiplier fd)) in
  let baseMin := mul baseMin (ToNumber (difficultyMultiplier fd)) in
  let baseMax := mul baseMax (ToNumber (difficultyMultiplier fd)) in
  let baseMin := mul baseMin (surfaceMultiplier fd) in
  let baseMax := mul baseMax (surfaceMultiplier fd) in
  (baseMin, baseMax).

(** [(minPrice, maxPrice)] as first computed. *)
Definition raw (f : source_file) (fd : FormData) : num * num :=
  let sqftNum := parseInt (squareFootage fd) in
  let '(baseMin, baseMax) := base f fd in
  (mul sqftNum baseMin, mul sqftNum baseMax).

(** The statement that ensures the minimum spread. *)
Definition spread_floor (p : num * num) : num * num :=
  let '(minPrice, maxPrice) := p in
  if lt (sub maxPrice minPrice) MINIMUM_PRICING_rangeSpread
  then (minPrice, add minPrice MINIMUM_PRICING_rangeSpread)
  else (minPrice, maxPrice).

(** The statement that ensures the absolute minimum. *)
Definition absolute_floor (p : num * num) : num * num :=
  let '(minPrice, maxPrice) := p in
  if lt minPrice MINIMUM_PRICING_absoluteMin
  then (MINIMUM_PRICING_absoluteMin,
        Math_max2 maxPrice (add MINIMUM_PRICING_absoluteMin MINIMUM_PRICING_rangeSpread))
  else (minPrice, maxPrice).

Definition result (f : source_file) (fd : FormData) : Estimate :=
  let '(minPrice, maxPrice) := absolute_floor (spread_floor (raw f fd)) in
  {| min := Math_round minPrice;
     max := Math_round maxPrice;
     tierName := get tierNames (paintTier fd) |}.

(** [calculateEstimate] as a transformer of the component state [estimate]
    (initially [null], here [None]): the early [return] leaves it as it was,
    [setEstimate(result)] replaces it. *)
Definition calculateEstimate (f : source_file) (fd : FormData) (estimate : option Estimate)
  : option Estimate :=
  if (projectType fd === "") || (squareFootage fd === "") || (paintTier fd === "")
  then estimate
  else Some (result f fd).

End Engine.

Arguments value num : clear implicits.
Arguments Estimate num : clear implicits.
Arguments Rates num : clear implicits.

(** ** Inputs *)

(** [getSurfaceOptions()]: the surface ids the form offers for a project
    type (the labels are left out). *)
Definition getInteriorSurfaces : list string := [ "walls"; "ceilings"; "trim" ].

Definition getExteriorSurfaces : list string :=
  [ "wood_siding"; "trim"; "stucco"; "cement"; "vinyl_siding"; "brick" ].

Definition getSurfaceOptions (projectType : string) : list string :=
  if projectType === "interior" then getInteriorSurfaces
  else if projectType === "exterior" then getExteriorSurfaces
  else if projectType === "both" then getInteriorSurfaces ++ getExteriorSurfaces
  else [].

(** A project type of the form, and surfaces among those offered for it. *)
Definition valid_surfaces (fd : FormData) : Prop :=
  In (projectType fd) [ "interior"; "exterior"; "both" ] /\
  Forall (fun surface => In surface (getSurfaceOptions (projectType fd))) (surfaces fd).

(** A complete form state: moreover a paint tier and a difficulty level of
    the form, and a square footage that [parseInt] reads as the integer [n],
    at least 100. *)
Definition valid (fd : FormData) (n : Z) : Prop :=
  valid_surfaces fd /\
  In (paintTier fd) [ "standard"; "premium"; "designer" ] /\
  In (difficultyLevel fd) [ "basic"; "standard"; "moderate"; "complex"; "high_difficulty" ] /\
  parseInt (squareFootage fd) = Rat (inject_Z n) /\
  100 <= n.

Definition with_squareFootage (fd : FormData) (s : string) : FormData :=
  {| projectType := projectType fd; squareFootage := s; paintTier := paintTier fd;
     surfaces := surfaces fd; difficultyLevel := difficultyLevel fd |}.

Definition with_paintTier (fd : FormData) (tier : string) : FormData :=
  {| projectType := projectType fd; squareFootage := squareFootage fd; paintTier := tier;
     surfaces := surfaces fd; difficultyLevel := difficultyLevel fd |}.

Definition with_difficultyLevel (fd : FormData) (level : string) : FormData :=
  {| projectType := projectType fd; squareFootage := squareFootage fd;
     paintTier := paintTier fd; surfaces := surfaces fd; difficultyLevel := level |}.

Definition with_surfaces (fd : FormData) (l : list string) : FormData :=
  {| projectType := projectType fd; squareFootage := squareFootage fd;
     paintTier := paintTier fd; surfaces := l; difficultyLevel := difficultyLevel fd |}.

(** Order on exact numbers; NaN is not comparable. *)
Definition exact_le (x y : exact) : Prop :=
  match x, y with
  | Rat a, Rat b => (a <= b)%Q
  | _, _ => False
  end.


(** The scenarios of the specification. *)
Definition scenarioA : FormData :=
  {| projectType := "interior"; squareFootage := "1000"; paintTier := "standard";
     surfaces := [ "walls" ]; difficultyLevel := "basic" |}.

Definition scenarioB : FormData :=
  {| projectType := "exterior"; squareFootage := "2000"; paintTier := "premium";
     surfaces := [ "brick"; "trim" ]; difficultyLevel := "standard" |}.

Definition both_trim_only : FormData :=
  {| projectType := "both"; squareFootage := "1500"; paintTier := "standard";
     surfaces := [ "trim" ]; difficultyLevel := "basic" |}.

(** A form state with the given selection. *)
Definition selection (type : string) (sqft : string) (tier level : string)
    (l : list string) : FormData :=
  {| projectType := type; squareFootage := sqft; paintTier := tier;
     surfaces := l; difficultyLevel := level |}.

(** The selection without trim.  Trim is not a primary exterior surface:
    leaving it out changes neither [exteriorSurfaces] nor
    [exteriorMultipliers]. *)
Definition without_trim (fd : FormData) : FormData :=
  with_surfaces fd (filter (fun surface => negb (surface === "trim")) (surfaces fd)).

(** A form whose paint tier is still to be chosen, and an estimate stored by
    an earlier call. *)
Definition no_tier_yet : FormData :=
  {| projectType := "interior"; squareFootage := "1200"; paintTier := "";
     surfaces := [ "walls" ]; difficultyLevel := "basic" |}.

Definition earlier_estimate : Estimate exact :=
  {| min := Rat 3000; max := Rat 6000; tierName := VString "Standard Paint" |}.

(** What the two floor statements make of the prices [[a, b]]: [m] is the
    maximum after the spread statement, [[a', b']] the prices after the
    absolute minimum statement. *)
Definition floored (a b a' b' : Q) : Prop :=
  exists m : Q,
    ((b - a < 3000 /\ m == a + 3000) \/ (3000 <= b - a /\ m == b))%Q /\
    ((a < 3000 /\ a' == 3000 /\ ((m <= 6000 /\ b' == 6000) \/ (6000 < m /\ b' == m)))
     \/ (3000 <= a /\ a' == a /\ b' == m))%Q.

(** The base rates as rationals. *)
Definition rmin (f : source_file) : Q :=
  match f with App_js => 15 # 10 | part_000 => 175 # 100 end.

Definition rmax (f : source_file) : Q :=
  match f with App_js => 35 # 10 | part_000 => 3 end.



(** Decides [valid] on a closed form state. *)
Ltac complete_form :=
  unfold valid, valid_surfaces;
  repeat match goal with
         | |- _ /\ _ => split
         | |- Forall _ (_ :: _) => apply Forall_cons
         | |- Forall _ [] => apply Forall_nil
         | |- Forall ?P ?l => let l' := eval vm_compute in l in change (Forall P l')
         | |- In _ _ => simpl; auto 12
         | |- parseInt _ = _ => vm_compute; reflexivity
         | |- (_ <= _)%Z => lia
         end.

(** ** The surface multiplier in closed form *)

Section Closed.

Context {num : Type} `{JSNumber num}.

(** The weight of the hardest primary exterior surface that is selected,
    1.0 when none is; [sel] tells which surface ids are selected. *)
Definition hardest (sel : string -> bool) : num :=
  if sel "brick" then tenths 16
  else if sel "stucco" then tenths 15
  else if sel "cement" then tenths 13
  else if sel "vinyl_siding" then tenths 11
  else of_Z 1.

Definition any_primary (sel : string -> bool) : bool :=
  sel "wood_siding" || sel "vinyl_siding" || sel "cement" || sel "stucco" || sel "brick".

Definition interior_closed (sel : string -> bool) : num :=
  let m := of_Z 0 in
  let m := if sel "walls" then add m (of_Z 1) else m in
  let m := if sel "ceilings" then add m (tenths 4) else m in
  let m := if sel "trim" then add m (tenths 3) else m in
  if negb (sel "walls") && lt (of_Z 0) m then add m (tenths 8) else m.

Definition exterior_closed (sel : string -> bool) : num :=
  if sel "trim" then add (hardest sel) (tenths 2) else hardest sel.

Definition both_closed (sel : string -> bool) : num :=
  let any_interior := sel "walls" || sel "ceilings" in
  let i := of_Z 0 in
  let i := if any_interior && sel "walls" then add i (of_Z 1) else i in
  let i := if any_interior && sel "ceilings" then add i (tenths 4) else i in
  let i := if sel "trim" && any_interior then add i (tenths 3) else i in
  let e := hardest sel in
  let e := if sel "trim" && any_primary sel then add e (tenths 2) else e in
  div (add (Math_max2 i (of_Z 1)) e) (of_Z 2).

(** The surface multiplier as a function of the project type, of whether
    anything is selected and of which surfaces are. *)
Definition surfaceMultiplier_of (type : string) (nonempty : bool) (sel : string -> bool)
  : num :=
  if nonempty then
    if type === "interior" then interior_closed sel
    else if type === "exterior" then exterior_closed sel
    else if type === "both" then both_closed sel
    else of_Z 1
  else of_Z 1.

(** The rank of a primary exterior surface by weight, and the weight of a
    rank. *)
Definition rank (surface : string) : nat :=
  if surface === "brick" then 4
  else if surface === "stucco" then 3
  else if surface === "cement" then 2
  else if surface === "vinyl_siding" then 1
  else 0.

Definition weight (r : nat) : num :=
  match r with
  | 0 => of_Z 1
  | 1 => tenths 11
  | 2 => tenths 13
  | 3 => tenths 15
  | _ => tenths 16
  end%nat.

(** The highest rank among the selected primary surfaces. *)
Definition top_rank (sel : string -> bool) : nat :=
  if sel "brick" then 4
  else if sel "stucco" then 3
  else if sel "cement" then 2
  else if sel "vinyl_siding" then 1
  else 0.

End Closed.

Definition nonempty (A : Type) (l : list A) : bool :=
  match l with [] => false | _ => true end.

(** ** Handlers of the form *)

(** [handleSurfaceChange(surface)]: the box of [surface] is toggled, an
    unchecked surface goes to the end of the array. *)
Definition handleSurfaceChange (fd : FormData) (surface : string) : FormData :=
  with_surfaces fd
    (if includes (surfaces fd) surface
     then filter (fun s => negb (s === surface)) (surfaces fd)
     else surfaces fd ++ [ surface ]).

(** [handleTierSelect(tier)] *)
Definition handleTierSelect (fd : FormData) (tier : string) : FormData :=
  with_paintTier fd tier.

(** ** Selections as bit vectors *)

(** The eight surface ids of the form. *)
Definition surface_ids : list string :=
  [ "walls"; "ceilings"; "trim"; "wood_siding"; "vinyl_siding"; "cement"; "stucco"; "brick" ].

(** The selection that holds the ids of [ks] whose bit is set. *)
Fixpoint pick (ks : list string) (bs : list bool) (k : string) : bool :=
  match ks, bs with
  | k0 :: ks', b :: bs' => if k === k0 then b else pick ks' bs' k
  | _, _ => false
  end.

Fixpoint all_bits (n : nat) : list (list bool) :=
  match n with
  | O => [ [] ]
  | S n' => map (cons true) (all_bits n') ++ map (cons false) (all_bits n')
  end.

Definition exact_leb (x y : exact) : bool :=
  match x, y with
  | Rat a, Rat b => Qle_bool a b
  | _, _ => false
  end.

(** ** Decimal digits *)

From Stdlib Require DecimalString DecimalN.

Definition decimal_digit (c : ascii) : bool :=
  let n := Z.of_nat (nat_of_ascii c) in (48 <=? n) && (n <=? 57).

Fixpoint all_digits (s : string) : bool :=
  match s with
  | EmptyString => true
  | String c r => decimal_digit c && all_digits r
  end.

(** The number a string of decimal digits writes, after the digits [acc]. *)
Fixpoint decimal_value (s : string) (acc : Z) : Z :=
  match s with
  | EmptyString => acc
  | String c r => decimal_value r (10 * acc + (Z.of_nat (nat_of_ascii c) - 48))
  end.

(** What may follow the digits [parseInt] reads: nothing, or a character
    that is neither a decimal digit nor the [x] of a hexadecimal prefix. *)
Definition stops (rest : string) : bool :=
  match rest with
  | EmptyString => true
  | String c _ => negb (decimal_digit c) && negb (Ascii.eqb c "x") && negb (Ascii.eqb c "X")
  end.


(** ** Regular expressions *)

(** The regular expressions of the two validators use character classes,
    sequence, [?], [+], [*] and bounded repetition, between [^] and [$].
    On such an expression [test] decides whether the whole string belongs to
    its language; it is computed with derivatives. *)
Inductive regex : Type :=
| Never
| Eps
| Class (p : ascii -> bool)
| Seq (r s : regex)
| Alt (r s : regex)
| Star (r : regex).

Definition Opt (r : regex) : regex := Alt r Eps.
Definition Plus (r : regex) : regex := Seq r (Star r).

(** [r{n}] and [r{0,n}] *)
Fixpoint Times (n : nat) (r : regex) : regex :=
  match n with
  | O => Eps
  | S n' => Seq r (Times n' r)
  end.

Fixpoint Upto (n : nat) (r : regex) : regex :=
  match n with
  | O => Eps
  | S n' => Opt (Seq r (Upto n' r))
  end.

Definition Lit (c : ascii) : regex := Class (Ascii.eqb c).

Fixpoint nullable (r : regex) : bool :=
  match r with
  | Never => false
  | Eps => true
  | Class _ => false
  | Seq r s => nullable r && nullable s
  | Alt r s => nullable r || nullable s
  | Star _ => true
  end.

Fixpoint deriv (c : ascii) (r : regex) : regex :=
  match r with
  | Never => Never
  | Eps => Never
  | Class p => if p c then Eps else Never
  | Seq r s => if nullable r then Alt (Seq (deriv c r) s) (deriv c s) else Seq (deriv c r) s
  | Alt r s => Alt (deriv c r) (deriv c s)
  | Star r => Seq (deriv c r) (Star r)
  end.

Fixpoint test (r : regex) (s : string) : bool :=
  match s with
  | EmptyString => nullable r
  | String c s' => test (deriv c r) s'
  end.

(** The language of a regular expression. *)
Inductive matches : regex -> string -> Prop :=
| m_eps : matches Eps ""
| m_class (p : ascii -> bool) (c : ascii) : p c = true -> matches (Class p) (String c "")
| m_seq (r s : regex) (u v : string) :
    matches r u -> matches s v -> matches (Seq r s) (u ++ v)
| m_alt_l (r s : regex) (u : string) : matches r u -> matches (Alt r s) u
| m_alt_r (r s : regex) (u : string) : matches s u -> matches (Alt r s) u
| m_star_nil (r : regex) : matches (Star r) ""
| m_star_cons (r : regex) (u v : string) :
    matches r u -> matches (Star r) v -> matches (Star r) (u ++ v).

(** ** The validators *)

Definition in_range (lo hi : ascii) (c : ascii) : bool :=
  (nat_of_ascii lo <=? nat_of_ascii c)%nat && (nat_of_ascii c <=? nat_of_ascii hi)%nat.

Definition alnum (c : ascii) : bool :=
  in_range "a" "z" c || in_range "A" "Z" c || in_range "0" "9" c.

Definition digit (c : ascii) : bool := in_range "0" "9" c.

(** [[a-zA-Z0-9.!#$%&'*+/=?^_`{|}~-]] *)
Definition local_class (c : ascii) : bool :=
  alnum c || existsb (Ascii.eqb c) (list_ascii_of_string ".!#$%&'*+/=?^_`{|}~-").

(** [[a-zA-Z0-9-]] *)
Definition alnum_hyphen (c : ascii) : bool := alnum c || Ascii.eqb c "-".

(** [[-.\s]] *)
Definition separator (c : ascii) : bool :=
  Ascii.eqb c "-" || Ascii.eqb c "." || isWhiteSpace c.

(** [[a-zA-Z0-9](?:[a-zA-Z0-9-]{0,61}[a-zA-Z0-9])?] *)
Definition label : regex :=
  Seq (Class alnum) (Opt (Seq (Upto 61 (Class alnum_hyphen)) (Class alnum))).

Definition emailRegex : regex :=
  Seq (Plus (Class local_class))
      (Seq (Lit "@") (Seq label (Star (Seq (Lit ".") label)))).

(** [/^(\+1[-.\s]?)?\(?([0-9]{3})\)?[-.\s]?([0-9]{3})[-.\s]?([0-9]{4})$/] *)
Definition phoneRegex : regex :=
  Seq (Opt (Seq (Lit "+") (Seq (Lit "1") (Opt (Class separator)))))
      (Seq (Opt (Lit "("))
           (Seq (Times 3 (Class digit))
                (Seq (Opt (Lit ")"))
                     (Seq (Opt (Class separator))
                          (Seq (Times 3 (Class digit))
                               (Seq (Opt (Class separator))
                                    (Times 4 (Class digit)))))))).

Definition validateEmail (email : string) : bool := test emailRegex email.

Definition validatePhoneNumber (phone : string) : bool :=
  if phone === "" then true else test phoneRegex phone.

(** ** What a match can hold *)

Fixpoint all_chars (p : ascii -> bool) (s : string) : bool :=
  match s with
  | EmptyString => true
  | String c r => p c && all_chars p r
  end.

Fixpoint count_chars (p : ascii -> bool) (s : string) : nat :=
  match s with
  | EmptyString => O
  | String c r => ((if p c then 1 else 0) + count_chars p r)%nat
  end.

Fixpoint last_char (s : string) : option ascii :=
  match s with
  | EmptyString => None
  | String c r => match last_char r with Some d => Some d | None => Some c end
  end.

(** The 256 characters. *)
Definition all_ascii : list ascii := map ascii_of_nat (seq 0 256).

(** The characters a match of [r] can hold, begin with and end with. *)
Fixpoint alphabet (r : regex) (c : ascii) : bool :=
  match r with
  | Never | Eps => false
  | Class p => p c
  | Seq r s | Alt r s => alphabet r c || alphabet s c
  | Star r => alphabet r c
  end.

Fixpoint firsts (r : regex) (c : ascii) : bool :=
  match r with
  | Never | Eps => false
  | Class p => p c
  | Seq r s => firsts r c || (nullable r && firsts s c)
  | Alt r s => firsts r c || firsts s c
  | Star r => firsts r c
  end.

Fixpoint lasts (r : regex) (c : ascii) : bool :=
  match r with
  | Never | Eps => false
  | Class p => p c
  | Seq r s => lasts s c || (nullable s && lasts r c)
  | Alt r s => lasts r c || lasts s c
  | Star r => lasts r c
  end.

(** The least and the greatest number of characters of class [p] in a match
    of [r]; [None] when there is no bound. *)
Fixpoint min_count (p : ascii -> bool) (r : regex) : nat :=
  match r with
  | Never | Eps | Star _ => O
  | Class q => if forallb (fun c => implb (q c) (p c)) all_ascii then 1 else 0
  | Seq r s => (min_count p r + min_count p s)%nat
  | Alt r s => Nat.min (min_count p r) (min_count p s)
  end.

Fixpoint max_count (p : ascii -> bool) (r : regex) : option nat :=
  match r with
  | Never | Eps => Some O
  | Class q => if existsb (fun c => q c && p c) all_ascii then Some 1%nat else Some O
  | Seq r s =>
      match max_count p r, max_count p s with
      | Some a, Some b => Some (a + b)%nat
      | _, _ => None
      end
  | Alt r s =>
      match max_count p r, max_count p s with
      | Some a, Some b => Some (Nat.max a b)
      | _, _ => None
      end
  | Star r => match max_count p r with Some O => Some O | _ => None end
  end.

(** [[a-zA-Z0-9.-]], the characters of a domain. *)
Definition domain_char (c : ascii) : bool := alnum_hyphen c || Ascii.eqb c ".".

(** The part of [emailRegex] after the [@], and the part of [phoneRegex]
    after the optional [+1]. *)
Definition domainRegex : regex := Seq label (Star (Seq (Lit ".") label)).

Definition nationalRegex : regex :=
  Seq (Opt (Lit "("))
      (Seq (Times 3 (Class digit))
           (Seq (Opt (Lit ")"))
                (Seq (Opt (Class separator))
                     (Seq (Times 3 (Class digit))
                          (Seq (Opt (Class separator))
                               (Times 4 (Class digit))))))).

(** ** The whole form *)

(** [s.trim()] *)
Fixpoint trimEnd (s : string) : string :=
  match s with
  | EmptyString => EmptyString
  | String c r =>
      match trimEnd r with
      | EmptyString => if isWhiteSpace c then EmptyString else String c EmptyString
      | r' => String c r'
      end
  end.

Definition trim (s : string) : string := trimEnd (trimStart s).

(** [formData]: the contact fields, the notes, and under [project] the five
    fields [calculateEstimate] reads. *)
Record Form : Type := {
  clientName : string;
  email : string;
  phone : string;
  address : string;
  additionalNotes : string;
  project : FormData
}.

(** An [errors] object: field names with their messages, in the order the
    keys were added. *)
Definition Errors : Type := list (string * string).

Fixpoint set_error (errors : Errors) (k v : string) : Errors :=
  match errors with
  | [] => [ (k, v) ]
  | (k', v') :: rest => if k === k' then (k, v) :: rest else (k', v') :: set_error rest k v
  end.

(** [{...prev, ...newErrors}] *)
Definition spread (prev newErrors : Errors) : Errors :=
  fold_left (fun acc kv => set_error acc (fst kv) (snd kv)) newErrors prev.

Definition keys (errors : Errors) : list string := map fst errors.

(** The [newErrors] of [validateClientInfo], and the [errors] it leaves. *)
Definition clientInfoErrors (form : Form) : Errors :=
  let name := String.length (trim (clientName form)) in
  List.concat
    [ if (0 <? name)%nat && (name <? 2)%nat
      then [ ("clientName", "Name must be at least 2 characters") ]
      else if (100 <? name)%nat
           then [ ("clientName", "Name cannot exceed 100 characters") ]
           else [];
      if (0 <? String.length (trim (email form)))%nat && negb (validateEmail (email form))
      then [ ("email", "Please enter a valid email address") ]
      else [];
      if (0 <? String.length (trim (phone form)))%nat
         && negb (validatePhoneNumber (phone form))
      then [ ("phone", "Please enter a valid phone number (e.g., (555) 123-4567)") ]
      else [] ].

Definition validateClientInfo (form : Form) (errors : Errors) : Errors :=
  spread errors (clientInfoErrors form).

(** What the effect on the contact fields computes for
    [isClientInfoComplete] and [showEstimationFields]. *)
Definition clientComplete (form : Form) : bool :=
  (2 <=? String.length (trim (clientName form)))%nat
  && validateEmail (email form)
  && (0 <? String.length (trim (address form)))%nat.

Section Submit.

Context {num : Type} `{JSNumber num}.

(** [validateForm]: the [newErrors] it sets and the boolean it returns. *)
Definition validateForm (form : Form) : Errors * bool :=
  let name := trim (clientName form) in
  let newErrors :=
    List.concat
      [ if name === "" then [ ("clientName", "Name is required") ]
        else if (String.length name <? 2)%nat
             then [ ("clientName", "Name must be at least 2 characters") ]
             else if (100 <? String.length name)%nat
                  then [ ("clientName", "Name cannot exceed 100 characters") ]
                  else [];
        if trim (email form) === "" then [ ("email", "Email is required") ]
        else if negb (validateEmail (email form))
             then [ ("email", "Please enter a valid email address") ]
             else [];
        if trim (address form) === ""
        then [ ("address", "Address is required (street address, city, state, ZIP code)") ]
        else [];
        if (0 <? String.length (trim (phone form)))%nat
           && negb (validatePhoneNumber (phone form))
        then [ ("phone", "Please enter a valid phone number") ]
        else [];
        if projectType (project form) === ""
        then [ ("projectType", "Please select a project type") ]
        else [];
        if trim (squareFootage (project form)) === ""
        then [ ("squareFootage", "Please enter square footage") ]
        else if lt (parseInt (squareFootage (project form))) (of_Z 100)
             then [ ("squareFootage", "Square footage must be at least 100") ]
             else [];
        if paintTier (project form) === ""
        then [ ("paintTier", "Please select a paint tier") ]
        else [] ] in
  (newErrors, (List.length newErrors =? 0)%nat).

(** [handleSubmit] up to the request: the [errors] and the [estimate] it
    leaves, and whether the request is sent. *)
Definition handleSubmit (f : source_file) (form : Form) (estimate : option (Estimate num))
  : Errors * option (Estimate num) * bool :=
  let '(newErrors, ok) := validateForm form in
  if negb ok then (newErrors, estimate, false)
  else (newErrors, calculateEstimate f (project form) estimate, true).

End Submit.

(** ** Typing in a field *)

Definition with_projectType (fd : FormData) (type : string) : FormData :=
  {| projectType := type; squareFootage := squareFootage fd; paintTier := paintTier fd;
     surfaces := surfaces fd; difficultyLevel := difficultyLevel fd |}.

(** The inputs whose [onChange] is [handleInputChange], by their [name]. *)
Inductive input : Type :=
  | input_clientName
  | input_email
  | input_phone
  | input_address
  | input_projectType
  | input_squareFootage
  | input_difficultyLevel
  | input_additionalNotes.

Definition input_name (i : input) : string :=
  match i with
  | input_clientName => "clientName"
  | input_email => "email"
  | input_phone => "phone"
  | input_address => "address"
  | input_projectType => "projectType"
  | input_squareFootage => "squareFootage"
  | input_difficultyLevel => "difficultyLevel"
  | input_additionalNotes => "additionalNotes"
  end.

Definition with_project (form : Form) (fd : FormData) : Form :=
  {| clientName := clientName form; email := email form; phone := phone form;
     address := address form; additionalNotes := additionalNotes form; project := fd |}.

(** [{...prev, [name]: value}] *)
Definition set_field (prev : Form) (i : input) (value : string) : Form :=
  match i with
  | input_clientName =>
      {| clientName := value; email := email prev; phone := phone prev;
         address := address prev; additionalNotes := additionalNotes prev;
         project := project prev |}
  | input_email =>
      {| clientName := clientName prev; email := value; phone := phone prev;
         address := address prev; additionalNotes := additionalNotes prev;
         project := project prev |}
  | input_phone =>
      {| clientName := clientName prev; email := email prev; phone := value;
         address := address prev; additionalNotes := additionalNotes prev;
         project := project prev |}
  | input_address =>
      {| clientName := clientName prev; email := email prev; phone := phone prev;
         address := value; additionalNotes := additionalNotes prev;
         project := project prev |}
  | input_additionalNotes =>
      {| clientName := clientName prev; email := email prev; phone := phone prev;
         address := address prev; additionalNotes := value; project := project prev |}
  | input_projectType => with_project prev (with_projectType (project prev) value)
  | input_squareFootage => with_project prev (with_squareFootage (project prev) value)
  | input_difficultyLevel => with_project prev (with_difficultyLevel (project prev) value)
  end.

(** [errors[name]], [None] when the object has no such key. *)
Fixpoint error_of (errors : Errors) (k : string) : option string :=
  match errors with
  | [] => None
  | (k', v) :: rest => if k === k' then Some v else error_of rest k
  end.

(** [handleInputChange(e)] for the input [e.target] with its new value: the
    [formData] and the [errors] it leaves. *)
Definition handleInputChange (form : Form) (errors : Errors) (i : input) (value : string)
  : Form * Errors :=
  (set_field form i value,
   match error_of errors (input_name i) with
   | Some message =>
       if message === "" then errors else set_error errors (input_name i) ""
   | None => errors
   end).

Definition jane : Form :=
  {| clientName := "Jane Doe"; email := "jane.doe@example.com"; phone := "(555) 123-4567";
     address := "12 Main St, Fort Collins, CO 80521"; additionalNotes := "";
     project := scenarioB |}.

Definition jane_abc : Form :=
  {| clientName := "Jane Doe"; email := "jane.doe@example.com"; phone := "";
     address := "12 Main St"; additionalNotes := "";
     project := with_squareFootage scenarioB "abc" |}.

Definition jane_typing : Form :=
  {| clientName := "J"; email := "jane.doe@"; phone := "555";
     address := ""; additionalNotes := ""; project := scenarioB |}.

Definition jane_exterior : Form :=
  {| clientName := "Jane Doe"; email := "jane.doe@example.com"; phone := "";
     address := "12 Main St"; additionalNotes := "";
     project := selection "exterior" "25000" "designer" "high_difficulty"
                  [ "brick"; "stucco" ] |}.

(** For a selection: the closed form for both is at most the greater of the
    closed forms for interior and for exterior. *)
Definition blend_at (ne : bool) (bs : list bool) : bool :=
  exact_leb
    (surfaceMultiplier_of "both" ne (pick surface_ids bs))
    (Math_max2 (surfaceMultiplier_of "interior" ne (pick surface_ids bs))
               (surfaceMultiplier_of "exterior" ne (pick surface_ids bs))).

(** * Binary64 on integers

    What follows serves the proofs about [binary64] that hold for every
    square footage.  A double that is not negative and not NaN is read as an
    integer, its value in units of 2^-2148 ([dbl]); 2^1024 in these units
    stands for +Infinity ([overflow]).  Rounding to nearest, ties to even, is
    the function [rnd] on these integers, and the steps of
    [calculateEstimate] are followed on them: the products of [raw] ([rawZ]),
    the two floor statements ([spreadZ], [floorsZ]) and [Math.round]
    ([roundZ]).  The lemmas below the definitions show, from the
    specification of primitive floats in the Standard Library, that the
    program computes what these functions say. *)

Unset Implicit Arguments.

(** Doubles as integers: the non-negative double [m * 2^e] is the integer
    [m * 2^(e + scale)]. *)
Definition scale : Z := 2148.

Definition fixed (n : Z) : Z := n * 2 ^ scale.

(** The exponent of the last place of a double of that size. *)
Definition grid (X : Z) : Z := Z.max (Z.log2 X - 52) (scale - 1074).

(** [M / 2^n] rounded to the nearest integer, to the even one on a tie. *)
Definition nearest_even (M n : Z) : Z :=
  let q := M / 2 ^ n in
  match 2 * (M mod 2 ^ n) ?= 2 ^ n with
  | Lt => q
  | Eq => if Z.even q then q else q + 1
  | Gt => q + 1
  end.

(** Rounding to the format. *)
Definition rnd (X : Z) : Z := nearest_even X (grid X) * 2 ^ grid X.

Definition representable (X : Z) : Prop := 0 <= X /\ X mod 2 ^ grid X = 0.

Definition overflow : Z := 2 ^ (1024 + scale).

(** The double of a non-negative integer image; [overflow] and above stand
    for +Infinity. *)
Definition encode (X : Z) : spec_float :=
  if X =? 0 then S754_zero false
  else if overflow <=? X then S754_infinity false
  else S754_finite false (Z.to_pos (X / 2 ^ grid X)) (grid X - scale).

(** What is left of [2 * M] after [k] shifts to the right: the mantissa, the
    round bit, and the sticky bit for the rest [u]. *)
Definition shr_inv (M k : Z) (mrs : shr_record) : Prop :=
  0 <= shr_m mrs /\
  exists u, 0 <= u < 2 ^ k /\
            2 * M = (2 * shr_m mrs + Z.b2z (shr_r mrs)) * 2 ^ k + u /\
            (shr_s mrs = true <-> 0 < u).

(** A result from [overflow] on is +Infinity. *)
Definition cap (X : Z) : Z := Z.min X overflow.

(** [dbl x X]: the double [x] is non-negative, not NaN, and its value is the
    integer image [X], [overflow] for +Infinity. *)
Definition dbl (x : float) (X : Z) : Prop :=
  Prim2SF x = encode X /\ representable X /\ X <= overflow.

(** [Math.round] on integer images: doubles from 2^52 on are integers, below
    that the value is floor(x + 1/2). *)
Definition roundZ (X : Z) : Z :=
  if scale <=? grid X then X else fixed ((2 * X + 2 ^ scale) / (2 * 2 ^ scale)).

(** The price first computed: the square footage [N] times the rate [V],
    rounded. *)
Definition rawZ (N V : Z) : Z := cap (rnd (N * V / 2 ^ scale)).

(** The maximum after the statement that ensures the minimum spread: the
    difference is rounded, then compared; at +Infinity the difference is
    +Infinity or NaN and the maximum is kept. *)
Definition spreadZ (A B : Z) : Z :=
  if (B <? overflow) && (rnd (B - A) <? fixed 3000)
  then cap (rnd (A + fixed 3000))
  else B.

(** Both prices after the two floor statements. *)
Definition floorsZ (A B : Z) : Z * Z :=
  if A <? fixed 3000 then (fixed 3000, Z.max (spreadZ A B) (fixed 6000))
  else (A, spreadZ A B).

(** ** The constants of the tables as doubles *)

(** The value of a double between 2^-8 and 2^10, in units of 2^-60. *)
Definition wide (x : float) : option Z :=
  match Prim2SF x with
  | S754_finite false m e =>
      if (-60 <=? e) && (e <=? 0) then Some (Z.pos m * 2 ^ (e + 60)) else None
  | _ => None
  end.

(** The surfaces selected by [bs] are offered for the project type. *)
Definition offered (type : string) (bs : list bool) : bool :=
  forallb (fun k => implb (pick surface_ids bs k) (includes (getSurfaceOptions type) k))
          surface_ids.

Definition member (x : float) (l : list float) : bool :=
  existsb (PrimFloat.Leibniz.eqb x) l.

Fixpoint distinct (l acc : list float) : list float :=
  match l with
  | [] => acc
  | x :: r => if member x acc then distinct r acc else distinct r (acc ++ [ x ])
  end.

(** The surface multipliers of the form: one for each project type and each
    selection among the surfaces offered for it. *)
Definition surface_values : list float :=
  Eval vm_compute in
    distinct
      (flat_map (fun type =>
         flat_map (fun bs =>
           if offered type bs
           then [ surfaceMultiplier_of type (existsb (fun b => b) bs) (pick surface_ids bs) ]
           else [])
           (all_bits 8))
         [ "interior"; "exterior"; "both" ])
      [].

Definition paint_values : list float := [ of_Z 1; tenths 13; tenths 16 ].

Definition difficulty_values : list float :=
  [ of_Z 1; tenths 12; tenths 15; of_Z 2; tenths 25 ].

(** [base] as a function of the three multipliers. *)
Definition base_of (f : source_file) (p d s : float) : float * float :=
  (mul (mul (mul (rate_min (BASE_RATES f)) p) d) s,
   mul (mul (mul (rate_max (BASE_RATES f)) p) d) s).

(** A band per square foot: both rates are at least 1, the upper one is at
    least half as much again as the lower one. *)
Definition band_ok (b : float * float) : bool :=
  match wide (fst b), wide (snd b) with
  | Some lo, Some hi => (2 ^ 60 <=? lo) && (3 * lo <=? 2 * hi) && (hi <=? 2 ^ 70)
  | _, _ => false
  end.

(** ** The image of the stored estimate *)

(** The image of a rate per square foot. *)
Definition image (x : float) : Z :=
  match wide x with Some w => w * 2 ^ (scale - 60) | None => 0 end.

(** The image of the square footage that [parseInt] reads as [n]. *)
Definition sqftZ (n : Z) : Z := cap (rnd (fixed n)).

Definition minZ (f : source_file) (fd : FormData) : Z := image (fst (base (num:=float) f fd)).
Definition maxZ (f : source_file) (fd : FormData) : Z := image (snd (base (num:=float) f fd)).

(** The image of the two prices first computed, and of the two bounds
    stored. *)
Definition rawsZ (f : source_file) (fd : FormData) (n : Z) : Z * Z :=
  (rawZ (sqftZ n) (minZ f fd), rawZ (sqftZ n) (maxZ f fd)).

Definition estimateZ (f : source_file) (fd : FormData) (n : Z) : Z * Z :=
  let p := floorsZ (fst (rawsZ f fd n)) (snd (rawsZ f fd n)) in
  (roundZ (fst p), roundZ (snd p)).


Fixpoint zeros (k : nat) : string :=
  match k with O => "" | S k' => String "0" (zeros k') end.


(** The range [calculateEstimate] stores for a form, and the order of two
    stored ranges, bound by bound. *)
Definition stored (f : source_file) (fd : FormData) : option (float * float) :=
  option_map (fun r => (min r, max r)) (calculateEstimate f fd None).

Definition range_le (r1 r2 : option (float * float)) : Prop :=
  match r1, r2 with
  | Some (lo1, hi1), Some (lo2, hi2) =>
      PrimFloat.leb lo1 lo2 = true /\ PrimFloat.leb hi1 hi2 = true
  | _, _ => False
  end.

Definition wide_le (x y : float) : bool :=
  match wide x, wide y with
  | Some a, Some b => a <=? b
  | _, _ => false
  end.

(** Two bands per square foot in order, rate by rate. *)
Definition band_le (b1 b2 : float * float) : bool :=
  wide_le (fst b1) (fst b2) && wide_le (snd b1) (snd b2).

(** For a project type, an offered surface and a selection: the closed form
    without the surface is at most the closed form with it. *)
Definition mono_at (type s : string) (ne : bool) (bs : list bool) : bool :=
  PrimFloat.leb
    (surfaceMultiplier_of type ne (fun k => pick surface_ids bs k && negb (k === s)))
    (surfaceMultiplier_of type true (fun k => pick surface_ids bs k || (k === s))).

(** For three multipliers of the form: the band per square foot starts at the
    lower base rate or above, is in order, and ends at the upper rate of the
    dearest form or below. *)
Definition bounded_at (f : source_file) (p d s : float) : bool :=
  PrimFloat.leb (rate_min (BASE_RATES f)) (fst (base_of f p d s)) &&
  PrimFloat.leb (fst (base_of f p d s)) (snd (base_of f p d s)) &&
  PrimFloat.leb (snd (base_of f p d s)) (snd (base_of f (tenths 16) (tenths 25) (tenths 18))).

(** For two of the multipliers: the band is zero when the surface multiplier
    is. *)
Definition zero_at (f : source_file) (p d : float) : bool :=
  PrimFloat.Leibniz.eqb (fst (base_of f p d (of_Z 0))) (of_Z 0) &&
  PrimFloat.Leibniz.eqb (snd (base_of f p d (of_Z 0))) (of_Z 0).

(** For a selection: the closed form for both is at most the greater of the
    closed forms for interior and for exterior, in binary64. *)
Definition blend64_at (ne : bool) (bs : list bool) : bool :=
  PrimFloat.leb
    (surfaceMultiplier_of "both" ne (pick surface_ids bs))
    (Math_max2 (surfaceMultiplier_of "interior" ne (pick surface_ids bs))
               (surfaceMultiplier_of "exterior" ne (pick surface_ids bs))).

Set Implicit Arguments.

(** * Properties *)

(** ** Scenarios *)

(** C1. Scenario B (exterior, 2000 sqft, premium, standard difficulty, brick
    and trim) with the rates of [App.js]: the surface multiplier is
    1.6 + 0.2 = 1.8, the band per square foot is [4.212, 9.828], the prices
    are [8424, 19656], neither floor changes them, and [calculateEstimate]
    stores min 8424 and max 19656, in exact arithmetic and in binary64. *)
Theorem scenario_B (st : option (Estimate exact)) (st64 : option (Estimate float)) :
  surfaceMultiplier scenarioB = Rat (Qred (18 # 10)) /\
  base App_js scenarioB = (Rat (Qred (4212 # 1000)), Rat (Qred (9828 # 1000))) /\
  raw App_js scenarioB = (Rat 8424, Rat 19656) /\
  spread_floor (raw App_js scenarioB) = raw App_js scenarioB /\
  absolute_floor (raw App_js scenarioB) = raw App_js scenarioB /\
  calculateEstimate App_js scenarioB st =
    Some {| min := Rat 8424; max := Rat 19656; tierName := VString "Premium Paint" |} /\
  calculateEstimate App_js scenarioB st64 =
    Some {| min := 8424%float; max := 19656%float; tierName := VString "Premium Paint" |}.
Proof. repeat split; vm_compute; reflexivity. Qed.

(** With the rates of the second file, [1.75, 3.0], the same input gives
    9828 and 16848. *)
Remark part_000_scenario_B (st : option (Estimate exact)) (st64 : option (Estimate float)) :
  calculateEstimate part_000 scenarioB st =
    Some {| min := Rat 9828; max := Rat 16848; tierName := VString "Premium Paint" |} /\
  calculateEstimate part_000 scenarioB st64 =
    Some {| min := 9828%float; max := 16848%float; tierName := VString "Premium Paint" |}.
Proof. split; vm_compute; reflexivity. Qed.

(** C3. Scenario A (interior, 1000 sqft, standard, basic, walls) with the
    rates of [App.js]: the prices are first [1500, 3500], the spread floor
    raises the maximum to 4500, the absolute floor raises the minimum to 3000
    and the maximum to 6000, and [calculateEstimate] stores min 3000 and
    max 6000, in exact arithmetic and in binary64. *)
Theorem scenario_A (st : option (Estimate exact)) (st64 : option (Estimate float)) :
  surfaceMultiplier scenarioA = Rat 1 /\
  raw App_js scenarioA = (Rat 1500, Rat 3500) /\
  spread_floor (raw App_js scenarioA) = (Rat 1500, Rat 4500) /\
  absolute_floor (Rat 1500, Rat 4500) = (Rat 3000, Rat 6000) /\
  Math_max2 (Rat 4500) (Rat 6000) = Rat 6000 /\
  calculateEstimate App_js scenarioA st =
    Some {| min := Rat 3000; max := Rat 6000; tierName := VString "Standard Paint" |} /\
  calculateEstimate App_js scenarioA st64 =
    Some {| min := 3000%float; max := 6000%float; tierName := VString "Standard Paint" |}.
Proof. repeat split; vm_compute; reflexivity. Qed.

(** With the rates of the second file the stored range is the same. *)
Remark part_000_scenario_A (st : option (Estimate exact)) (st64 : option (Estimate float)) :
  calculateEstimate part_000 scenarioA st =
    Some {| min := Rat 3000; max := Rat 6000; tierName := VString "Standard Paint" |} /\
  calculateEstimate part_000 scenarioA st64 =
    Some {| min := 3000%float; max := 6000%float; tierName := VString "Standard Paint" |}.
Proof. split; vm_compute; reflexivity. Qed.

(** Scenario C of the specification (both, 1500 sqft, designer, moderate,
    walls and stucco): the accumulators are 1.0 and 1.5, the surface
    multiplier is 1.25, the stored range is [6750, 15750]. *)
Remark scenario_C (st : option (Estimate exact)) (st64 : option (Estimate float)) :
  let form := selection "both" "1500" "designer" "moderate" [ "walls"; "stucco" ] in
  interiorMultiplier form = Rat 1 /\
  exteriorMultiplier form = Rat (Qred (15 # 10)) /\
  surfaceMultiplier form = Rat (Qred (125 # 100)) /\
  calculateEstimate App_js form st =
    Some {| min := Rat 6750; max := Rat 15750;
            tierName := VString "Designer/Specialty Paint" |} /\
  calculateEstimate App_js form st64 =
    Some {| min := 6750%float; max := 15750%float;
            tierName := VString "Designer/Specialty Paint" |}.
Proof. repeat split; vm_compute; reflexivity. Qed.

(** ** The surface multiplier by project type *)

Section Dispatch.

Context {num : Type} `{JSNumber num}.

Lemma surfaceMultiplier_empty (fd : FormData) :
  surfaces fd = [] -> surfaceMultiplier fd = of_Z 1.
Proof. intros E. unfold surfaceMultiplier. rewrite E. reflexivity. Qed.

Lemma surfaceMultiplier_interior (fd : FormData) :
  projectType fd = "interior" -> surfaces fd <> [] ->
  surfaceMultiplier fd = interior_branch fd.
Proof.
  intros E N. unfold surfaceMultiplier. rewrite E.
  destruct (surfaces fd); [congruence | reflexivity].
Qed.

Lemma surfaceMultiplier_exterior (fd : FormData) :
  projectType fd = "exterior" -> surfaces fd <> [] ->
  surfaceMultiplier fd = exterior_branch fd (of_Z 1).
Proof.
  intros E N. unfold surfaceMultiplier. rewrite E.
  destruct (surfaces fd); [congruence | reflexivity].
Qed.

Lemma surfaceMultiplier_both (fd : FormData) :
  projectType fd = "both" -> surfaces fd <> [] ->
  surfaceMultiplier fd = both_block fd.
Proof.
  intros E N. unfold surfaceMultiplier. rewrite E.
  destruct (surfaces fd); [congruence | reflexivity].
Qed.

Lemma includes_cons (a : string) (l : list string) (s : string) :
  includes (a :: l) s = (s === a) || includes l s.
Proof. reflexivity. Qed.

Lemma exteriorSurfaces_without_trim (fd : FormData) :
  exteriorSurfaces (without_trim fd) = exteriorSurfaces fd.
Proof.
  unfold exteriorSurfaces, without_trim; simpl.
  induction (surfaces fd) as [|a l IH]; [reflexivity|].
  simpl filter at 2. destruct (a === "trim") eqn:E; simpl negb; cbv iota.
  - apply String.eqb_eq in E. subst a. simpl filter at 2. exact IH.
  - simpl filter. destruct (includes primary_exterior a); rewrite IH; reflexivity.
Qed.

Lemma includes_without_trim (fd : FormData) :
  includes (surfaces (without_trim fd)) "trim" = false.
Proof.
  unfold without_trim; simpl surfaces.
  induction (surfaces fd) as [|a l IH]; [reflexivity|].
  simpl filter. destruct (a === "trim") eqn:E; simpl negb; cbv iota; [exact IH|].
  rewrite includes_cons, IH, String.eqb_sym, E. reflexivity.
Qed.

Lemma exteriorMultiplier_trim (fd : FormData) :
  exteriorSurfaces fd <> [] -> includes (surfaces fd) "trim" = true ->
  exteriorMultiplier fd = add (exteriorMultiplier (without_trim fd)) (exterior "trim").
Proof.
  intros N T. unfold exteriorMultiplier, exteriorMultipliers.
  rewrite includes_without_trim, exteriorSurfaces_without_trim, T.
  destruct (exteriorSurfaces fd); [congruence | reflexivity].
Qed.

Lemma exteriorMultiplier_no_primary (fd : FormData) :
  exteriorSurfaces fd = [] -> exteriorMultiplier fd = of_Z 1.
Proof.
  intros E. unfold exteriorMultiplier, exteriorMultipliers. rewrite E.
  simpl. rewrite andb_false_r. reflexivity.
Qed.

End Dispatch.

(** ** Trim in a combined project *)

(** C2, as stated, fails. For project type both and the selection [trim]
    alone, the exterior accumulator is 1.0, not 1.2, and the surface
    multiplier is (max(0, 1.0) + 1.0) / 2 = 1.0, not 1.1, in exact arithmetic
    and in binary64. *)
Lemma both_trim_only_is_neutral :
  ~ (exteriorMultiplier both_trim_only = Rat (Qred (12 # 10)) /\
     surfaceMultiplier both_trim_only = Rat (Qred (11 # 10))) /\
  exteriorMultiplier both_trim_only = Rat 1 /\
  surfaceMultiplier both_trim_only = Rat 1 /\
  exteriorMultiplier both_trim_only = 1%float /\
  surfaceMultiplier both_trim_only = 1%float.
Proof.
  split; [| repeat split; vm_compute; reflexivity].
  intros [E _]. vm_compute in E. discriminate E.
Qed.

(** C2, amended. For project type both, the exterior accumulator gets the
    exterior trim weight 0.2 added when trim is selected together with at
    least one primary exterior surface; with no primary exterior surface it
    is 1.0 whether or not trim is selected, and for the selection [trim]
    alone the surface multiplier is the neutral 1.0.  This holds in exact
    arithmetic and in binary64. *)
Theorem both_exterior_trim (fd : FormData) (Hboth : projectType fd = "both") :
  (exteriorSurfaces fd <> [] -> includes (surfaces fd) "trim" = true ->
   exteriorMultiplier fd = add (exteriorMultiplier (without_trim fd)) (Rat (Qred (2 # 10))) /\
   exteriorMultiplier fd
     = PrimFloat.add (exteriorMultiplier (without_trim fd)) (div (of_Z 2) (of_Z 10))) /\
  (exteriorSurfaces fd = [] ->
   exteriorMultiplier fd = Rat 1 /\ exteriorMultiplier fd = 1%float) /\
  (surfaces fd = [ "trim" ] ->
   exteriorMultiplier fd = Rat 1 /\ surfaceMultiplier fd = Rat 1 /\
   exteriorMultiplier fd = 1%float /\ surfaceMultiplier fd = 1%float).
Proof.
  split; [| split].
  - intros N T. split.
    + exact (exteriorMultiplier_trim fd N T).
    + exact (exteriorMultiplier_trim fd N T).
  - intros E. split.
    + exact (exteriorMultiplier_no_primary fd E).
    + exact (exteriorMultiplier_no_primary fd E).
  - intros E.
    assert (X : exteriorSurfaces fd = []) by (unfold exteriorSurfaces; rewrite E; reflexivity).
    assert (N : surfaces fd <> []) by congruence.
    split; [rewrite exteriorMultiplier_no_primary by exact X; reflexivity|].
    split.
    + rewrite surfaceMultiplier_both by assumption.
      unfold both_block, interiorMultiplier, exteriorMultiplier, exteriorMultipliers,
        interiorSurfaces, exteriorSurfaces.
      rewrite E. vm_compute. reflexivity.
    + split; [rewrite exteriorMultiplier_no_primary by exact X; reflexivity|].
      rewrite surfaceMultiplier_both by assumption.
      unfold both_block, interiorMultiplier, exteriorMultiplier, exteriorMultipliers,
        interiorSurfaces, exteriorSurfaces.
      rewrite E. vm_compute. reflexivity.
Qed.

Lemma both_exterior_trim_witness :
  projectType both_trim_only = "both" /\
  exteriorMultiplier both_trim_only = Rat 1 /\
  surfaceMultiplier both_trim_only = Rat 1 /\
  exteriorMultiplier both_trim_only = 1%float /\
  surfaceMultiplier both_trim_only = 1%float.
Proof.
  split; [reflexivity|].
  apply (both_exterior_trim both_trim_only); reflexivity.
Defined.

(** ** Incomplete forms *)

(** C9. When the project type, the square footage or the paint tier is
    empty, [calculateEstimate] returns at once: the stored estimate is the
    one held before the call. *)
Theorem incomplete_form_keeps_estimate (num : Type) (N : JSNumber num) (f : source_file)
    (fd : FormData) (estimate : option (Estimate num)) :
  projectType fd = "" \/ squareFootage fd = "" \/ paintTier fd = "" ->
  calculateEstimate f fd estimate = estimate.
Proof.
  intros [E | [E | E]]; unfold calculateEstimate; rewrite E.
  - reflexivity.
  - rewrite orb_true_r. reflexivity.
  - rewrite orb_true_r. reflexivity.
Qed.

Lemma incomplete_form_witness :
  calculateEstimate App_js no_tier_yet (Some earlier_estimate) = Some earlier_estimate /\
  calculateEstimate App_js no_tier_yet (@None (Estimate exact)) = None.
Proof.
  split; apply incomplete_form_keeps_estimate; right; right; reflexivity.
Defined.

(** ** Exact arithmetic *)

Lemma Qle_bool_false (a b : Q) : Qle_bool a b = false -> (b < a)%Q.
Proof.
  intros E. apply Qnot_le_lt. intros L.
  apply Qle_bool_iff in L. congruence.
Qed.

(** A rational at least [q]. *)
Lemma exact_le_inv (q : Q) (x : exact) :
  exact_le (Rat q) x -> exists v, x = Rat v /\ (q <= v)%Q.
Proof. destruct x; simpl; [eauto | tauto]. Qed.

Lemma exact_max2_ge (x y : exact) (q : Q) :
  exact_le (Rat q) x -> exact_le (Rat q) y -> exact_le (Rat q) (Math_max2 x y).
Proof.
  destruct x as [a|], y as [b|]; simpl; try tauto.
  intros A B. destruct (Qle_bool a b); simpl; assumption.
Qed.

Lemma Math_max_ge (q : Q) (ms : list exact) :
  forall m, exact_le (Rat q) m -> Forall (exact_le (Rat q)) ms ->
  exact_le (Rat q) (Math_max m ms).
Proof.
  unfold Math_max. induction ms as [|x ms IH]; intros m Hm Hms; simpl.
  - exact Hm.
  - inversion Hms; subst. apply IH; [apply exact_max2_ge|]; assumption.
Qed.

(** ** The surface multiplier is at least 1 *)

Lemma includes_In (l : list string) (s : string) : includes l s = true <-> In s l.
Proof.
  unfold includes. rewrite existsb_exists. split.
  - intros [x [I E]]. apply String.eqb_eq in E. subst. exact I.
  - intros I. exists s. split; [exact I | apply String.eqb_refl].
Qed.

(** Every primary exterior surface weighs at least 1.0. *)
Lemma exteriorMultipliers_ge (fd : FormData) :
  Forall (exact_le (Rat 1)) (exteriorMultipliers fd).
Proof.
  unfold exteriorMultipliers, exteriorSurfaces.
  induction (surfaces fd) as [|a l IH]; [constructor|].
  cbn [filter]. destruct (includes primary_exterior a) eqn:E; [|exact IH].
  cbn [map]. constructor; [|exact IH].
  apply includes_In in E. simpl in E.
  destruct E as [E|[E|[E|[E|[E|[]]]]]]; subst a; vm_compute; discriminate.
Qed.

Lemma exteriorMultiplier_ge (fd : FormData) : exact_le (Rat 1) (exteriorMultiplier fd).
Proof.
  unfold exteriorMultiplier.
  pose proof (exteriorMultipliers_ge fd) as G.
  assert (B : exact_le (Rat 1)
                (match exteriorMultipliers fd with m :: ms => Math_max m ms | [] => of_Z 1 end)).
  { destruct (exteriorMultipliers fd) as [|m ms].
    - vm_compute. discriminate.
    - inversion G; subst. apply Math_max_ge; assumption. }
  destruct (includes (surfaces fd) "trim" && _); [|exact B].
  apply exact_le_inv in B. destruct B as [v [-> L]].
  change (exterior "trim") with (Rat (1 # 5)).
  cbn [add exact_number exact_lift2 exact_le]. rewrite Qred_correct. lra.
Qed.

Lemma exterior_branch_ge (fd : FormData) : exact_le (Rat 1) (exterior_branch fd (Rat 1)).
Proof.
  unfold exterior_branch.
  pose proof (exteriorMultipliers_ge fd) as G.
  destruct (exteriorMultipliers fd) as [|m ms].
  - destruct (includes (surfaces fd) "trim"); vm_compute; discriminate.
  - inversion G; subst.
    assert (B : exact_le (Rat 1) (Math_max m ms)) by (apply Math_max_ge; assumption).
    destruct (includes (surfaces fd) "trim"); [|exact B].
    apply exact_le_inv in B. destruct B as [v [-> L]].
    change (exterior "trim") with (Rat (1 # 5)).
    cbn [add exact_number exact_lift2 exact_le]. rewrite Qred_correct. lra.
Qed.

Lemma interiorMultiplier_Rat (fd : FormData) : exists i, interiorMultiplier fd = Rat i.
Proof.
  unfold interiorMultiplier.
  destruct (0 <? Z.of_nat (List.length (interiorSurfaces fd)));
    destruct (includes (surfaces fd) "walls");
    destruct (includes (surfaces fd) "ceilings");
    destruct (includes (surfaces fd) "trim"); vm_compute; eexists; reflexivity.
Qed.

Lemma both_block_ge (fd : FormData) : exact_le (Rat 1) (both_block fd).
Proof.
  unfold both_block.
  destruct (interiorMultiplier_Rat fd) as [i ->].
  destruct (exact_le_inv _ _ (exteriorMultiplier_ge fd)) as [e [-> E]].
  assert (M : exact_le (Rat 1) (Math_max2 (Rat i) (of_Z 1))).
  { simpl. destruct (Qle_bool i (inject_Z 1)) eqn:C; simpl.
    - apply Qle_refl.
    - apply Qle_bool_false in C. apply Qlt_le_weak. exact C. }
  apply exact_le_inv in M. destruct M as [m [-> M]].
  cbn [add div of_Z exact_number exact_lift2 exact_div exact_le].
  change (Qeq_bool (inject_Z 2) 0) with false. cbv iota.
  rewrite !Qred_correct. unfold Qdiv. change (/ inject_Z 2)%Q with (1 # 2)%Q. lra.
Qed.

(** A selection for project type interior, not empty and made of interior
    surfaces, holds walls, ceilings or trim. *)
Lemma interior_selection (fd : FormData) :
  surfaces fd <> [] ->
  Forall (fun surface => In surface getInteriorSurfaces) (surfaces fd) ->
  includes (surfaces fd) "walls" = true \/
  includes (surfaces fd) "ceilings" = true \/
  includes (surfaces fd) "trim" = true.
Proof.
  intros N V.
  destruct (surfaces fd) as [|a l]; [congruence|].
  inversion V as [|? ? I _]; subst. simpl in I.
  destruct I as [I|[I|[I|[]]]]; subst a; [left | right; left | right; right]; reflexivity.
Qed.

Lemma interior_branch_ge (fd : FormData) :
  surfaces fd <> [] ->
  Forall (fun surface => In surface getInteriorSurfaces) (surfaces fd) ->
  exact_le (Rat 1) (interior_branch fd).
Proof.
  intros N V. pose proof (interior_selection fd N V) as S.
  unfold interior_branch.
  destruct (includes (surfaces fd) "walls");
    destruct (includes (surfaces fd) "ceilings");
    destruct (includes (surfaces fd) "trim");
    try (vm_compute; discriminate).
  destruct S as [S|[S|S]]; discriminate S.
Qed.

Lemma surfaceMultiplier_ge (fd : FormData) :
  valid_surfaces fd -> exact_le (Rat 1) (surfaceMultiplier fd).
Proof.
  intros [T V].
  destruct (surfaces fd) as [|a l] eqn:E.
  - rewrite surfaceMultiplier_empty by exact E. vm_compute. discriminate.
  - assert (N : surfaces fd <> []) by congruence. rewrite <- E in V.
    simpl in T. destruct T as [T|[T|[T|[]]]]; symmetry in T.
    + rewrite surfaceMultiplier_interior by assumption.
      apply interior_branch_ge; [exact N|]. rewrite T in V. exact V.
    + rewrite surfaceMultiplier_exterior by assumption. apply exterior_branch_ge.
    + rewrite surfaceMultiplier_both by assumption. apply both_block_ge.
Qed.

(** *** In binary64 *)









(** ** Rounding *)

(** [Math.round] keeps a gap of [k] whole units between two prices. *)
Lemma round_gap (a b : Q) (k : Z) :
  (a + inject_Z k <= b)%Q ->
  Qfloor (a + (1 # 2)) + k <= Qfloor (b + (1 # 2)).
Proof.
  intros G.
  pose proof (Qfloor_le (a + (1 # 2))) as A.
  pose proof (Qlt_floor (b + (1 # 2))) as B.
  assert (L : (inject_Z (Qfloor (a + (1 # 2)) + k) < inject_Z (Qfloor (b + (1 # 2)) + 1))%Q).
  { rewrite !inject_Z_plus in *. lra. }
  rewrite <- Zlt_Qlt in L. lia.
Qed.

Lemma round_mono (a b : Q) :
  (a <= b)%Q -> Qfloor (a + (1 # 2)) <= Qfloor (b + (1 # 2)).
Proof.
  intros G. pose proof (@round_gap a b 0) as R.
  rewrite Z.add_0_r in R. apply R. change (inject_Z 0) with 0%Q. lra.
Qed.

(** ** The two floors *)

Lemma floors_exact (a b : Q) :
  exists a' b',
    absolute_floor (spread_floor (Rat a, Rat b)) = (Rat a', Rat b') /\ floored a b a' b'.
Proof.
  unfold spread_floor, MINIMUM_PRICING_rangeSpread.
  cbn [lt sub add of_Z exact_number exact_lift2 exact_ltb].
  change (inject_Z 3000) with 3000%Q.
  assert (S : exists m, (if negb (Qle_bool 3000 (Qred (b - a)))
                         then (Rat a, Rat (Qred (a + 3000))) else (Rat a, Rat b))
                        = (Rat a, Rat m) /\
                        ((b - a < 3000 /\ m == a + 3000) \/ (3000 <= b - a /\ m == b))%Q).
  { destruct (Qle_bool 3000 (Qred (b - a))) eqn:C; cbn [negb].
    - apply Qle_bool_iff in C. rewrite Qred_correct in C.
      exists b. split; [reflexivity|]. right. split; [exact C | reflexivity].
    - apply Qle_bool_false in C. rewrite Qred_correct in C.
      exists (Qred (a + 3000)). split; [reflexivity|]. left.
      split; [exact C | apply Qred_correct]. }
  destruct S as [m [-> S]].
  unfold absolute_floor, MINIMUM_PRICING_absoluteMin, MINIMUM_PRICING_rangeSpread.
  cbn [lt add of_Z Math_max2 exact_number exact_lift2 exact_ltb exact_max2].
  change (Qred (inject_Z 3000 + inject_Z 3000)) with 6000%Q.
  change (inject_Z 3000) with 3000%Q.
  destruct (Qle_bool 3000 a) eqn:C; cbn [negb].
  - apply Qle_bool_iff in C.
    exists a, m. split; [reflexivity|]. exists m. split; [exact S|].
    right. split; [exact C | split; reflexivity].
  - apply Qle_bool_false in C.
    destruct (Qle_bool m 6000) eqn:D.
    + apply Qle_bool_iff in D.
      exists 3000%Q, 6000%Q. split; [reflexivity|]. exists m. split; [exact S|].
      left. split; [exact C | split; [reflexivity|]]. left. split; [exact D | reflexivity].
    + apply Qle_bool_false in D.
      exists 3000%Q, m. split; [reflexivity|]. exists m. split; [exact S|].
      left. split; [exact C | split; [reflexivity|]]. right. split; [exact D | reflexivity].
Qed.

(** ** The estimate of a complete form *)

(** The factor of a paint tier and of a difficulty level of the form. *)
Lemma paintMultiplier_valid (fd : FormData) :
  In (paintTier fd) [ "standard"; "premium"; "designer" ] ->
  exists p, ToNumber (paintMultiplier fd) = Rat p /\ (1 <= p)%Q.
Proof.
  unfold paintMultiplier. simpl In.
  intros [E|[E|[E|[]]]]; rewrite <- E; eexists; (split; [vm_compute; reflexivity|]);
    unfold Qle; simpl; lia.
Qed.

Lemma difficultyMultiplier_valid (fd : FormData) :
  In (difficultyLevel fd) [ "basic"; "standard"; "moderate"; "complex"; "high_difficulty" ] ->
  exists d, ToNumber (difficultyMultiplier fd) = Rat d /\ (1 <= d)%Q.
Proof.
  unfold difficultyMultiplier. simpl In.
  intros [E|[E|[E|[E|[E|[]]]]]]; rewrite <- E; eexists; (split; [vm_compute; reflexivity|]);
    unfold Qle; simpl; lia.
Qed.

Lemma raw_exact (f : source_file) (fd : FormData) (n : Z) (p d s : Q) :
  parseInt (squareFootage fd) = Rat (inject_Z n) ->
  ToNumber (paintMultiplier fd) = Rat p ->
  ToNumber (difficultyMultiplier fd) = Rat d ->
  surfaceMultiplier fd = Rat s ->
  exists lo hi,
    raw f fd = (Rat lo, Rat hi) /\
    (lo == inject_Z n * (rmin f * (p * d * s)))%Q /\
    (hi == inject_Z n * (rmax f * (p * d * s)))%Q.
Proof.
  intros N P D S. unfold raw, base. rewrite N, P, D, S.
  destruct f; cbn [BASE_RATES rate_min rate_max tenths hundredths div of_Z mul
                   exact_number exact_div exact_lift2];
    eexists; eexists; (split; [vm_compute Qeq_bool; cbv iota; reflexivity|]);
    rewrite !Qred_correct; unfold rmin, rmax, Qdiv;
    split; vm_compute inject_Z; vm_compute Qinv; ring.
Qed.

Lemma rates_positive (f : source_file) : (0 < rmin f /\ rmin f <= rmax f)%Q.
Proof. destruct f; unfold rmin, rmax; split; lra. Qed.

Lemma factor_nonneg (r p d s : Q) :
  (0 <= r -> 1 <= p -> 1 <= d -> 1 <= s -> 0 <= r * (p * d * s))%Q.
Proof.
  intros R P D S.
  apply Qmult_le_0_compat; [exact R|].
  apply Qmult_le_0_compat; [apply Qmult_le_0_compat|]; lra.
Qed.

(** The floors respect the order of prices. *)
Lemma floored_mono (x1 y1 x2 y2 a1 b1 a2 b2 : Q) :
  (x1 <= x2)%Q -> (y1 <= y2)%Q ->
  floored x1 y1 a1 b1 -> floored x2 y2 a2 b2 ->
  (a1 <= a2 /\ b1 <= b2)%Q.
Proof.
  intros X Y [m1 [S1 F1]] [m2 [S2 F2]].
  destruct S1 as [[? ?]|[? ?]], S2 as [[? ?]|[? ?]];
    destruct F1 as [[? [? [[? ?]|[? ?]]]]|[? [? ?]]];
    destruct F2 as [[? [? [[? ?]|[? ?]]]]|[? [? ?]]];
    split; lra.
Qed.

Lemma floored_bounds (a b a' b' : Q) :
  floored a b a' b' -> (3000 <= a' /\ a' + 3000 <= b' /\ a <= a')%Q.
Proof.
  intros [m [S F]].
  destruct S as [[? ?]|[? ?]];
    destruct F as [[? [? [[? ?]|[? ?]]]]|[? [? ?]]]; repeat split; lra.
Qed.


(** What [calculateEstimate] stores for a complete form, whatever it held:
    the prices [[lo, hi]] first computed are the square footage times the
    base rates times the three factors, and the stored bounds are the
    floored prices, rounded. *)
Lemma calculateEstimate_valid (f : source_file) (fd : FormData) (n : Z)
    (st : option (Estimate exact)) :
  valid fd n ->
  exists p d s lo hi a' b',
    ToNumber (paintMultiplier fd) = Rat p /\
    ToNumber (difficultyMultiplier fd) = Rat d /\
    surfaceMultiplier fd = Rat s /\
    (1 <= p /\ 1 <= d /\ 1 <= s)%Q /\
    raw f fd = (Rat lo, Rat hi) /\
    (lo == inject_Z n * (rmin f * (p * d * s)))%Q /\
    (hi == inject_Z n * (rmax f * (p * d * s)))%Q /\
    floored lo hi a' b' /\
    calculateEstimate f fd st =
      Some {| min := Rat (inject_Z (Qfloor (a' + (1 # 2))));
              max := Rat (inject_Z (Qfloor (b' + (1 # 2))));
              tierName := get tierNames (paintTier fd) |}.
Proof.
  intros [VS [VT [VD [N L]]]].
  destruct (paintMultiplier_valid fd VT) as [p [P P1]].
  destruct (difficultyMultiplier_valid fd VD) as [d [D D1]].
  destruct (exact_le_inv _ _ (surfaceMultiplier_ge VS)) as [s [S S1]].
  destruct (@raw_exact f fd n p d s N P D S) as [lo [hi [R [Lo Hi]]]].
  destruct (floors_exact lo hi) as [a' [b' [F Fl]]].
  exists p, d, s, lo, hi, a', b'.
  repeat (split; [assumption|]). split; [auto|].
  repeat (split; [assumption|]).
  unfold calculateEstimate.
  assert (G1 : (projectType fd === "") = false).
  { destruct VS as [T _]. simpl in T.
    destruct T as [T|[T|[T|[]]]]; rewrite <- T; reflexivity. }
  assert (G2 : (squareFootage fd === "") = false).
  { destruct (squareFootage fd); [|reflexivity]. vm_compute in N. discriminate N. }
  assert (G3 : (paintTier fd === "") = false).
  { simpl in VT. destruct VT as [T|[T|[T|[]]]]; rewrite <- T; reflexivity. }
  rewrite G1, G2, G3. cbn [orb]. unfold result. rewrite R, F. reflexivity.
Qed.

(** ** The stored range in exact arithmetic *)

(** In exact arithmetic the stored minimum of a complete form is at least
    the absolute minimum 3000. *)
Lemma floor_exact (f : source_file) (fd : FormData) (n : Z)
    (st : option (Estimate exact)) :
  valid fd n ->
  exists r, calculateEstimate f fd st = Some r /\ exact_le (Rat 3000) (min r).
Proof.
  intros V.
  destruct (calculateEstimate_valid f st V)
    as [p [d [s [lo [hi [a' [b' [_ [_ [_ [_ [_ [_ [_ [Fl C]]]]]]]]]]]]]]].
  eexists. split; [exact C|]. cbn [min exact_le].
  destruct (floored_bounds Fl) as [A _].
  pose proof (@round_mono 3000 a' A) as R.
  change (Qfloor (3000 + (1 # 2))) with 3000 in R.
  rewrite Zle_Qle in R. exact R.
Qed.


Lemma scenarioA_valid : valid scenarioA 1000.
Proof. complete_form. Qed.

Lemma scenarioB_valid : valid scenarioB 2000.
Proof. complete_form. Qed.

(** ** The square footage in exact arithmetic *)


(** Two stored bounds compare as the floored prices they round. *)
Lemma rounded_le (a b : Q) :
  (a <= b)%Q ->
  exact_le (Rat (inject_Z (Qfloor (a + (1 # 2))))) (Rat (inject_Z (Qfloor (b + (1 # 2))))).
Proof.
  intros L. cbn [exact_le]. rewrite <- Zle_Qle. apply round_mono. exact L.
Qed.

(** In exact arithmetic, with everything but the square footage fixed, a
    larger square footage gives no smaller stored bound. *)
Lemma monotone_exact (f : source_file) (fd : FormData) (s1 s2 : string)
    (n1 n2 : Z) (st1 st2 : option (Estimate exact)) :
  valid (with_squareFootage fd s1) n1 ->
  valid (with_squareFootage fd s2) n2 ->
  n1 <= n2 ->
  exists r1 r2,
    calculateEstimate f (with_squareFootage fd s1) st1 = Some r1 /\
    calculateEstimate f (with_squareFootage fd s2) st2 = Some r2 /\
    exact_le (min r1) (min r2) /\
    exact_le (max r1) (max r2).
Proof.
  intros V1 V2 L.
  assert (N1 : 100 <= n1) by apply V1.
  destruct (calculateEstimate_valid f st1 V1)
    as [p [d [s [lo1 [hi1 [a1 [b1 [P [D [S [[Gp [Gd Gs]] [_ [Lo1 [Hi1 [F1 C1]]]]]]]]]]]]]]].
  destruct (calculateEstimate_valid f st2 V2)
    as [p' [d' [s' [lo2 [hi2 [a2 [b2 [P' [D' [S' [_ [_ [Lo2 [Hi2 [F2 C2]]]]]]]]]]]]]]].
  change (paintMultiplier (num:=exact) (with_squareFootage fd s2))
    with (paintMultiplier (num:=exact) (with_squareFootage fd s1)) in P'.
  change (difficultyMultiplier (num:=exact) (with_squareFootage fd s2))
    with (difficultyMultiplier (num:=exact) (with_squareFootage fd s1)) in D'.
  change (surfaceMultiplier (num:=exact) (with_squareFootage fd s2))
    with (surfaceMultiplier (num:=exact) (with_squareFootage fd s1)) in S'.
  assert (p' = p) by congruence. assert (d' = d) by congruence.
  assert (s' = s) by congruence. subst p' d' s'.
  destruct (rates_positive f) as [R0 R1].
  assert (K : (0 <= p * d * s)%Q).
  { apply Qmult_le_0_compat; [apply Qmult_le_0_compat|]; lra. }
  assert (Z12 : (inject_Z n1 <= inject_Z n2)%Q) by (rewrite <- Zle_Qle; exact L).
  assert (X : (lo1 <= lo2)%Q).
  { rewrite Lo1, Lo2. apply Qmult_le_compat_r; [exact Z12|].
    apply factor_nonneg; lra. }
  assert (Y : (hi1 <= hi2)%Q).
  { rewrite Hi1, Hi2. apply Qmult_le_compat_r; [exact Z12|].
    apply factor_nonneg; lra. }
  destruct (floored_mono X Y F1 F2) as [A B].
  eexists. eexists. split; [exact C1|]. split; [exact C2|].
  cbn [min max]. split; apply rounded_le; assumption.
Qed.

(** ** The paint tiers in exact arithmetic *)


(** The strictness is about the lower tier.  At 947 sqft of interior trim,
    standard difficulty, the price first computed for designer is 3000.096,
    above the absolute minimum, and the one for premium is 2437.578, below
    it: both stored minima are 3000. *)
Remark tier_boundary (st : option (Estimate exact)) (st64 : option (Estimate float)) :
  let form tier := selection "interior" "947" tier "standard" [ "trim" ] in
  fst (raw App_js (form "premium")) = Rat (Qred (2437578 # 1000)) /\
  fst (raw App_js (form "designer")) = Rat (Qred (3000096 # 1000)) /\
  option_map (@min exact) (calculateEstimate App_js (form "premium") st) = Some (Rat 3000) /\
  option_map (@min exact) (calculateEstimate App_js (form "designer") st) = Some (Rat 3000) /\
  option_map (@min float) (calculateEstimate App_js (form "premium") st64) = Some 3000%float /\
  option_map (@min float) (calculateEstimate App_js (form "designer") st64) = Some 3000%float.
Proof. repeat split; vm_compute; reflexivity. Qed.

(** Where binary64 and exact arithmetic part: at 900 sqft, premium, moderate
    difficulty, no surface, the maximum is 6142.5 exactly and rounds to 6143,
    while the double computed for it lies just below and rounds to 6142. *)
Remark binary64_rounds_below (st : option (Estimate exact)) (st64 : option (Estimate float)) :
  let form := selection "interior" "900" "premium" "moderate" [] in
  snd (raw App_js form) = Rat (Qred (61425 # 10)) /\
  PrimFloat.ltb (snd (raw App_js form)) (div (of_Z 61425) (of_Z 10)) = true /\
  calculateEstimate App_js form st =
    Some {| min := Rat 3000; max := Rat 6143; tierName := VString "Premium Paint" |} /\
  calculateEstimate App_js form st64 =
    Some {| min := 3000%float; max := 6142%float; tierName := VString "Premium Paint" |}.
Proof. repeat split; vm_compute; reflexivity. Qed.

(** ** The surface step never lowers the band *)



(** The selection has to be among the surfaces offered for the project type:
    the form keeps the checked surfaces when the project type is changed, and
    an interior project left with brick alone has surface multiplier 0. *)
Remark interior_with_exterior_surface :
  surfaceMultiplier (selection "interior" "1000" "standard" "basic" [ "brick" ]) = Rat 0 /\
  surfaceMultiplier (selection "interior" "1000" "standard" "basic" [ "brick" ]) = 0%float.
Proof. split; vm_compute; reflexivity. Qed.

(** ** Keys outside the tables *)

Section Keys.

Context {num : Type} `{JSNumber num}.

Lemma or_else_same (v : value num) : or_else v v = v.
Proof. unfold or_else. destruct (truthy v); reflexivity. Qed.

(** A key that names no property of the table, own or inherited, reads as
    undefined and is replaced by 1.0. *)
Lemma get_unknown (o : list (string * value num)) (k : string) :
  own o k = None -> includes Object_prototype k = false ->
  or_else (get o k) (VNumber (of_Z 1)) = VNumber (of_Z 1).
Proof. intros O I. unfold get. rewrite O, I. reflexivity. Qed.

(** Such a paint tier is priced as the tier standard, whose multiplier is
    1.0, and such a difficulty level as the level basic. *)
Lemma unknown_paintTier_neutral (f : source_file) (fd : FormData) (k : string) :
  own (num:=num) PAINT_MULTIPLIERS k = None -> includes Object_prototype k = false ->
  raw f (with_paintTier fd k) = raw f (with_paintTier fd "standard").
Proof.
  intros O I.
  assert (E : paintMultiplier (with_paintTier fd k)
              = paintMultiplier (with_paintTier fd "standard")).
  { unfold paintMultiplier. cbn [paintTier with_paintTier].
    rewrite (get_unknown _ _ O I).
    change (get PAINT_MULTIPLIERS "standard") with (VNumber (of_Z 1)).
    symmetry. apply or_else_same. }
  unfold raw, base. rewrite E. reflexivity.
Qed.

Lemma unknown_difficultyLevel_neutral (f : source_file) (fd : FormData) (k : string) :
  own (num:=num) DIFFICULTY_MULTIPLIERS k = None -> includes Object_prototype k = false ->
  raw f (with_difficultyLevel fd k) = raw f (with_difficultyLevel fd "basic").
Proof.
  intros O I.
  assert (E : difficultyMultiplier (with_difficultyLevel fd k)
              = difficultyMultiplier (with_difficultyLevel fd "basic")).
  { unfold difficultyMultiplier. cbn [difficultyLevel with_difficultyLevel].
    rewrite (get_unknown _ _ O I).
    change (get DIFFICULTY_MULTIPLIERS "basic") with (VNumber (of_Z 1)).
    symmetry. apply or_else_same. }
  unfold raw, base. rewrite E. reflexivity.
Qed.

End Keys.

(** C8, where the program misses it. The key [constructor] is no paint tier
    and [toString] no difficulty level, yet both name a property every object
    inherits: the read gives a function, [|| 1.0] keeps it, the product is
    NaN and so are both stored bounds, where the multiplier 1.0 gives 3000
    and 6000 (as it does for the key [economy]). *)
Theorem inherited_key_gives_NaN (st : option (Estimate exact))
    (st64 : option (Estimate float)) :
  own (num:=exact) PAINT_MULTIPLIERS "constructor" = None /\
  own (num:=exact) DIFFICULTY_MULTIPLIERS "toString" = None /\
  calculateEstimate App_js (with_paintTier scenarioA "constructor") st =
    Some {| min := NotANumber; max := NotANumber; tierName := VObject |} /\
  calculateEstimate App_js (with_difficultyLevel scenarioA "toString") st =
    Some {| min := NotANumber; max := NotANumber; tierName := VString "Standard Paint" |} /\
  calculateEstimate App_js (with_paintTier scenarioA "constructor") st64 =
    Some {| min := PrimFloat.nan; max := PrimFloat.nan; tierName := VObject |} /\
  calculateEstimate App_js (with_difficultyLevel scenarioA "toString") st64 =
    Some {| min := PrimFloat.nan; max := PrimFloat.nan;
            tierName := VString "Standard Paint" |} /\
  calculateEstimate App_js (with_paintTier scenarioA "economy") st =
    Some {| min := Rat 3000; max := Rat 6000; tierName := VUndefined |} /\
  calculateEstimate App_js (with_paintTier scenarioA "economy") st64 =
    Some {| min := 3000%float; max := 6000%float; tierName := VUndefined |}.
Proof. repeat split; vm_compute; reflexivity. Qed.

(** * Further properties *)

(** ** The surface multiplier in closed form *)

Section ClosedForm.

Context {num : Type} `{JSNumber num}.

(** What the closed form needs of the arithmetic: the greater of two weights
    is the weight of the greater rank, and no weight is falsy. *)
Hypothesis max_weight :
  forall a b : nat, (a <= 4)%nat -> (b <= 4)%nat ->
  Math_max2 (weight a) (weight b) = weight (Nat.max a b).
Hypothesis weight_truthy : forall a : nat, ToBoolean (weight a) = true.

Lemma rank_le (s : string) : (rank s <= 4)%nat.
Proof.
  unfold rank.
  repeat match goal with |- context [if ?b then _ else _] => destruct b end; lia.
Qed.

Lemma hardest_weight (sel : string -> bool) : hardest sel = weight (top_rank sel).
Proof.
  unfold hardest, top_rank.
  repeat match goal with |- context [if ?b then _ else _] => destruct b end; reflexivity.
Qed.

Lemma exterior_lookup (s : string) :
  includes primary_exterior s = true ->
  ToNumber (or_else (get SURFACE_MULTIPLIERS_exterior s) (VNumber (of_Z 1))) = weight (rank s).
Proof.
  intros I. apply includes_In in I. simpl in I.
  destruct I as [E|[E|[E|[E|[E|[]]]]]]; subst s;
    match goal with
    | |- ToNumber (or_else ?v _) = weight ?r =>
        let r' := eval vm_compute in r in
        change v with (VNumber (weight r')); change r with r'
    end;
    unfold or_else; cbn [truthy]; rewrite weight_truthy; reflexivity.
Qed.

Lemma fold_max_weight (rs : list nat) :
  Forall (fun r => (r <= 4)%nat) rs ->
  forall a, (a <= 4)%nat ->
  fold_left Math_max2 (map weight rs) (weight a) = weight (fold_left Nat.max rs a).
Proof.
  induction rs as [|r rs IH]; intros F a A; cbn [map fold_left]; [reflexivity|].
  inversion F; subst. rewrite max_weight by assumption.
  apply IH; [assumption | lia].
Qed.

Lemma exteriorMultipliers_ranks (fd : FormData) :
  exteriorMultipliers fd = map weight (map rank (exteriorSurfaces fd)).
Proof.
  unfold exteriorMultipliers. rewrite map_map.
  apply map_ext_in. intros s I.
  unfold exteriorSurfaces in I. apply filter_In in I.
  apply exterior_lookup. apply I.
Qed.

Lemma top_rank_cons (x : string) (l : list string) :
  top_rank (includes (x :: l))
  = Nat.max (if includes primary_exterior x then rank x else 0%nat) (top_rank (includes l)).
Proof.
  unfold top_rank. rewrite !(includes_cons x l).
  generalize (includes l "brick"), (includes l "stucco"), (includes l "cement"),
    (includes l "vinyl_siding"). intros b4 b3 b2 b1.
  destruct (String.eqb_spec "brick" x) as [<-|N4];
    [destruct b4, b3, b2, b1; reflexivity|].
  destruct (String.eqb_spec "stucco" x) as [<-|N3];
    [destruct b4, b3, b2, b1; reflexivity|].
  destruct (String.eqb_spec "cement" x) as [<-|N2];
    [destruct b4, b3, b2, b1; reflexivity|].
  destruct (String.eqb_spec "vinyl_siding" x) as [<-|N1];
    [destruct b4, b3, b2, b1; reflexivity|].
  cbn [orb].
  assert (R : (if includes primary_exterior x then rank x else 0%nat) = 0%nat).
  { destruct (includes primary_exterior x) eqn:I; [|reflexivity].
    apply includes_In in I. simpl in I.
    destruct I as [E|[E|[E|[E|[E|[]]]]]]; try congruence. subst x. reflexivity. }
  rewrite R. reflexivity.
Qed.

Lemma fold_top_rank (l : list string) :
  forall a, fold_left Nat.max (map rank (filter (includes primary_exterior) l)) a
            = Nat.max a (top_rank (includes l)).
Proof.
  induction l as [|x l IH]; intros a.
  - cbn. lia.
  - rewrite top_rank_cons. cbn [filter].
    destruct (includes primary_exterior x); cbn [map fold_left]; rewrite IH; lia.
Qed.

(** The greatest weight among the selected primary surfaces is the weight of
    the hardest one. *)
Lemma Math_max_hardest (fd : FormData) (m : num) (ms : list num) :
  exteriorMultipliers fd = m :: ms ->
  Math_max m ms = hardest (includes (surfaces fd)).
Proof.
  rewrite exteriorMultipliers_ranks. unfold exteriorSurfaces.
  destruct (filter (includes primary_exterior) (surfaces fd)) as [|s ss] eqn:E;
    [discriminate|].
  cbn [map]. intros X. injection X as <- <-.
  unfold Math_max. rewrite fold_max_weight.
  - rewrite hardest_weight. f_equal.
    pose proof (fold_top_rank (surfaces fd) 0) as T. rewrite E in T.
    cbn [map fold_left] in T. rewrite Nat.max_0_l in T. rewrite T. apply Nat.max_0_l.
  - apply Forall_forall. intros r I. apply in_map_iff in I.
    destruct I as [k [<- _]]. apply rank_le.
  - apply rank_le.
Qed.

Lemma existsb_orb (A : Type) (f g : A -> bool) (l : list A) :
  existsb (fun x => f x || g x) l = existsb f l || existsb g l.
Proof.
  induction l as [|a l IH]; cbn [existsb]; [reflexivity|].
  rewrite IH. destruct (f a), (g a), (existsb f l), (existsb g l); reflexivity.
Qed.

(** Some surface of [ks] is selected exactly when the filter keeps
    something. *)
Lemma filter_nonempty (ks l : list string) :
  nonempty (filter (includes ks) l) = existsb (includes l) ks.
Proof.
  induction l as [|a l IH].
  - cbn. induction ks as [|k ks IHk]; [reflexivity | exact IHk].
  - cbn [filter].
    assert (E : existsb (includes (a :: l)) ks = includes ks a || existsb (includes l) ks).
    { change (includes ks a) with (existsb (String.eqb a) ks).
      rewrite <- existsb_orb. clear IH.
      induction ks as [|k ks IHk]; cbn [existsb]; [reflexivity|].
      rewrite IHk, includes_cons, String.eqb_sym. reflexivity. }
    rewrite E. destruct (includes ks a); [reflexivity | exact IH].
Qed.

Lemma nonempty_length (A : Type) (l : list A) :
  (0 <? Z.of_nat (List.length l)) = nonempty l.
Proof. destruct l; reflexivity. Qed.

Lemma primary_selected (fd : FormData) :
  nonempty (exteriorSurfaces fd) = any_primary (includes (surfaces fd)).
Proof.
  unfold exteriorSurfaces. rewrite filter_nonempty. unfold any_primary. cbn [existsb primary_exterior].
  rewrite orb_false_r, !orb_assoc. reflexivity.
Qed.

Lemma interior_selected (fd : FormData) :
  nonempty (interiorSurfaces fd)
  = includes (surfaces fd) "walls" || includes (surfaces fd) "ceilings".
Proof.
  unfold interiorSurfaces. rewrite filter_nonempty. cbn [existsb].
  rewrite orb_false_r. reflexivity.
Qed.

Lemma hardest_none (sel : string -> bool) : any_primary sel = false -> hardest sel = of_Z 1.
Proof.
  unfold any_primary, hardest. intros A.
  destruct (sel "brick"), (sel "stucco"), (sel "cement"), (sel "vinyl_siding");
    try reflexivity; rewrite ?orb_true_r in A; cbn in A; discriminate A.
Qed.

Lemma exterior_branch_closed (fd : FormData) :
  exterior_branch fd (of_Z 1) = exterior_closed (includes (surfaces fd)).
Proof.
  unfold exterior_branch, exterior_closed.
  change (exterior "trim") with (tenths 2).
  destruct (exteriorMultipliers fd) as [|m ms] eqn:E.
  - assert (A : any_primary (includes (surfaces fd)) = false).
    { rewrite <- primary_selected. unfold exteriorMultipliers in E.
      destruct (exteriorSurfaces fd); [reflexivity | discriminate E]. }
    rewrite (hardest_none _ A). reflexivity.
  - rewrite (Math_max_hardest fd E). reflexivity.
Qed.

Lemma interior_branch_closed (fd : FormData) :
  interior_branch fd = interior_closed (includes (surfaces fd)).
Proof. reflexivity. Qed.

Lemma both_block_closed (fd : FormData) :
  both_block fd = both_closed (includes (surfaces fd)).
Proof.
  unfold both_block, both_closed. f_equal. f_equal.
  - f_equal. unfold interiorMultiplier.
    rewrite nonempty_length, interior_selected.
    change (interior "walls") with (of_Z 1). change (interior "ceilings") with (tenths 4).
    change (interior "trim") with (tenths 3).
    destruct (includes (surfaces fd) "walls"), (includes (surfaces fd) "ceilings"),
      (includes (surfaces fd) "trim"); reflexivity.
  - unfold exteriorMultiplier. rewrite nonempty_length, primary_selected.
    change (exterior "trim") with (tenths 2).
    destruct (exteriorMultipliers fd) as [|m ms] eqn:E.
    + assert (A : any_primary (includes (surfaces fd)) = false).
      { rewrite <- primary_selected. unfold exteriorMultipliers in E.
        destruct (exteriorSurfaces fd); [reflexivity | discriminate E]. }
      rewrite (hardest_none _ A). reflexivity.
    + rewrite (Math_max_hardest fd E). reflexivity.
Qed.

(** The multiplier the program computes is the closed form. *)
Lemma surfaceMultiplier_closed (fd : FormData) :
  surfaceMultiplier fd
  = surfaceMultiplier_of (projectType fd) (nonempty (surfaces fd)) (includes (surfaces fd)).
Proof.
  unfold surfaceMultiplier, surfaceMultiplier_of. rewrite nonempty_length.
  destruct (nonempty (surfaces fd)); [|reflexivity].
  destruct (projectType fd === "interior") eqn:I.
  - apply String.eqb_eq in I. rewrite I. reflexivity.
  - destruct (projectType fd === "exterior") eqn:X.
    + apply String.eqb_eq in X. rewrite X. cbn [orb String.eqb Ascii.eqb Bool.eqb].
      apply exterior_branch_closed.
    + destruct (projectType fd === "both") eqn:B; [|reflexivity].
      cbn [orb]. apply both_block_closed.
Qed.

End ClosedForm.

Lemma max_weight_exact (a b : nat) :
  (a <= 4)%nat -> (b <= 4)%nat ->
  Math_max2 (weight (num:=exact) a) (weight b) = weight (Nat.max a b).
Proof.
  intros A B.
  destruct a as [|[|[|[|[|a]]]]]; try lia;
    destruct b as [|[|[|[|[|b]]]]]; try lia; vm_compute; reflexivity.
Qed.

Lemma weight_truthy_exact (a : nat) : ToBoolean (weight (num:=exact) a) = true.
Proof. destruct a as [|[|[|[|a]]]]; vm_compute; reflexivity. Qed.

Lemma max_weight64 (a b : nat) :
  (a <= 4)%nat -> (b <= 4)%nat ->
  Math_max2 (weight (num:=float) a) (weight b) = weight (Nat.max a b).
Proof.
  intros A B.
  destruct a as [|[|[|[|[|a]]]]]; try lia;
    destruct b as [|[|[|[|[|b]]]]]; try lia; vm_compute; reflexivity.
Qed.

Lemma weight_truthy64 (a : nat) : ToBoolean (weight (num:=float) a) = true.
Proof. destruct a as [|[|[|[|a]]]]; vm_compute; reflexivity. Qed.

Lemma surfaceMultiplier_exact (fd : FormData) :
  surfaceMultiplier (num:=exact) fd
  = surfaceMultiplier_of (projectType fd) (nonempty (surfaces fd)) (includes (surfaces fd)).
Proof. apply (surfaceMultiplier_closed max_weight_exact weight_truthy_exact). Qed.

Lemma surfaceMultiplier_binary64 (fd : FormData) :
  surfaceMultiplier (num:=float) fd
  = surfaceMultiplier_of (projectType fd) (nonempty (surfaces fd)) (includes (surfaces fd)).
Proof. apply (surfaceMultiplier_closed max_weight64 weight_truthy64). Qed.

(** X1. The surface multiplier is a function of the project type and of which
    surface ids the selection holds.  For exterior it is the weight of the
    hardest selected primary surface (brick 1.6, stucco 1.5, cement 1.3,
    vinyl siding 1.1, wood siding 1.0, and 1.0 when none is selected) plus
    0.2 when trim is selected; the other project types have their closed
    forms too.  This holds in exact arithmetic and in binary64. *)
Theorem surface_multiplier_closed_form (fd : FormData) :
  surfaceMultiplier (num:=exact) fd
  = surfaceMultiplier_of (projectType fd) (nonempty (surfaces fd)) (includes (surfaces fd)) /\
  surfaceMultiplier (num:=float) fd
  = surfaceMultiplier_of (projectType fd) (nonempty (surfaces fd)) (includes (surfaces fd)).
Proof.
  split; [apply surfaceMultiplier_exact | apply surfaceMultiplier_binary64].
Qed.

(** ** The order of the selection *)

Lemma same_selection_nonempty (l1 l2 : list string) :
  (forall s, includes l1 s = includes l2 s) -> nonempty l1 = nonempty l2.
Proof.
  intros E. destruct l1 as [|a l1], l2 as [|b l2]; try reflexivity.
  - specialize (E b). rewrite includes_cons, String.eqb_refl in E. discriminate E.
  - specialize (E a). rewrite includes_cons, String.eqb_refl in E. discriminate E.
Qed.

Lemma surfaceMultiplier_of_ext (num : Type) (N : JSNumber num) (type : string) (b : bool)
    (sel sel' : string -> bool) :
  (forall s, sel s = sel' s) ->
  surfaceMultiplier_of (num:=num) type b sel = surfaceMultiplier_of type b sel'.
Proof.
  intros E.
  unfold surfaceMultiplier_of, interior_closed, exterior_closed, both_closed, hardest,
    any_primary.
  rewrite !E. reflexivity.
Qed.

Lemma same_members_same_estimate (f : source_file) (fd : FormData) (l : list string)
    (st : option (Estimate exact)) (st64 : option (Estimate float)) :
  (forall s, includes l s = includes (surfaces fd) s) ->
  calculateEstimate f (with_surfaces fd l) st = calculateEstimate f fd st /\
  calculateEstimate f (with_surfaces fd l) st64 = calculateEstimate f fd st64.
Proof.
  intros E.
  assert (S : surfaceMultiplier (num:=exact) (with_surfaces fd l) = surfaceMultiplier fd).
  { rewrite (surfaceMultiplier_exact (with_surfaces fd l)).
    rewrite (surfaceMultiplier_exact fd).
    cbn [projectType surfaces with_surfaces].
    rewrite (same_selection_nonempty _ _ E). apply surfaceMultiplier_of_ext. exact E. }
  assert (S64 : surfaceMultiplier (num:=float) (with_surfaces fd l) = surfaceMultiplier fd).
  { rewrite (surfaceMultiplier_binary64 (with_surfaces fd l)).
    rewrite (surfaceMultiplier_binary64 fd).
    cbn [projectType surfaces with_surfaces].
    rewrite (same_selection_nonempty _ _ E). apply surfaceMultiplier_of_ext. exact E. }
  split; unfold calculateEstimate, result, raw, base; [rewrite S | rewrite S64]; reflexivity.
Qed.

(** X2. The stored estimate depends on the array of checked surfaces only
    through which ids it holds: two arrays with the same members, in whatever
    order and with whatever repetitions, give the same estimate, in exact
    arithmetic and in binary64. *)
Theorem estimate_ignores_order (f : source_file) (fd : FormData) (l : list string)
    (st : option (Estimate exact)) (st64 : option (Estimate float)) :
  (forall s, includes l s = includes (surfaces fd) s) ->
  calculateEstimate f (with_surfaces fd l) st = calculateEstimate f fd st /\
  calculateEstimate f (with_surfaces fd l) st64 = calculateEstimate f fd st64.
Proof. apply same_members_same_estimate. Qed.

Lemma estimate_ignores_order_witness :
  calculateEstimate App_js (with_surfaces scenarioB [ "trim"; "brick"; "trim" ])
    (@None (Estimate exact))
  = calculateEstimate App_js scenarioB None.
Proof.
  refine (proj1 (@estimate_ignores_order App_js scenarioB [ "trim"; "brick"; "trim" ]
                   None None _)).
  intros s. cbn [surfaces scenarioB]. rewrite !includes_cons.
  destruct (s === "trim"), (s === "brick"); reflexivity.
Defined.

(** ** Bounds on the band *)

Ltac by_selection :=
  repeat match goal with
         | |- context [includes ?l ?k] => destruct (includes l k)
         end.

Lemma surfaceMultiplier_le (fd : FormData) :
  exact_le (surfaceMultiplier fd) (Rat (Qred (18 # 10))).
Proof.
  rewrite (surfaceMultiplier_exact fd). unfold surfaceMultiplier_of.
  destruct (nonempty (surfaces fd)); [|vm_compute; discriminate].
  destruct (projectType fd === "interior");
    [| destruct (projectType fd === "exterior");
       [| destruct (projectType fd === "both"); [|vm_compute; discriminate] ]];
    unfold interior_closed, exterior_closed, both_closed, hardest, any_primary;
    by_selection; vm_compute; discriminate.
Qed.

Lemma surfaceMultiplier64_le (fd : FormData) :
  PrimFloat.leb (surfaceMultiplier fd) (div (of_Z 18) (of_Z 10)) = true.
Proof.
  rewrite (surfaceMultiplier_binary64 fd). unfold surfaceMultiplier_of.
  destruct (nonempty (surfaces fd)); [|vm_compute; reflexivity].
  destruct (projectType fd === "interior");
    [| destruct (projectType fd === "exterior");
       [| destruct (projectType fd === "both"); [|vm_compute; reflexivity] ]];
    unfold interior_closed, exterior_closed, both_closed, hardest, any_primary;
    by_selection; vm_compute; reflexivity.
Qed.

Lemma valid_with_paintTier (fd : FormData) (n : Z) (tier : string) :
  valid fd n -> In tier [ "standard"; "premium"; "designer" ] ->
  valid (with_paintTier fd tier) n.
Proof. intros [V1 [_ V2]] I. split; [exact V1 | split; [exact I | exact V2]]. Qed.

Lemma valid_with_difficultyLevel (fd : FormData) (n : Z) (level : string) :
  valid fd n ->
  In level [ "basic"; "standard"; "moderate"; "complex"; "high_difficulty" ] ->
  valid (with_difficultyLevel fd level) n.
Proof.
  intros [V1 [V2 [_ V3]]] I. split; [exact V1 | split; [exact V2 | split; [exact I | exact V3]]].
Qed.

(** ** Checking and unchecking a surface *)

Lemma includes_app (l : list string) (s k : string) :
  includes (l ++ [ s ]) k = includes l k || (k === s).
Proof.
  unfold includes. rewrite existsb_app. cbn [existsb]. rewrite orb_false_r. reflexivity.
Qed.

Lemma includes_filter (l : list string) (s k : string) :
  includes (filter (fun x => negb (x === s)) l) k = includes l k && negb (k === s).
Proof.
  induction l as [|a l IH]; [reflexivity|].
  cbn [filter]. rewrite includes_cons.
  destruct (String.eqb_spec a s) as [->|N]; cbn [negb].
  - rewrite IH. destruct (k === s), (includes l k); reflexivity.
  - rewrite includes_cons, IH.
    destruct (String.eqb_spec k a) as [->|M]; [|reflexivity].
    destruct (String.eqb_spec a s) as [E|_]; [congruence|]. reflexivity.
Qed.

Lemma includes_handleSurfaceChange (fd : FormData) (s k : string) :
  includes (surfaces (handleSurfaceChange fd s)) k
  = if k === s then negb (includes (surfaces fd) s) else includes (surfaces fd) k.
Proof.
  unfold handleSurfaceChange. cbn [surfaces with_surfaces].
  destruct (includes (surfaces fd) s) eqn:I.
  - rewrite includes_filter. destruct (String.eqb_spec k s) as [->|N]; cbn [negb].
    + apply andb_false_r.
    + apply andb_true_r.
  - rewrite includes_app. destruct (String.eqb_spec k s) as [->|N].
    + rewrite I. reflexivity.
    + apply orb_false_r.
Qed.

(** X7. [handleSurfaceChange] flips the membership of the toggled surface and
    of no other, and keeps the array free of repetitions. *)
Theorem toggle_membership (fd : FormData) (s : string) :
  (forall k, includes (surfaces (handleSurfaceChange fd s)) k
             = if k === s then negb (includes (surfaces fd) s) else includes (surfaces fd) k) /\
  (NoDup (surfaces fd) -> NoDup (surfaces (handleSurfaceChange fd s))).
Proof.
  split; [intros k; apply includes_handleSurfaceChange|].
  unfold handleSurfaceChange. cbn [surfaces with_surfaces].
  intros D. destruct (includes (surfaces fd) s) eqn:I.
  - apply NoDup_filter. exact D.
  - apply NoDup_app; [exact D | repeat constructor; intros [] |].
    intros x Ix [<-|[]].
    apply includes_In in Ix. congruence.
Qed.

Lemma toggle_membership_witness :
  NoDup (surfaces (handleSurfaceChange scenarioB "trim")).
Proof.
  apply (proj2 (toggle_membership scenarioB "trim")).
  repeat constructor; simpl; intuition discriminate.
Defined.

Lemma filter_absent (l : list string) (s : string) :
  includes l s = false -> filter (fun x => negb (x === s)) l = l.
Proof.
  induction l as [|a l IH]; [reflexivity|].
  rewrite includes_cons. intros I. apply orb_false_iff in I. destruct I as [A B].
  cbn [filter]. rewrite String.eqb_sym, A. cbn [negb]. rewrite IH by exact B. reflexivity.
Qed.

(** X8. Toggling the same surface twice never changes the estimate, in exact
    arithmetic and in binary64; when the surface was unchecked, checking and
    unchecking it gives back the very array. *)
Theorem toggle_twice (f : source_file) (fd : FormData) (s : string)
    (st : option (Estimate exact)) (st64 : option (Estimate float)) :
  calculateEstimate f (handleSurfaceChange (handleSurfaceChange fd s) s) st
    = calculateEstimate f fd st /\
  calculateEstimate f (handleSurfaceChange (handleSurfaceChange fd s) s) st64
    = calculateEstimate f fd st64 /\
  (includes (surfaces fd) s = false ->
   surfaces (handleSurfaceChange (handleSurfaceChange fd s) s) = surfaces fd).
Proof.
  assert (M : forall k, includes (surfaces (handleSurfaceChange (handleSurfaceChange fd s) s)) k
                        = includes (surfaces fd) k).
  { intros k.
    rewrite (includes_handleSurfaceChange (handleSurfaceChange fd s) s k).
    rewrite !(includes_handleSurfaceChange fd s). rewrite String.eqb_refl.
    destruct (String.eqb_spec k s) as [->|N]; [apply negb_involutive | reflexivity]. }
  assert (E : handleSurfaceChange (handleSurfaceChange fd s) s
              = with_surfaces fd (surfaces (handleSurfaceChange (handleSurfaceChange fd s) s)))
    by reflexivity.
  rewrite E.
  destruct (@same_members_same_estimate f fd _ st st64 M) as [A B].
  split; [exact A|]. split; [exact B|].
  intros I. unfold handleSurfaceChange at 2. cbn [surfaces with_surfaces].
  unfold handleSurfaceChange. cbn [surfaces with_surfaces]. rewrite I.
  rewrite includes_app, String.eqb_refl, orb_true_r.
  rewrite filter_app. cbn [filter]. rewrite String.eqb_refl. cbn [negb].
  rewrite app_nil_r. apply filter_absent. exact I.
Qed.

Lemma toggle_twice_witness :
  includes (surfaces scenarioA) "ceilings" = false /\
  surfaces (handleSurfaceChange (handleSurfaceChange scenarioA "ceilings") "ceilings")
  = surfaces scenarioA.
Proof.
  split; [reflexivity|].
  apply (proj2 (proj2 (@toggle_twice App_js scenarioA "ceilings" None None))).
  reflexivity.
Defined.

Lemma all_bits_complete (n : nat) (bs : list bool) :
  List.length bs = n -> In bs (all_bits n).
Proof.
  revert bs. induction n as [|n IH]; intros [|b bs] L; try discriminate L.
  - left. reflexivity.
  - cbn [all_bits]. apply in_or_app. injection L as L.
    destruct b; [left | right]; apply in_map; apply IH; exact L.
Qed.

Lemma pick_ids (sel : string -> bool) (k : string) :
  In k surface_ids -> pick surface_ids (map sel surface_ids) k = sel k.
Proof.
  intros I. simpl in I.
  repeat (destruct I as [<-|I]; [reflexivity|]). contradiction.
Qed.

Lemma forallb_In (A : Type) (p : A -> bool) (l : list A) (x : A) :
  forallb p l = true -> In x l -> p x = true.
Proof. intros H I. rewrite forallb_forall in H. exact (H x I). Qed.

Lemma exact_leb_le (x y : exact) : exact_leb x y = true -> exact_le x y.
Proof.
  destruct x, y; cbn; try discriminate. apply Qle_bool_iff.
Qed.

Lemma valid_toggle (fd : FormData) (n : Z) (s : string) :
  valid fd n -> In s (getSurfaceOptions (projectType fd)) ->
  valid (handleSurfaceChange fd s) n.
Proof.
  intros [[T F] V] S. split; [|exact V]. split; [exact T|].
  unfold handleSurfaceChange. cbn [projectType surfaces with_surfaces].
  destruct (includes (surfaces fd) s).
  - apply Forall_forall. intros x I. apply filter_In in I.
    rewrite Forall_forall in F. apply F. apply I.
  - apply Forall_app. split; [exact F | constructor; [exact S | constructor]].
Qed.

(** ** What [parseInt] reads *)

Section ParseInt.

Context {num : Type} `{JSNumber num}.

Ltac by_character c :=
  destruct c as [[] [] [] [] [] [] [] []]; try discriminate; try reflexivity.

Lemma digitValue_decimal (c : ascii) :
  digitValue 10 c
  = if decimal_digit c then Some (Z.of_nat (nat_of_ascii c) - 48) else None.
Proof. by_character c. Qed.

Lemma digits_stop (rest : string) (acc : option Z) :
  stops rest = true -> digits 10 rest acc = acc.
Proof.
  destruct rest as [|c r]; [reflexivity|]. cbn [stops digits].
  rewrite digitValue_decimal. destruct (decimal_digit c); [discriminate | reflexivity].
Qed.

Lemma digits_leading (ds rest : string) :
  all_digits ds = true -> stops rest = true ->
  forall acc, digits 10 (ds ++ rest) (Some acc) = Some (decimal_value ds acc).
Proof.
  intros D S. induction ds as [|c ds IH]; intros acc.
  - apply digits_stop. exact S.
  - cbn [all_digits] in D. apply andb_true_iff in D. destruct D as [C D].
    cbn [String.append digits decimal_value]. rewrite digitValue_decimal, C.
    apply IH. exact D.
Qed.

Lemma parseInt_digit_first (c : ascii) (r : string) :
  decimal_digit c = true ->
  (match r with
   | EmptyString => true
   | String c2 _ => negb (Ascii.eqb c2 "x") && negb (Ascii.eqb c2 "X")
   end) = true ->
  parseInt (String c r)
  = match digits 10 (String c r) None with Some z => of_Z z | None => NaN end.
Proof.
  intros C R. by_character c.
  destruct r as [|c2 r2]; [reflexivity|]. by_character c2.
Qed.

Lemma parseInt_digits_then (ds rest : string) :
  ds <> "" -> all_digits ds = true -> stops rest = true ->
  parseInt (ds ++ rest) = of_Z (decimal_value ds 0).
Proof.
  intros N D S. destruct ds as [|c ds]; [congruence|].
  cbn [all_digits] in D. apply andb_true_iff in D. destruct D as [C D].
  cbn [String.append]. rewrite parseInt_digit_first.
  - cbn [digits decimal_value]. rewrite digitValue_decimal, C.
    rewrite (digits_leading ds rest D S). reflexivity.
  - exact C.
  - destruct ds as [|c2 ds]; cbn [String.append].
    + destruct rest as [|c2 r]; [reflexivity|]. cbn [stops] in S.
      apply andb_true_iff in S. destruct S as [S X].
      apply andb_true_iff in S. destruct S as [_ S]. rewrite S, X. reflexivity.
    + cbn [all_digits] in D. apply andb_true_iff in D. destruct D as [C2 _].
      clear - C2. by_character c2.
Qed.

(** X13. [parseInt] reads the decimal digits a string begins with and
    ignores what follows them: a fraction, an exponent, a unit.  So
    "1500.75" reads as 1500 and "1e5" as 1. *)
Theorem parseInt_leading_digits (ds rest : string) :
  ds <> "" -> all_digits ds = true -> stops rest = true ->
  parseInt (ds ++ rest) = of_Z (decimal_value ds 0).
Proof. apply parseInt_digits_then. Qed.

Lemma append_empty (s : string) : (s ++ "")%string = s.
Proof. induction s as [|c s IH]; cbn; [reflexivity | rewrite IH; reflexivity]. Qed.





End ParseInt.

Lemma parseInt_leading_digits_witness :
  parseInt (num:=exact) "1500.75" = Rat 1500 /\ parseInt (num:=float) "1e5" = 1%float.
Proof.
  split.
  - exact (@parseInt_leading_digits exact _ "1500" ".75"
             ltac:(discriminate) eq_refl eq_refl).
  - exact (@parseInt_leading_digits float _ "1" "e5"
             ltac:(discriminate) eq_refl eq_refl).
Defined.

(** ** Regular expressions: [test] decides the language *)

Lemma append_assoc (u v w : string) : ((u ++ v) ++ w)%string = (u ++ (v ++ w))%string.
Proof. induction u as [|c u IH]; cbn; [reflexivity | rewrite IH; reflexivity]. Qed.

Lemma append_is_empty (u v : string) : (u ++ v)%string = "" -> u = "" /\ v = "".
Proof. destruct u; cbn; [auto | discriminate]. Qed.

Lemma nullable_matches (r : regex) : nullable r = true -> matches r "".
Proof.
  induction r; cbn; intros N; try discriminate.
  - constructor.
  - apply andb_true_iff in N. destruct N as [N1 N2].
    apply (m_seq (IHr1 N1) (IHr2 N2)).
  - apply orb_true_iff in N. destruct N as [N|N];
      [apply m_alt_l | apply m_alt_r]; auto.
  - constructor.
Qed.

Lemma matches_nullable (r : regex) (w : string) : matches r w -> w = "" -> nullable r = true.
Proof.
  intros M. induction M; intros E; cbn; try reflexivity; try discriminate.
  - apply append_is_empty in E. destruct E as [E1 E2].
    rewrite IHM1, IHM2 by assumption. reflexivity.
  - rewrite IHM by assumption. reflexivity.
  - rewrite IHM by assumption. apply orb_true_r.
Qed.

Lemma matches_deriv (r : regex) (w : string) :
  matches r w -> forall c s, w = String c s -> matches (deriv c r) s.
Proof.
  intros M. induction M; intros c0 s0 E; try discriminate.
  - injection E as -> <-. cbn. rewrite H. constructor.
  - cbn [deriv]. destruct u as [|c' u'].
    + cbn in E. rewrite (matches_nullable M1 eq_refl).
      apply m_alt_r. apply IHM2. exact E.
    + cbn in E. injection E as -> <-.
      pose proof (m_seq (IHM1 _ _ eq_refl) M2) as S.
      destruct (nullable r); [apply m_alt_l|]; exact S.
  - cbn. apply m_alt_l. apply IHM. exact E.
  - cbn. apply m_alt_r. apply IHM. exact E.
  - destruct u as [|c' u'].
    + cbn in E. apply IHM2. exact E.
    + cbn in E. injection E as -> <-. cbn [deriv].
      apply (m_seq (IHM1 _ _ eq_refl) M2).
Qed.

Lemma deriv_matches (r : regex) :
  forall c s, matches (deriv c r) s -> matches r (String c s).
Proof.
  induction r; intros c s M; cbn [deriv] in M.
  - inversion M.
  - inversion M.
  - destruct (p c) eqn:P; inversion M; subst. constructor. exact P.
  - destruct (nullable r1) eqn:N.
    + inversion M; subst.
      * match goal with X : matches (Seq _ _) _ |- _ => inversion X; subst end.
        apply (m_seq (u := String c u) (IHr1 _ _ ltac:(eassumption)) ltac:(eassumption)).
      * apply (m_seq (u := "") (nullable_matches r1 N)). apply IHr2. assumption.
    + inversion M; subst.
      apply (m_seq (u := String c u) (IHr1 _ _ ltac:(eassumption)) ltac:(eassumption)).
  - inversion M; subst; [apply m_alt_l; apply IHr1 | apply m_alt_r; apply IHr2]; assumption.
  - inversion M; subst.
    apply (m_star_cons (u := String c u) (IHr _ _ ltac:(eassumption)) ltac:(eassumption)).
Qed.

(** [test] accepts exactly the strings of the language. *)
Lemma test_matches (s : string) : forall r, test r s = true <-> matches r s.
Proof.
  induction s as [|c s IH]; intros r; cbn [test].
  - split; [apply nullable_matches | intros M; apply (matches_nullable M eq_refl)].
  - rewrite IH. split; [apply deriv_matches | intros M; apply (matches_deriv M eq_refl)].
Qed.

(** ** What a match can hold *)

Lemma all_ascii_complete (c : ascii) : In c all_ascii.
Proof.
  unfold all_ascii. rewrite <- (ascii_nat_embedding c).
  apply in_map. apply in_seq. pose proof (nat_ascii_bounded c). lia.
Qed.

Lemma for_all_ascii (P : ascii -> bool) :
  forallb P all_ascii = true -> forall c, P c = true.
Proof. intros F c. rewrite forallb_forall in F. apply F. apply all_ascii_complete. Qed.

Lemma all_chars_app (p : ascii -> bool) (u v : string) :
  all_chars p (u ++ v) = all_chars p u && all_chars p v.
Proof.
  induction u as [|c u IH]; cbn; [reflexivity|]. rewrite IH. apply andb_assoc.
Qed.

Lemma all_chars_impl (p q : ascii -> bool) (s : string) :
  (forall c, p c = true -> q c = true) -> all_chars p s = true -> all_chars q s = true.
Proof.
  intros I. induction s as [|c s IH]; cbn; [reflexivity|].
  intros A. apply andb_true_iff in A. destruct A as [A B].
  rewrite (I c A), (IH B). reflexivity.
Qed.

Lemma count_chars_app (p : ascii -> bool) (u v : string) :
  count_chars p (u ++ v) = (count_chars p u + count_chars p v)%nat.
Proof. induction u as [|c u IH]; cbn; [reflexivity|]. rewrite IH. lia. Qed.

Lemma last_char_app (u v : string) :
  last_char (u ++ v) = match last_char v with Some c => Some c | None => last_char u end.
Proof.
  induction u as [|c u IH]; cbn.
  - destruct (last_char v); reflexivity.
  - rewrite IH. destruct (last_char v); reflexivity.
Qed.

Lemma last_char_none (s : string) : last_char s = None -> s = "".
Proof. destruct s as [|c s]; [reflexivity|]. cbn. destruct (last_char s); discriminate. Qed.

Lemma alphabet_sound (r : regex) (w : string) :
  matches r w -> all_chars (alphabet r) w = true.
Proof.
  intros M. induction M; cbn [alphabet]; try reflexivity.
  - cbn. rewrite H. reflexivity.
  - rewrite all_chars_app. apply andb_true_iff. split.
    + apply (all_chars_impl (alphabet r)); [|exact IHM1]. intros c A. rewrite A. reflexivity.
    + apply (all_chars_impl (alphabet s)); [|exact IHM2]. intros c A. rewrite A.
      apply orb_true_r.
  - apply (all_chars_impl (alphabet r)); [|exact IHM]. intros c A. rewrite A. reflexivity.
  - apply (all_chars_impl (alphabet s)); [|exact IHM]. intros c A. rewrite A.
    apply orb_true_r.
  - rewrite all_chars_app. apply andb_true_iff. split; [exact IHM1 | exact IHM2].
Qed.

Lemma firsts_sound (r : regex) (w : string) :
  matches r w -> forall c s, w = String c s -> firsts r c = true.
Proof.
  intros M. induction M; intros c0 s0 E; try discriminate; cbn [firsts].
  - injection E as -> _. exact H.
  - destruct u as [|c' u'].
    + cbn in E. rewrite (matches_nullable M1 eq_refl), (IHM2 _ _ E). apply orb_true_r.
    + cbn in E. injection E as -> _. rewrite (IHM1 _ _ eq_refl). reflexivity.
  - rewrite (IHM _ _ E). reflexivity.
  - rewrite (IHM _ _ E). apply orb_true_r.
  - destruct u as [|c' u'].
    + cbn in E. apply (IHM2 _ _ E).
    + cbn in E. injection E as -> _. apply (IHM1 _ _ eq_refl).
Qed.

Lemma lasts_sound (r : regex) (w : string) :
  matches r w -> forall c, last_char w = Some c -> lasts r c = true.
Proof.
  intros M. induction M; intros c0 E; try discriminate; cbn [lasts].
  - cbn in E. injection E as ->. exact H.
  - rewrite last_char_app in E. destruct (last_char v) as [d|] eqn:L.
    + rewrite (IHM2 _ E). reflexivity.
    + apply last_char_none in L. subst v.
      rewrite (matches_nullable M2 eq_refl), (IHM1 _ E). apply orb_true_r.
  - rewrite (IHM _ E). reflexivity.
  - rewrite (IHM _ E). apply orb_true_r.
  - rewrite last_char_app in E. destruct (last_char v) as [d|] eqn:L.
    + apply (IHM2 _ E).
    + apply (IHM1 _ E).
Qed.

Lemma count_chars_le_length (p : ascii -> bool) (s : string) :
  (count_chars p s <= String.length s)%nat.
Proof. induction s as [|c s IH]; cbn; [lia|]. destruct (p c); lia. Qed.

Lemma min_count_sound (p : ascii -> bool) (r : regex) (w : string) :
  matches r w -> (min_count p r <= count_chars p w)%nat.
Proof.
  intros M. induction M; cbn [min_count]; try lia.
  - destruct (forallb _ all_ascii) eqn:F; [|lia].
    pose proof (for_all_ascii _ F c) as I. cbn beta in I. rewrite H in I. cbn in I.
    cbn. rewrite I. lia.
  - rewrite count_chars_app. lia.
Qed.

Lemma max_count_sound (p : ascii -> bool) (r : regex) (w : string) :
  matches r w -> forall n, max_count p r = Some n -> (count_chars p w <= n)%nat.
Proof.
  intros M. induction M; intros n E; cbn [max_count] in E.
  - cbn. lia.
  - cbn. destruct (p c) eqn:P; [|lia].
    assert (X : existsb (fun c => p0 c && p c) all_ascii = true).
    { apply existsb_exists. exists c. split; [apply all_ascii_complete|].
      rewrite H, P. reflexivity. }
    rewrite X in E. injection E as <-. lia.
  - destruct (max_count p r) as [a|], (max_count p s) as [b|]; try discriminate.
    injection E as <-. rewrite count_chars_app.
    specialize (IHM1 _ eq_refl). specialize (IHM2 _ eq_refl). lia.
  - destruct (max_count p r) as [a|], (max_count p s) as [b|]; try discriminate.
    injection E as <-. specialize (IHM _ eq_refl). lia.
  - destruct (max_count p r) as [a|], (max_count p s) as [b|]; try discriminate.
    injection E as <-. specialize (IHM _ eq_refl). lia.
  - cbn. lia.
  - destruct (max_count p r) as [[|a]|] eqn:X; try discriminate.
    injection E as <-. rewrite count_chars_app.
    specialize (IHM1 _ eq_refl).
    assert (Y : max_count p (Star r) = Some 0%nat) by (cbn [max_count]; rewrite X; reflexivity).
    specialize (IHM2 _ Y). lia.
Qed.

(** ** The validators *)

Lemma matches_seq_inv (r s : regex) (w : string) :
  matches (Seq r s) w -> exists u v, w = (u ++ v)%string /\ matches r u /\ matches s v.
Proof. intros M. inversion M; subst. eauto. Qed.

Lemma matches_lit_inv (c : ascii) (w : string) : matches (Lit c) w -> w = String c "".
Proof.
  intros M. inversion M; subst.
  match goal with X : Ascii.eqb _ _ = true |- _ => apply Ascii.eqb_eq in X; subst end.
  reflexivity.
Qed.

Lemma nonempty_last (s : string) : s <> "" -> exists c, last_char s = Some c.
Proof.
  destruct s as [|c s]; [congruence|]. intros _. cbn.
  destruct (last_char s); eauto.
Qed.

Lemma validateEmail_shape (email : string) :
  validateEmail email = true ->
  exists l d,
    email = (l ++ "@" ++ d)%string /\
    l <> "" /\ all_chars local_class l = true /\
    all_chars domain_char d = true /\
    (exists c s, d = String c s /\ alnum c = true) /\
    (exists c, last_char d = Some c /\ alnum c = true) /\
    count_chars (Ascii.eqb "@") email = 1%nat /\
    count_chars isWhiteSpace email = 0%nat.
Proof.
  unfold validateEmail. intros T. apply test_matches in T.
  pose proof (min_count_sound (Ascii.eqb "@") T) as C1.
  pose proof (max_count_sound (Ascii.eqb "@") T (n := 1%nat) ltac:(vm_compute; reflexivity)) as C2.
  pose proof (max_count_sound isWhiteSpace T (n := 0%nat) ltac:(vm_compute; reflexivity)) as W.
  change (min_count (Ascii.eqb "@") emailRegex) with 1%nat in C1.
  unfold emailRegex in T.
  apply matches_seq_inv in T. destruct T as [l [w [-> [L T]]]].
  apply matches_seq_inv in T. destruct T as [a [d [-> [A D]]]].
  apply matches_lit_inv in A. subst a.
  fold domainRegex in D.
  exists l, d. split; [reflexivity|].
  split.
  { intros ->. pose proof (matches_nullable L eq_refl) as N. discriminate N. }
  split.
  { apply alphabet_sound in L.
    apply (all_chars_impl (alphabet (Plus (Class local_class)))); [|exact L].
    intros c. cbn. rewrite orb_diag. auto. }
  split.
  { apply alphabet_sound in D.
    apply (all_chars_impl (alphabet domainRegex)); [|exact D].
    intros c X.
    pose proof (for_all_ascii (fun c => implb (alphabet domainRegex c) (domain_char c))
                  ltac:(vm_compute; reflexivity) c) as I.
    cbn beta in I. rewrite X in I. exact I. }
  assert (ND : d <> "").
  { intros ->. pose proof (matches_nullable D eq_refl) as N. discriminate N. }
  split.
  { destruct d as [|c s]; [congruence|]. exists c, s. split; [reflexivity|].
    pose proof (firsts_sound D eq_refl) as F.
    pose proof (for_all_ascii (fun c => implb (firsts domainRegex c) (alnum c))
                  ltac:(vm_compute; reflexivity) c) as I.
    cbn beta in I. rewrite F in I. exact I. }
  split.
  { destruct (nonempty_last ND) as [c E]. exists c. split; [exact E|].
    pose proof (lasts_sound D E) as F.
    pose proof (for_all_ascii (fun c => implb (lasts domainRegex c) (alnum c))
                  ltac:(vm_compute; reflexivity) c) as I.
    cbn beta in I. rewrite F in I. exact I. }
  split; lia.
Qed.

(** X15. An address [validateEmail] accepts is a non-empty local part of
    letters, digits and the listed punctuation, one [@], and a domain of
    letters, digits, hyphens and dots that begins and ends with a letter or a
    digit; it holds exactly one [@] and no white space. *)
Theorem accepted_email (email : string) :
  validateEmail email = true ->
  exists l d,
    email = (l ++ "@" ++ d)%string /\
    l <> "" /\ all_chars local_class l = true /\
    all_chars domain_char d = true /\
    (exists c s, d = String c s /\ alnum c = true) /\
    (exists c, last_char d = Some c /\ alnum c = true) /\
    count_chars (Ascii.eqb "@") email = 1%nat /\
    count_chars isWhiteSpace email = 0%nat.
Proof. apply validateEmail_shape. Qed.

Lemma accepted_email_witness :
  exists l d,
    "jane.doe@example.com" = (l ++ "@" ++ d)%string /\
    l <> "" /\ all_chars local_class l = true /\
    all_chars domain_char d = true /\
    (exists c s, d = String c s /\ alnum c = true) /\
    (exists c, last_char d = Some c /\ alnum c = true) /\
    count_chars (Ascii.eqb "@") "jane.doe@example.com" = 1%nat /\
    count_chars isWhiteSpace "jane.doe@example.com" = 0%nat.
Proof. apply accepted_email. vm_compute. reflexivity. Defined.

Lemma star_class (p : ascii -> bool) (s : string) :
  all_chars p s = true -> matches (Star (Class p)) s.
Proof.
  induction s as [|c s IH]; cbn; intros A; [constructor|].
  apply andb_true_iff in A. destruct A as [A B].
  apply (m_star_cons (u := String c "") (m_class p c A) (IH B)).
Qed.

Lemma upto_class (p : ascii -> bool) (n : nat) :
  forall s, all_chars p s = true -> (String.length s <= n)%nat ->
  matches (Upto n (Class p)) s.
Proof.
  induction n as [|n IH]; intros [|c s] A L; cbn in L; try lia; cbn [Upto].
  - constructor.
  - apply m_alt_r. constructor.
  - cbn in A. apply andb_true_iff in A. destruct A as [A B].
    apply m_alt_l.
    apply (m_seq (u := String c "") (m_class p c A)). apply IH; [exact B | lia].
Qed.

Lemma split_last (s : string) :
  s <> "" ->
  exists mid c, s = (mid ++ String c "")%string /\ String.length s = S (String.length mid).
Proof.
  induction s as [|a s IH]; [congruence|]. intros _.
  destruct s as [|b s'].
  - exists "", a. split; reflexivity.
  - destruct IH as [mid [c [E L]]]; [discriminate|].
    exists (String a mid), c. rewrite E at 1. split; [reflexivity|].
    cbn [String.length] in *. lia.
Qed.

Lemma label_alnum (d : string) :
  d <> "" -> all_chars alnum d = true -> (String.length d <= 63)%nat -> matches label d.
Proof.
  intros N A L. destruct d as [|c d']; [congruence|].
  cbn in A. apply andb_true_iff in A. destruct A as [A B]. cbn in L.
  unfold label. apply (m_seq (u := String c "") (m_class alnum c A)).
  destruct d' as [|b d''] eqn:E; [apply m_alt_r; constructor|].
  rewrite <- E in *. assert (N' : d' <> "") by (rewrite E; discriminate).
  destruct (split_last N') as [mid [z [S Len]]].
  apply m_alt_l. rewrite S. rewrite S, all_chars_app in B.
  apply andb_true_iff in B. destruct B as [B1 B2]. cbn in B2. rewrite andb_true_r in B2.
  apply m_seq.
  - apply upto_class; [|lia].
    apply (all_chars_impl alnum); [|exact B1]. intros x X. unfold alnum_hyphen.
    rewrite X. reflexivity.
  - constructor. exact B2.
Qed.

(** X16. [validateEmail] asks for no dot in the domain: a non-empty local
    part of allowed characters, an [@] and up to 63 letters or digits are
    accepted, as in [a@b]. *)
Theorem email_without_dot (l d : string) :
  l <> "" -> all_chars local_class l = true ->
  d <> "" -> all_chars alnum d = true -> (String.length d <= 63)%nat ->
  validateEmail (l ++ "@" ++ d) = true.
Proof.
  intros NL AL ND AD LD. unfold validateEmail. apply test_matches.
  unfold emailRegex. apply m_seq.
  - destruct l as [|c l']; [congruence|].
    cbn in AL. apply andb_true_iff in AL. destruct AL as [A B].
    apply (m_seq (u := String c "") (m_class local_class c A)). apply star_class. exact B.
  - apply (m_seq (u := "@")); [constructor; reflexivity|].
    rewrite <- (append_empty d). apply m_seq; [|constructor].
    apply label_alnum; assumption.
Qed.

Lemma email_without_dot_witness : validateEmail "a@b" = true.
Proof.
  apply (@email_without_dot "a" "b"); (discriminate || reflexivity || (cbn; lia)).
Defined.

(** X17. A phone number [validatePhoneNumber] accepts is empty, or holds
    exactly ten digits, or begins with [+1] and holds eleven. *)
Theorem accepted_phone (phone : string) :
  validatePhoneNumber phone = true ->
  phone = "" \/
  count_chars digit phone = 10%nat \/
  (String.prefix "+1" phone = true /\ count_chars digit phone = 11%nat).
Proof.
  unfold validatePhoneNumber.
  destruct (String.eqb_spec phone "") as [->|_]; [left; reflexivity|].
  intros T. right. apply test_matches in T.
  change phoneRegex
    with (Seq (Opt (Seq (Lit "+") (Seq (Lit "1") (Opt (Class separator))))) nationalRegex) in T.
  apply matches_seq_inv in T. destruct T as [u [v [-> [U V]]]].
  pose proof (min_count_sound digit V) as V1.
  pose proof (max_count_sound digit V (n := 10%nat) ltac:(vm_compute; reflexivity)) as V2.
  change (min_count digit nationalRegex) with 10%nat in V1.
  rewrite count_chars_app.
  inversion U; subst.
  - right.
    match goal with X : matches (Seq (Lit "+") _) _ |- _ => rename X into P end.
    pose proof (min_count_sound digit P) as P1.
    pose proof (max_count_sound digit P (n := 1%nat) ltac:(vm_compute; reflexivity)) as P2.
    change (min_count digit (Seq (Lit "+") (Seq (Lit "1") (Opt (Class separator)))))
      with 1%nat in P1.
    split; [|lia].
    apply matches_seq_inv in P. destruct P as [a [w [-> [A P]]]].
    apply matches_seq_inv in P. destruct P as [b [t [-> [B _]]]].
    apply matches_lit_inv in A. apply matches_lit_inv in B. subst a b.
    apply prefix_correct. cbn. destruct (t ++ v)%string; reflexivity.
  - left.
    match goal with X : matches Eps _ |- _ => inversion X; subst end.
    cbn. lia.
Qed.

Lemma accepted_phone_witness :
  "+1 (555) 123-4567"%string = "" \/
  count_chars digit "+1 (555) 123-4567" = 10%nat \/
  (String.prefix "+1" "+1 (555) 123-4567" = true /\
   count_chars digit "+1 (555) 123-4567" = 11%nat).
Proof. apply accepted_phone. vm_compute. reflexivity. Defined.

(** ** The form and its submission *)

Lemma length_zero_empty (s : string) : String.length s = 0%nat <-> s = "".
Proof. destruct s; cbn; split; congruence. Qed.

Lemma concat_empty (A : Type) (l : list A) (ls : list (list A)) :
  (List.length (List.concat (l :: ls)) =? 0)%nat = true ->
  l = [] /\ (List.length (List.concat ls) =? 0)%nat = true.
Proof.
  cbn [List.concat]. rewrite length_app. intros E. apply Nat.eqb_eq in E.
  split; [destruct l; [reflexivity | cbn in E; lia] | apply Nat.eqb_eq; lia].
Qed.

Lemma trimEnd_nonempty (s : string) : trimEnd s <> "" -> s <> "".
Proof. intros N E. subst s. apply N. reflexivity. Qed.

Lemma trim_nonempty (s : string) : trim s <> "" -> s <> "".
Proof.
  unfold trim. intros N E. subst s. apply N. reflexivity.
Qed.

Section Submission.

Context {num : Type} `{JSNumber num}.

(** What an accepted form holds. *)
Lemma accepted_fields (form : Form) :
  snd (validateForm form) = true ->
  (2 <= String.length (trim (clientName form)) <= 100)%nat /\
  trim (email form) <> "" /\ validateEmail (email form) = true /\
  trim (address form) <> "" /\
  (trim (phone form) = "" \/ validatePhoneNumber (phone form) = true) /\
  projectType (project form) <> "" /\
  trim (squareFootage (project form)) <> "" /\
  lt (parseInt (squareFootage (project form))) (of_Z 100) = false /\
  paintTier (project form) <> "".
Proof.
  unfold validateForm. cbn [snd]. intros A.
  apply concat_empty in A. destruct A as [A1 A].
  apply concat_empty in A. destruct A as [A2 A].
  apply concat_empty in A. destruct A as [A3 A].
  apply concat_empty in A. destruct A as [A4 A].
  apply concat_empty in A. destruct A as [A5 A].
  apply concat_empty in A. destruct A as [A6 A].
  apply concat_empty in A. destruct A as [A7 _].
  repeat split.
  - destruct (String.eqb_spec (trim (clientName form)) ""); [discriminate A1|].
    destruct (Nat.ltb_spec (String.length (trim (clientName form))) 2);
      [discriminate A1 | assumption].
  - destruct (String.eqb_spec (trim (clientName form)) ""); [discriminate A1|].
    destruct (String.length (trim (clientName form)) <? 2)%nat; [discriminate A1|].
    destruct (Nat.ltb_spec 100 (String.length (trim (clientName form))));
      [discriminate A1 | assumption].
  - destruct (String.eqb_spec (trim (email form)) ""); [discriminate A2 | assumption].
  - destruct (trim (email form) === ""); [discriminate A2|].
    destruct (validateEmail (email form)); [reflexivity | discriminate A2].
  - destruct (String.eqb_spec (trim (address form)) ""); [discriminate A3 | assumption].
  - destruct (trim (phone form)) as [|c s]; [left; reflexivity|]. right.
    cbn [String.length Nat.ltb Nat.leb andb] in A4.
    destruct (validatePhoneNumber (phone form)); [reflexivity | discriminate A4].
  - destruct (String.eqb_spec (projectType (project form)) "");
      [discriminate A5 | assumption].
  - destruct (String.eqb_spec (trim (squareFootage (project form))) "");
      [discriminate A6 | assumption].
  - destruct (trim (squareFootage (project form)) === ""); [discriminate A6|].
    destruct (lt (parseInt (squareFootage (project form))) (of_Z 100));
      [discriminate A6 | reflexivity].
  - destruct (String.eqb_spec (paintTier (project form)) "");
      [discriminate A7 | assumption].
Qed.

Lemma accepted_no_errors (form : Form) :
  snd (validateForm form) = true -> fst (validateForm form) = [].
Proof.
  unfold validateForm. cbn [fst snd]. intros A. apply Nat.eqb_eq in A.
  destruct (List.concat _); [reflexivity | discriminate A].
Qed.

(** X18. A form [validateForm] accepts has complete contact information in
    the sense of the effect that enables the submit button and shows the
    estimation fields. *)
Theorem accepted_form_is_complete (form : Form) :
  snd (validateForm form) = true -> clientComplete form = true.
Proof.
  intros A. destruct (accepted_fields form A) as [[N _] [_ [E [Ad _]]]].
  unfold clientComplete. rewrite E.
  apply andb_true_iff. split; [apply andb_true_iff; split; [|reflexivity]|].
  - apply Nat.leb_le. exact N.
  - apply Nat.ltb_lt. destruct (trim (address form)); [congruence | cbn; lia].
Qed.

Lemma handleSubmit_accepted (f : source_file) (form : Form)
    (estimate : option (Estimate num)) :
  snd (validateForm form) = true ->
  handleSubmit f form estimate = ([], Some (result f (project form)), true).
Proof.
  intros A. unfold handleSubmit.
  destruct (validateForm form) as [errors ok] eqn:V. cbn [fst snd] in *. subst ok.
  cbn [negb].
  pose proof (accepted_no_errors form) as E. rewrite V in E. cbn [fst snd] in E.
  rewrite (E eq_refl).
  pose proof (accepted_fields form) as F. rewrite V in F. cbn [snd] in F.
  destruct (F eq_refl) as [_ [_ [_ [_ [_ [P [S [_ T]]]]]]]].
  unfold calculateEstimate.
  destruct (String.eqb_spec (projectType (project form)) ""); [congruence|].
  destruct (String.eqb_spec (squareFootage (project form)) "") as [Q|_].
  { rewrite Q in S. exfalso. apply S. reflexivity. }
  destruct (String.eqb_spec (paintTier (project form)) ""); [congruence|].
  reflexivity.
Qed.

(** X19. [handleSubmit] on an accepted form clears the errors, stores the
    estimate of the form in place of the one held, and sends the request; on
    a rejected form it keeps the estimate that was held and sends nothing. *)
Theorem submit_stores_estimate (f : source_file) (form : Form)
    (estimate : option (Estimate num)) :
  (snd (validateForm form) = true ->
   handleSubmit f form estimate = ([], Some (result f (project form)), true)) /\
  (snd (validateForm form) = false ->
   handleSubmit f form estimate = (fst (validateForm form), estimate, false)).
Proof.
  split; [apply handleSubmit_accepted|].
  intros A. unfold handleSubmit.
  destruct (validateForm form) as [errors ok]. cbn [fst snd] in *. subst ok.
  reflexivity.
Qed.

End Submission.

Lemma jane_accepted : snd (validateForm (num:=exact) jane) = true.
Proof. vm_compute. reflexivity. Qed.

Lemma accepted_form_is_complete_witness : clientComplete jane = true.
Proof. apply (@accepted_form_is_complete exact _ jane). exact jane_accepted. Defined.

Lemma submit_stores_estimate_witness :
  handleSubmit App_js jane (Some earlier_estimate)
  = ([], Some (result App_js (project jane)), true).
Proof.
  apply (proj1 (@submit_stores_estimate exact _ App_js jane (Some earlier_estimate))).
  exact jane_accepted.
Defined.

(** X21. [validateForm] does not object to a square footage that [parseInt]
    cannot read: when the field is not blank and reads as NaN, no error is
    set for it, and if the rest of the form is accepted the stored estimate
    has NaN for both bounds. *)
Theorem unreadable_square_footage (f : source_file) (form : Form)
    (estimate : option (Estimate exact)) :
  trim (squareFootage (project form)) <> "" ->
  parseInt (squareFootage (project form)) = NotANumber ->
  ~ In "squareFootage" (keys (fst (validateForm (num:=exact) form))) /\
  (snd (validateForm (num:=exact) form) = true ->
   handleSubmit f form estimate
   = ([], Some {| min := NotANumber; max := NotANumber;
                  tierName := get tierNames (paintTier (project form)) |}, true)).
Proof.
  intros T P. split.
  - unfold validateForm, keys. cbn [fst]. rewrite P.
    destruct (String.eqb_spec (trim (squareFootage (project form))) ""); [congruence|].
    change (lt (NotANumber : exact) (of_Z 100)) with false.
    rewrite concat_map. intros I. apply in_concat in I.
    destruct I as [l [Il Ik]]. cbn [map] in Il.
    repeat (destruct Il as [<-|Il];
            [repeat match goal with
                    | H : In _ (map fst (if ?b then _ else _)) |- _ => destruct b
                    end; cbn in Ik; intuition discriminate|]).
    contradiction.
  - intros A. rewrite (handleSubmit_accepted f form estimate A).
    unfold result, raw. rewrite P. reflexivity.
Qed.

Lemma unreadable_square_footage_witness :
  handleSubmit App_js jane_abc (@None (Estimate exact))
  = ([], Some {| min := NotANumber; max := NotANumber;
                 tierName := VString "Premium Paint" |}, true).
Proof.
  apply (proj2 (@unreadable_square_footage App_js jane_abc None
                  ltac:(discriminate) eq_refl)).
  vm_compute. reflexivity.
Defined.

Lemma in_keys_concat (k : string) (ls : list Errors) :
  In k (keys (List.concat ls)) <-> exists l, In l ls /\ In k (keys l).
Proof.
  unfold keys. rewrite concat_map, in_concat. split.
  - intros [x [Ix Ik]]. apply in_map_iff in Ix. destruct Ix as [l [<- Il]]. eauto.
  - intros [l [Il Ik]]. exists (map fst l). split; [apply in_map; exact Il | exact Ik].
Qed.

Lemma set_error_keeps (errors : Errors) (k v k' : string) :
  In k' (keys errors) -> In k' (keys (set_error errors k v)).
Proof.
  induction errors as [|[a b] rest IH]; cbn; [tauto|].
  intros [<-|I].
  - destruct (String.eqb_spec k a) as [->|_]; cbn; auto.
  - destruct (k === a); cbn; auto.
Qed.

(** X22. The check made while typing is part of the check made on submit:
    every field for which [validateClientInfo] finds an error gets an error
    from [validateForm] too; and [validateClientInfo] never removes a key
    from [errors]. *)
Theorem typing_check_within_submit_check (form : Form) (errors : Errors) (k : string) :
  (In k (keys (clientInfoErrors form)) -> In k (keys (fst (validateForm (num:=exact) form)))) /\
  (In k (keys errors) -> In k (keys (validateClientInfo form errors))).
Proof.
  split.
  - unfold clientInfoErrors, validateForm. cbn [fst].
    rewrite !in_keys_concat. intros [l [Il Ik]]. cbn [In] in Il.
    destruct Il as [<-|[<-|[<-|[]]]].
    + eexists. split; [left; reflexivity|].
      destruct (String.eqb_spec (trim (clientName form)) "") as [E|N].
      * rewrite E in Ik. cbn in Ik. contradiction.
      * destruct (String.length (trim (clientName form))) as [|[|m]] eqn:L.
        -- apply length_zero_empty in L. congruence.
        -- cbn. auto.
        -- cbn [Nat.ltb Nat.leb andb] in *.
           destruct (Nat.leb 101 (S (S m))); cbn in *; auto.
    + eexists. split; [right; left; reflexivity|].
      destruct (String.eqb_spec (trim (email form)) "") as [E|N].
      * rewrite E in Ik. cbn in Ik. contradiction.
      * destruct (String.length (trim (email form))) eqn:L;
          [apply length_zero_empty in L; congruence|].
        cbn [Nat.ltb Nat.leb andb] in Ik.
        destruct (validateEmail (email form)); cbn in *; auto.
    + eexists. split; [right; right; right; left; reflexivity|].
      destruct ((0 <? String.length (trim (phone form)))%nat
                && negb (validatePhoneNumber (phone form))); cbn in *; auto.
  - unfold validateClientInfo, spread. revert errors.
    induction (clientInfoErrors form) as [|[a b] rest IH]; intros errors I; cbn [fold_left].
    + exact I.
    + apply IH. apply set_error_keeps. exact I.
Qed.

Lemma typing_check_within_submit_check_witness :
  In "email" (keys (fst (validateForm (num:=exact) jane_typing))) /\
  In "address" (keys (validateClientInfo jane_typing [ ("address", "Address is required") ])).
Proof.
  split.
  - apply (proj1 (typing_check_within_submit_check jane_typing [] "email")).
    vm_compute. auto.
  - apply (proj2 (typing_check_within_submit_check jane_typing
                    [ ("address", "Address is required") ] "address")).
    left. reflexivity.
Defined.

Lemma trimEnd_empty (s : string) : trimEnd s = "" -> all_chars isWhiteSpace s = true.
Proof.
  induction s as [|c r IH]; [reflexivity|]. cbn [trimEnd all_chars].
  destruct (trimEnd r); [|discriminate].
  destruct (isWhiteSpace c); [|discriminate]. intros _. apply IH. reflexivity.
Qed.

Lemma trim_empty_white (s : string) : trim s = "" -> all_chars isWhiteSpace s = true.
Proof.
  unfold trim. induction s as [|c r IH]; [reflexivity|]. cbn [trimStart all_chars].
  destruct (isWhiteSpace c) eqn:W; [exact IH|].
  intros T. apply trimEnd_empty in T. cbn [all_chars] in T. rewrite W in T. discriminate T.
Qed.

Lemma all_white_count (p : ascii -> bool) (s : string) :
  all_chars p s = true -> count_chars p s = String.length s.
Proof.
  induction s as [|c r IH]; [reflexivity|]. cbn. intros A.
  apply andb_true_iff in A. destruct A as [A B]. rewrite A, (IH B). reflexivity.
Qed.

(** X23. When the contact information is complete in the sense of the effect
    that enables the submit button, [validateForm] sets no error for the
    email nor for the address, and one for the name only if the name is
    longer than 100 characters. *)
Theorem complete_contact_errors (form : Form) :
  clientComplete form = true ->
  ~ In "email" (keys (fst (validateForm (num:=exact) form))) /\
  ~ In "address" (keys (fst (validateForm (num:=exact) form))) /\
  (In "clientName" (keys (fst (validateForm (num:=exact) form))) ->
   (100 < String.length (trim (clientName form)))%nat).
Proof.
  unfold clientComplete. intros C.
  apply andb_true_iff in C. destruct C as [C A].
  apply andb_true_iff in C. destruct C as [N E].
  apply Nat.leb_le in N. apply Nat.ltb_lt in A.
  assert (N0 : (trim (clientName form) === "") = false).
  { destruct (trim (clientName form)); [cbn in N; lia | reflexivity]. }
  assert (N2 : (String.length (trim (clientName form)) <? 2)%nat = false)
    by (apply Nat.ltb_ge; exact N).
  assert (A0 : (trim (address form) === "") = false).
  { destruct (trim (address form)); [cbn in A; lia | reflexivity]. }
  assert (E0 : (trim (email form) === "") = false).
  { destruct (String.eqb_spec (trim (email form)) "") as [T|_]; [|reflexivity].
    apply trim_empty_white in T. apply all_white_count in T.
    destruct (validateEmail_shape (email form) E) as [l [d [X [NL [_ [_ [_ [_ [_ W]]]]]]]]].
    rewrite W in T. symmetry in T. apply length_zero_empty in T.
    rewrite T in X. destruct l; [congruence | discriminate X]. }
  unfold validateForm, keys. cbn [fst]. rewrite N0, N2, A0, E0, E. cbn [negb].
  rewrite concat_map. cbn [map List.concat].
  repeat split; intros I; apply in_app_or in I.
  - destruct I as [I|I];
      [destruct (100 <? String.length (trim (clientName form)))%nat; cbn in I;
       intuition discriminate|].
    cbn [app] in I.
    repeat match goal with
           | H : In _ (_ ++ _) |- _ => apply in_app_or in H; destruct H as [H|H]
           | H : In _ (map fst (if ?b then _ else _)) |- _ => destruct b
           end; cbn in *; intuition discriminate.
  - destruct I as [I|I];
      [destruct (100 <? String.length (trim (clientName form)))%nat; cbn in I;
       intuition discriminate|].
    cbn [app] in I.
    repeat match goal with
           | H : In _ (_ ++ _) |- _ => apply in_app_or in H; destruct H as [H|H]
           | H : In _ (map fst (if ?b then _ else _)) |- _ => destruct b
           end; cbn in *; intuition discriminate.
  - destruct I as [I|I].
    + destruct (Nat.ltb_spec 100 (String.length (trim (clientName form))));
        [assumption | cbn in I; contradiction].
    + cbn [app] in I.
      repeat match goal with
             | H : In _ (_ ++ _) |- _ => apply in_app_or in H; destruct H as [H|H]
             | H : In _ (map fst (if ?b then _ else _)) |- _ => destruct b
             end; cbn in *; intuition discriminate.
Qed.

Lemma complete_contact_errors_witness :
  ~ In "email" (keys (fst (validateForm (num:=exact) jane))) /\
  ~ In "address" (keys (fst (validateForm (num:=exact) jane))).
Proof.
  destruct (complete_contact_errors jane ltac:(vm_compute; reflexivity)) as [E [A _]].
  split; assumption.
Defined.

(** ** A combined project blends *)

Lemma check_blend_true :
  forallb (fun ne => forallb (blend_at ne) (all_bits 8)) [ true; false ] = true.
Proof. vm_compute. reflexivity. Qed.

(** ** Typing in a field *)

Lemma not_primary_exterior (l : list string) (s : string) :
  Forall (fun x => In x primary_exterior) l ->
  includes primary_exterior s = false -> includes l s = false.
Proof.
  intros F N. destruct (includes l s) eqn:I; [|reflexivity].
  apply includes_In in I. rewrite Forall_forall in F.
  apply F in I. apply includes_In in I. congruence.
Qed.

Lemma keys_set_error (errors : Errors) (k v : string) :
  error_of errors k <> None -> keys (set_error errors k v) = keys errors.
Proof.
  induction errors as [|[k' v'] rest IH]; cbn [error_of set_error keys map fst].
  - congruence.
  - destruct (String.eqb_spec k k') as [->|N]; intros E; cbn [keys map fst].
    + reflexivity.
    + f_equal. apply IH. exact E.
Qed.

Lemma error_of_set_error (errors : Errors) (k v k0 : string) :
  error_of (set_error errors k v) k0 = if k0 === k then Some v else error_of errors k0.
Proof.
  induction errors as [|[k' v'] rest IH]; cbn [error_of set_error].
  - destruct (k0 === k); reflexivity.
  - destruct (String.eqb_spec k k') as [->|N]; cbn [error_of].
    + destruct (k0 === k'); reflexivity.
    + rewrite IH. destruct (String.eqb_spec k0 k') as [->|N'].
      * destruct (String.eqb_spec k' k) as [E|_]; [congruence | reflexivity].
      * reflexivity.
Qed.

(** X26. Typing in a field blanks the message of that field and removes
    nothing: [errors] keeps its keys in their order, so the list of form
    errors keeps an item for the field; the messages of the other fields are
    untouched. *)
Theorem typing_blanks_the_message (form : Form) (errors : Errors) (i : input)
    (value : string) :
  keys (snd (handleInputChange form errors i value)) = keys errors /\
  error_of (snd (handleInputChange form errors i value)) (input_name i)
  = option_map (fun _ => "") (error_of errors (input_name i)) /\
  (forall k, k <> input_name i ->
             error_of (snd (handleInputChange form errors i value)) k = error_of errors k).
Proof.
  unfold handleInputChange. cbn [snd].
  destruct (error_of errors (input_name i)) as [m|] eqn:E; cbn [option_map].
  - destruct (String.eqb_spec m "") as [->|M].
    + split; [reflexivity|]. split; [exact E | reflexivity].
    + split; [apply keys_set_error; congruence|].
      split.
      * rewrite error_of_set_error, String.eqb_refl. reflexivity.
      * intros k N. rewrite error_of_set_error.
        destruct (String.eqb_spec k (input_name i)); [congruence | reflexivity].
  - split; [reflexivity|]. split; [exact E | reflexivity].
Qed.

(** * Rounding in binary64 *)

Unset Implicit Arguments.

Lemma scale_ge : 2148 <= scale.
Proof. unfold scale. lia. Qed.

Global Opaque scale.

Lemma pow2_pos (a : Z) : 0 <= a -> 0 < 2 ^ a.
Proof. intros. apply Z.pow_pos_nonneg; lia. Qed.

Lemma pow2_split (a b : Z) : 0 <= a <= b -> 2 ^ b = 2 ^ (b - a) * 2 ^ a.
Proof. intros. rewrite <- Z.pow_add_r by lia. f_equal. lia. Qed.

Lemma pow2_le (a b : Z) : 0 <= a <= b -> 2 ^ a <= 2 ^ b.
Proof. intros. apply Z.pow_le_mono_r; lia. Qed.

Lemma pow2_lt (a b : Z) : 0 <= a < b -> 2 ^ a < 2 ^ b.
Proof. intros. apply Z.pow_lt_mono_r; lia. Qed.

Lemma pow2_succ (a : Z) : 0 <= a -> 2 ^ (a + 1) = 2 * 2 ^ a.
Proof. intros. rewrite Z.pow_add_r by lia. change (2 ^ 1) with 2. lia. Qed.

Lemma pow2_pred (a : Z) : 0 < a -> 2 ^ a = 2 * 2 ^ (a - 1).
Proof. intros. rewrite <- pow2_succ by lia. replace (a - 1 + 1) with a by lia. reflexivity. Qed.

Section NearestEven.

Variables (n : Z) (P : Z).
Hypothesis n_nonneg : 0 <= n.
Hypothesis P_def : P = 2 ^ n.

Lemma P_pos : 0 < P.
Proof. subst P. apply pow2_pos. exact n_nonneg. Qed.

Lemma nearest_even_bounds (M : Z) :
  M / P <= nearest_even M n <= M / P + 1.
Proof.
  unfold nearest_even. rewrite <- P_def.
  destruct (2 * (M mod P) ?= P); [destruct (Z.even (M / P))| |]; lia.
Qed.

Lemma nearest_even_error (M : Z) :
  2 * (nearest_even M n * P) <= 2 * M + P /\ 2 * M <= 2 * (nearest_even M n * P) + P.
Proof.
  pose proof P_pos as PP.
  unfold nearest_even. rewrite <- P_def.
  pose proof (Z.div_mod M P ltac:(lia)) as D.
  pose proof (Z.mod_pos_bound M P PP) as B.
  destruct (2 * (M mod P) ?= P) eqn:C.
  - apply Z.compare_eq in C. destruct (Z.even (M / P)); nia.
  - rewrite Z.compare_lt_iff in C. nia.
  - rewrite Z.compare_gt_iff in C. nia.
Qed.

Lemma nearest_even_above (M t : Z) : t * P <= M -> t <= nearest_even M n.
Proof.
  intros L. pose proof P_pos as PP.
  assert (t <= M / P) by (apply Z.div_le_lower_bound; lia).
  pose proof (nearest_even_bounds M). lia.
Qed.

Lemma nearest_even_exact (t : Z) : nearest_even (t * P) n = t.
Proof.
  pose proof P_pos as PP.
  unfold nearest_even. rewrite <- P_def.
  rewrite Z.mod_mul by lia. rewrite Z.div_mul by lia.
  change (2 * 0) with 0.
  destruct (0 ?= P) eqn:C; try reflexivity.
  - apply Z.compare_eq in C. lia.
  - rewrite Z.compare_gt_iff in C. lia.
Qed.

Lemma nearest_even_below (M t : Z) : M <= t * P -> nearest_even M n <= t.
Proof.
  intros L. pose proof P_pos as PP.
  destruct (Z.eq_dec M (t * P)) as [->|N].
  - rewrite nearest_even_exact. lia.
  - assert (M / P < t) by (apply Z.div_lt_upper_bound; lia).
    pose proof (nearest_even_bounds M). lia.
Qed.

Lemma nearest_even_mono (M1 M2 : Z) :
  M1 <= M2 -> nearest_even M1 n <= nearest_even M2 n.
Proof.
  intros L. pose proof P_pos as PP.
  assert (Q : M1 / P <= M2 / P) by (apply Z.div_le_mono; lia).
  pose proof (nearest_even_bounds M1) as B1.
  pose proof (nearest_even_bounds M2) as B2.
  destruct (Z.eq_dec (M1 / P) (M2 / P)) as [E|N]; [|lia].
  pose proof (Z.div_mod M1 P ltac:(lia)) as D1.
  pose proof (Z.div_mod M2 P ltac:(lia)) as D2.
  assert (R : M1 mod P <= M2 mod P) by nia.
  unfold nearest_even. rewrite <- P_def, E.
  destruct (2 * (M1 mod P) ?= P) eqn:C1; destruct (2 * (M2 mod P) ?= P) eqn:C2;
    try apply Z.compare_eq in C1; try apply Z.compare_eq in C2;
    try rewrite Z.compare_lt_iff in C1; try rewrite Z.compare_lt_iff in C2;
    try rewrite Z.compare_gt_iff in C1; try rewrite Z.compare_gt_iff in C2;
    destruct (Z.even (M2 / P)); lia.
Qed.

End NearestEven.

Lemma nearest_even_scale (M n j : Z) :
  0 <= n -> 0 <= j -> nearest_even (M * 2 ^ j) (n + j) = nearest_even M n.
Proof.
  intros N J. unfold nearest_even.
  pose proof (pow2_pos n N) as Pn. pose proof (pow2_pos j J) as Pj.
  rewrite Z.pow_add_r by lia.
  rewrite Z.div_mul_cancel_r by lia.
  rewrite Z.mul_mod_distr_r by lia.
  replace (2 * (M mod 2 ^ n * 2 ^ j)) with (2 * (M mod 2 ^ n) * 2 ^ j) by ring.
  assert (C : (2 * (M mod 2 ^ n) * 2 ^ j ?= 2 ^ n * 2 ^ j) = (2 * (M mod 2 ^ n) ?= 2 ^ n)).
  { destruct (Z.compare_spec (2 * (M mod 2 ^ n)) (2 ^ n)) as [E|L|L].
    - rewrite E. apply Z.compare_refl.
    - apply Z.compare_lt_iff. nia.
    - apply Z.compare_gt_iff. nia. }
  rewrite C. reflexivity.
Qed.

(** ** The grid *)

Lemma grid_ge (X : Z) : scale - 1074 <= grid X.
Proof. unfold grid. lia. Qed.

Lemma grid_nonneg (X : Z) : 0 <= grid X.
Proof. pose proof (grid_ge X). pose proof scale_ge. lia. Qed.

Lemma grid_mono (X Y : Z) : X <= Y -> grid X <= grid Y.
Proof. intros L. unfold grid. pose proof (Z.log2_le_mono X Y L). lia. Qed.

Lemma grid_upper (X : Z) : X < 2 ^ (grid X + 53).
Proof.
  destruct (Z.le_gt_cases X 0) as [L|L].
  - pose proof (pow2_pos (grid X + 53)). pose proof (grid_nonneg X). lia.
  - pose proof (Z.log2_spec X L) as [_ S].
    pose proof (Z.log2_nonneg X).
    assert (2 ^ Z.succ (Z.log2 X) <= 2 ^ (grid X + 53)).
    { apply pow2_le. unfold grid. lia. }
    lia.
Qed.

Lemma grid_normal (X : Z) :
  scale - 1074 < grid X -> grid X = Z.log2 X - 52 /\ 2 ^ (grid X + 52) <= X.
Proof.
  intros G. assert (E : grid X = Z.log2 X - 52) by (unfold grid in *; lia).
  split; [exact E|].
  assert (0 < X).
  { destruct (Z.le_gt_cases X 0) as [L|L]; [|exact L].
    rewrite (Z.log2_nonpos X L) in E. pose proof scale_ge. lia. }
  rewrite E. replace (Z.log2 X - 52 + 52) with (Z.log2 X) by lia.
  apply Z.log2_spec. assumption.
Qed.

Lemma grid_of_pow (X a : Z) :
  0 < X -> scale - 1074 <= a -> 2 ^ (a + 52) <= X < 2 ^ (a + 53) -> grid X = a.
Proof.
  intros P A [L U]. pose proof scale_ge.
  assert (Z.log2 X = a + 52).
  { apply Z.log2_unique; [lia|]. replace (Z.succ (a + 52)) with (a + 53) by lia. lia. }
  unfold grid. lia.
Qed.

Lemma grid_small (X : Z) : X < 2 ^ (scale - 1074 + 53) -> grid X = scale - 1074.
Proof.
  intros U. pose proof scale_ge. unfold grid.
  destruct (Z.le_gt_cases X 0) as [L|L].
  - rewrite (Z.log2_nonpos X L). lia.
  - assert (Z.log2 X < scale - 1074 + 53) by (apply Z.log2_lt_pow2; lia). lia.
Qed.

(** ** Representable numbers *)

Lemma representable_multiple (V a : Z) :
  0 <= V -> grid V <= a -> V mod 2 ^ a = 0 -> representable V.
Proof.
  intros P G D. split; [exact P|].
  pose proof (grid_nonneg V) as G0.
  apply Z.mod_divide in D; [|pose proof (pow2_pos a); lia].
  destruct D as [t E]. revert G G0. generalize (grid V). intros g G G0. subst V.
  rewrite (pow2_split g a) by lia.
  rewrite Z.mul_assoc. apply Z.mod_mul. pose proof (pow2_pos g). lia.
Qed.

Lemma representable_intro (r g : Z) :
  0 <= r <= 2 ^ 53 -> scale - 1074 <= g -> representable (r * 2 ^ g).
Proof.
  intros R G. pose proof scale_ge as SG.
  pose proof (pow2_pos g ltac:(lia)) as Pg.
  destruct (Z.eq_dec r 0) as [->|N0].
  { split; [lia|]. apply Z.mod_0_l. pose proof (pow2_pos (grid (0 * 2 ^ g)) (grid_nonneg _)). lia. }
  destruct (Z.eq_dec r (2 ^ 53)) as [->|N1].
  - rewrite <- Z.pow_add_r by lia.
    apply (representable_multiple _ (g + 1)).
    + pose proof (pow2_pos (53 + g)). lia.
    + unfold grid. rewrite Z.log2_pow2 by lia. lia.
    + rewrite (pow2_split (g + 1) (53 + g)) by lia. apply Z.mod_mul.
      pose proof (pow2_pos (g + 1)). lia.
  - apply (representable_multiple _ g).
    + nia.
    + unfold grid. rewrite Z.log2_mul_pow2 by lia.
      assert (Z.log2 r < 53) by (apply Z.log2_lt_pow2; lia). lia.
    + apply Z.mod_mul. lia.
Qed.

Lemma representable_0 : representable 0.
Proof. apply (representable_intro 0 (scale - 1074)); [|lia]. pose proof (pow2_pos 53). lia. Qed.

Lemma representable_fixed (n : Z) : 0 <= n <= 2 ^ 53 -> representable (fixed n).
Proof. intros N. apply representable_intro; [exact N|]. pose proof scale_ge. lia. Qed.

Lemma representable_pow (a : Z) : scale - 1074 <= a -> representable (2 ^ a).
Proof.
  intros A. replace (2 ^ a) with (1 * 2 ^ a) by lia.
  apply representable_intro; [|exact A]. pose proof (pow2_pos 53). lia.
Qed.

(** ** Rounding *)

Lemma rnd_nonneg (X : Z) : 0 <= X -> 0 <= rnd X.
Proof.
  intros P. unfold rnd. pose proof (pow2_pos (grid X) (grid_nonneg X)) as G.
  pose proof (nearest_even_above (grid X) (2 ^ grid X) (grid_nonneg X) eq_refl X 0 ltac:(lia)).
  nia.
Qed.

Lemma rnd_id (X : Z) : representable X -> rnd X = X.
Proof.
  intros [P D]. unfold rnd.
  apply Z.mod_divide in D; [|pose proof (pow2_pos (grid X) (grid_nonneg X)); lia].
  destruct D as [t E]. rewrite E at 1.
  rewrite (nearest_even_exact (grid X) (2 ^ grid X) (grid_nonneg X) eq_refl). lia.
Qed.

Lemma rnd_representable (X : Z) : 0 <= X -> representable (rnd X).
Proof.
  intros P. unfold rnd. apply representable_intro; [|apply grid_ge].
  split.
  - apply (nearest_even_above (grid X) (2 ^ grid X) (grid_nonneg X) eq_refl). lia.
  - apply (nearest_even_below (grid X) (2 ^ grid X) (grid_nonneg X) eq_refl).
    pose proof (grid_upper X). rewrite <- Z.pow_add_r by (pose proof (grid_nonneg X); lia).
    replace (53 + grid X) with (grid X + 53) by lia. lia.
Qed.

Lemma rnd_mono (X Y : Z) : 0 <= X -> X <= Y -> rnd X <= rnd Y.
Proof.
  intros P L. pose proof (grid_mono X Y L) as G.
  pose proof (grid_nonneg X) as GX. pose proof (grid_nonneg Y) as GY.
  pose proof (pow2_pos (grid X) GX) as PX. pose proof (pow2_pos (grid Y) GY) as PY.
  unfold rnd.
  destruct (Z.eq_dec (grid X) (grid Y)) as [E|N].
  - rewrite E. apply Z.mul_le_mono_nonneg_r; [lia|].
    apply (nearest_even_mono (grid Y) (2 ^ grid Y) GY eq_refl). exact L.
  - assert (GY' : scale - 1074 < grid Y) by (pose proof (grid_ge X); lia).
    destruct (grid_normal Y GY') as [_ LY].
    assert (A : 2 ^ 52 <= nearest_even Y (grid Y)).
    { apply (nearest_even_above (grid Y) (2 ^ grid Y) GY eq_refl).
      rewrite <- Z.pow_add_r by lia. replace (52 + grid Y) with (grid Y + 52) by lia. exact LY. }
    assert (B : nearest_even X (grid X) <= 2 ^ 53).
    { apply (nearest_even_below (grid X) (2 ^ grid X) GX eq_refl).
      rewrite <- Z.pow_add_r by lia. replace (53 + grid X) with (grid X + 53) by lia.
      pose proof (grid_upper X). lia. }
    assert (C : 2 ^ 53 * 2 ^ grid X <= 2 ^ 52 * 2 ^ grid Y).
    { rewrite <- !Z.pow_add_r by lia. apply pow2_le. lia. }
    assert (0 <= nearest_even X (grid X)).
    { apply (nearest_even_above (grid X) (2 ^ grid X) GX eq_refl). lia. }
    nia.
Qed.

(** Rounding does not cross a representable number. *)
Lemma rnd_above (X V : Z) : representable V -> V <= X -> V <= rnd X.
Proof.
  intros R L. rewrite <- (rnd_id V R). apply rnd_mono; [apply R | exact L].
Qed.

Lemma rnd_below (X V : Z) : representable V -> 0 <= X -> X <= V -> rnd X <= V.
Proof.
  intros R P L. rewrite <- (rnd_id V R). apply rnd_mono; assumption.
Qed.

Lemma rnd_error (X : Z) :
  2 * rnd X <= 2 * X + 2 ^ grid X /\ 2 * X <= 2 * rnd X + 2 ^ grid X.
Proof.
  unfold rnd. apply (nearest_even_error (grid X) (2 ^ grid X) (grid_nonneg X) eq_refl).
Qed.

Lemma digits2_log2 (p : positive) : Z.pos (digits2_pos p) = Z.log2 (Z.pos p) + 1.
Proof.
  assert (S : forall q, digits2_pos q = Pos.size q).
  { induction q as [q IH|q IH|]; cbn; [rewrite IH | rewrite IH |]; reflexivity. }
  rewrite S. destruct p; cbn; lia.
Qed.

Lemma Zdigits2_log2 (z : Z) : 0 < z -> Zdigits2 z = Z.log2 z + 1.
Proof. destruct z as [|p|p]; try lia. intros _. apply digits2_log2. Qed.

(** ** Shifting right *)

Lemma shr_1_inv (M k : Z) (mrs : shr_record) :
  0 <= k -> shr_inv M k mrs -> shr_inv M (k + 1) (shr_1 mrs).
Proof.
  intros K [P [u [U [E S]]]]. destruct mrs as [m r s]. cbn [shr_m shr_r shr_s] in *.
  pose proof (pow2_pos k K) as PK. unfold shr_inv. rewrite pow2_succ by exact K.
  assert (H : exists m' b, m = 2 * m' + Z.b2z b /\ 0 <= m' /\
                           shr_1 {| shr_m := m; shr_r := r; shr_s := s |}
                           = {| shr_m := m'; shr_r := b; shr_s := r || s |}).
  { destruct m as [|p|p]; [| |lia].
    - exists 0, false. repeat split; lia.
    - destruct p as [p|p|].
      + exists (Z.pos p), true. repeat split; cbn; lia.
      + exists (Z.pos p), false. repeat split; cbn; lia.
      + exists 0, true. repeat split; cbn; lia. }
  destruct H as [m' [b [Em [Pm ->]]]]. split; [exact Pm|]. cbn [shr_m shr_r shr_s].
  exists (Z.b2z r * 2 ^ k + u). split; [destruct r; cbn [Z.b2z]; lia|].
  split; [rewrite E, Em; ring|].
  destruct r, s; cbn [orb Z.b2z]; split; intros H; try reflexivity; try lia.
Qed.

Lemma iter_shr_inv (M : Z) (p : positive) :
  forall k mrs, 0 <= k -> shr_inv M k mrs ->
                shr_inv M (k + Z.pos p) (iter_pos shr_1 p mrs).
Proof.
  induction p as [p IH|p IH|]; intros k mrs K I; cbn [iter_pos].
  - replace (k + Z.pos p~1) with (k + 1 + Z.pos p + Z.pos p) by lia.
    apply IH; [lia|]. apply IH; [lia|]. apply shr_1_inv; assumption.
  - replace (k + Z.pos p~0) with (k + Z.pos p + Z.pos p) by lia.
    apply IH; [lia|]. apply IH; assumption.
  - apply shr_1_inv; assumption.
Qed.

Lemma shr_inv_round (M n : Z) (mrs : shr_record) :
  0 <= n -> shr_inv M n mrs ->
  round_nearest_even (shr_m mrs) (loc_of_shr_record mrs) = nearest_even M n.
Proof.
  intros N [P [u [U [E S]]]]. destruct mrs as [m r s]. cbn [shr_m shr_r shr_s] in *.
  pose proof (pow2_pos n N) as PN.
  assert (Q : M / 2 ^ n = m /\ 2 * (M mod 2 ^ n) = Z.b2z r * 2 ^ n + u).
  { assert (D : M = 2 ^ n * m + (M - 2 ^ n * m)) by ring.
    assert (B : 0 <= M - 2 ^ n * m < 2 ^ n) by (destruct r; cbn [Z.b2z] in E; nia).
    destruct (Z.div_mod_unique (2 ^ n) (M / 2 ^ n) m (M mod 2 ^ n) (M - 2 ^ n * m)) as [Q R].
    - left. apply Z.mod_pos_bound. lia.
    - left. exact B.
    - rewrite <- Z.div_mod by lia. exact D.
    - split; [exact Q|]. rewrite R. nia. }
  destruct Q as [Q R]. unfold nearest_even. rewrite Q, R.
  destruct r, s; cbn [loc_of_shr_record round_nearest_even Z.b2z].
  - assert (0 < u) by (apply S; reflexivity).
    replace (1 * 2 ^ n + u ?= 2 ^ n) with Gt; [reflexivity|].
    symmetry. apply Z.compare_gt_iff. lia.
  - assert (u = 0).
    { destruct (Z.eq_dec u 0) as [Z|Z]; [exact Z|].
      assert (H : 0 < u) by lia. apply S in H. discriminate H. }
    subst u. replace (1 * 2 ^ n + 0 ?= 2 ^ n) with Eq; [reflexivity|].
    symmetry. apply Z.compare_eq_iff. lia.
  - replace (0 * 2 ^ n + u ?= 2 ^ n) with Lt; [reflexivity|].
    symmetry. apply Z.compare_lt_iff. lia.
  - replace (0 * 2 ^ n + u ?= 2 ^ n) with Lt; [reflexivity|].
    symmetry. apply Z.compare_lt_iff. lia.
Qed.

Lemma shr_nonpos (mrs : shr_record) (e n : Z) : n <= 0 -> shr mrs e n = (mrs, e).
Proof. destruct n; intros; try reflexivity; lia. Qed.

Lemma shr_correct (M E n : Z) :
  0 <= M -> 0 <= n ->
  exists mrs,
    shr (shr_record_of_loc M loc_Exact) E n = (mrs, E + n) /\
    0 <= shr_m mrs /\
    round_nearest_even (shr_m mrs) (loc_of_shr_record mrs) = nearest_even M n.
Proof.
  intros P N.
  assert (I0 : shr_inv M 0 (shr_record_of_loc M loc_Exact)).
  { split; [exact P|]. exists 0. cbn. repeat split; try lia. }
  destruct n as [|p|p]; [| |lia].
  - exists (shr_record_of_loc M loc_Exact). cbn [shr]. rewrite Z.add_0_r.
    split; [reflexivity|]. split; [exact P|]. apply shr_inv_round; [lia | exact I0].
  - exists (iter_pos shr_1 p (shr_record_of_loc M loc_Exact)). cbn [shr].
    split; [reflexivity|].
    pose proof (iter_shr_inv M p 0 _ ltac:(lia) I0) as I. rewrite Z.add_0_l in I.
    split; [apply I|]. apply shr_inv_round; [lia | exact I].
Qed.

Lemma grid_of_mantissa (r g : Z) :
  0 < r < 2 ^ 53 -> scale - 1074 <= g -> g = scale - 1074 \/ 2 ^ 52 <= r ->
  grid (r * 2 ^ g) = g.
Proof.
  intros R G C. pose proof scale_ge.
  unfold grid. rewrite Z.log2_mul_pow2 by lia.
  assert (Z.log2 r < 53) by (apply Z.log2_lt_pow2; lia).
  destruct C as [C|C]; [lia|].
  assert (52 <= Z.log2 r) by (apply Z.log2_le_pow2; lia). lia.
Qed.

Lemma fexp_grid (M : positive) (E : Z) :
  - scale <= E ->
  fexp prec emax (Z.pos (digits2_pos M) + E) = grid (Z.pos M * 2 ^ (E + scale)) - scale.
Proof.
  intros SE. unfold fexp, emin, prec, emax, grid.
  rewrite digits2_log2. rewrite Z.log2_mul_pow2 by lia. lia.
Qed.

Lemma encode_mantissa (r g : Z) :
  0 < r < 2 ^ 53 -> scale - 1074 <= g -> g = scale - 1074 \/ 2 ^ 52 <= r ->
  encode (r * 2 ^ g)
  = if g - scale <=? 971 then S754_finite false (Z.to_pos r) (g - scale)
    else S754_infinity false.
Proof.
  intros R G C. pose proof scale_ge as SG.
  pose proof (pow2_pos g ltac:(lia)) as PG.
  unfold encode. rewrite (grid_of_mantissa r g R G C).
  rewrite Z.div_mul by lia.
  replace (r * 2 ^ g =? 0) with false by (symmetry; apply Z.eqb_neq; nia).
  unfold overflow.
  destruct (Z.leb_spec (g - scale) 971) as [L|L].
  - replace (2 ^ (1024 + scale) <=? r * 2 ^ g) with false; [reflexivity|].
    symmetry. apply Z.leb_gt.
    assert (2 ^ 53 * 2 ^ g <= 2 ^ (1024 + scale)).
    { rewrite <- Z.pow_add_r by lia. apply pow2_le. lia. }
    nia.
  - replace (2 ^ (1024 + scale) <=? r * 2 ^ g) with true; [reflexivity|].
    symmetry. apply Z.leb_le.
    destruct C as [C|C]; [lia|].
    assert (2 ^ (1024 + scale) <= 2 ^ 52 * 2 ^ g).
    { rewrite <- Z.pow_add_r by lia. apply pow2_le. lia. }
    nia.
Qed.

Lemma round_aux_correct (M : positive) (E : Z) :
  - scale <= E -> E <= fexp prec emax (Z.pos (digits2_pos M) + E) ->
  binary_round_aux prec emax false (Z.pos M) E loc_Exact
  = encode (rnd (Z.pos M * 2 ^ (E + scale))).
Proof.
  intros SE N. pose proof scale_ge as SG.
  pose proof (fexp_grid M E SE) as F. rewrite F in N.
  set (X := Z.pos M * 2 ^ (E + scale)) in *.
  pose proof (pow2_pos (E + scale) ltac:(lia)) as PS.
  assert (PX : 0 < X) by (unfold X; nia).
  pose proof (grid_ge X) as GX. pose proof (grid_nonneg X) as GX0.
  pose proof (pow2_pos (grid X) GX0) as PG.
  unfold binary_round_aux, shr_fexp. cbn [Zdigits2]. rewrite F.
  destruct (shr_correct (Z.pos M) E (grid X - scale - E) ltac:(lia) ltac:(lia))
    as [mrs [S1 [P1 R1]]].
  rewrite S1. rewrite R1.
  replace (nearest_even (Z.pos M) (grid X - scale - E)) with (nearest_even X (grid X)).
  2:{ rewrite <- (nearest_even_scale (Z.pos M) (grid X - scale - E) (E + scale)) by lia.
      fold X. f_equal. lia. }
  replace (E + (grid X - scale - E)) with (grid X - scale) by lia.
  unfold rnd. set (r := nearest_even X (grid X)).
  assert (R0 : 0 <= r).
  { apply (nearest_even_above (grid X) (2 ^ grid X) GX0 eq_refl). lia. }
  assert (R53 : r <= 2 ^ 53).
  { apply (nearest_even_below (grid X) (2 ^ grid X) GX0 eq_refl).
    rewrite <- Z.pow_add_r by lia. pose proof (grid_upper X).
    replace (53 + grid X) with (grid X + 53) by lia. lia. }
  assert (RN : grid X = scale - 1074 \/ 2 ^ 52 <= r).
  { destruct (Z.eq_dec (grid X) (scale - 1074)) as [Q|Q]; [left; exact Q | right].
    destruct (grid_normal X ltac:(lia)) as [_ L].
    apply (nearest_even_above (grid X) (2 ^ grid X) GX0 eq_refl).
    rewrite <- Z.pow_add_r by lia. replace (52 + grid X) with (grid X + 52) by lia. exact L. }
  destruct (Z.eq_dec r 0) as [Z0|NZ].
  { (* the result is zero *)
    rewrite Z0. cbn [Zdigits2]. rewrite shr_nonpos.
    - cbn. reflexivity.
    - unfold fexp, emin, prec, emax. lia. }
  destruct (Z.eq_dec r (2 ^ 53)) as [Z53|N53].
  { (* the mantissa was rounded up to the next binade *)
    rewrite Z53. 
    replace (fexp prec emax (Zdigits2 (2 ^ 53) + (grid X - scale)) - (grid X - scale)) with 1.
    2:{ change (Zdigits2 (2 ^ 53)) with 54. unfold fexp, emin, prec, emax. lia. }
    change (shr (shr_record_of_loc (2 ^ 53) loc_Exact) (grid X - scale) 1)
      with ({| shr_m := 2 ^ 52; shr_r := false; shr_s := false |}, grid X - scale + 1).
    cbn [shr_m].
    replace (2 ^ 53 * 2 ^ grid X) with (2 ^ 52 * 2 ^ (grid X + 1))
      by (rewrite pow2_succ by lia; change (2 ^ 53) with (2 * 2 ^ 52); ring).
    rewrite encode_mantissa; [| split; [reflexivity | reflexivity] | lia | right; lia].
    replace (grid X + 1 - scale) with (grid X - scale + 1) by lia.
    change (emax - prec) with 971. reflexivity. }
  (* the common case *)
  assert (D : Zdigits2 r = Z.log2 r + 1) by (apply Zdigits2_log2; lia).
  assert (L53 : Z.log2 r < 53) by (apply Z.log2_lt_pow2; lia).
  rewrite shr_nonpos.
  2:{ rewrite D. unfold fexp, emin, prec, emax.
      destruct RN as [Q|Q]; [lia|].
      assert (52 <= Z.log2 r) by (apply Z.log2_le_pow2; lia). lia. }
  cbn [shr_record_of_loc shr_m].
  rewrite encode_mantissa; [| lia | lia | exact RN].
  change (emax - prec) with 971.
  destruct r as [|p|p]; try lia. reflexivity.
Qed.

(** ** Decoding a double *)

Lemma positive_lt_pow (m : positive) :
  Z.pos (digits2_pos m) <= 53 -> Z.pos m < 2 ^ 53.
Proof.
  intros D. rewrite digits2_log2 in D. apply Z.log2_lt_pow2; lia.
Qed.

Lemma decode (m : positive) (e : Z) :
  bounded prec emax m e = true ->
  S754_finite false m e = encode (Z.pos m * 2 ^ (e + scale)) /\
  representable (Z.pos m * 2 ^ (e + scale)) /\
  0 < Z.pos m * 2 ^ (e + scale) < overflow /\
  - 1074 <= e <= 971.
Proof.
  intros B. pose proof scale_ge as SG.
  unfold bounded, canonical_mantissa in B. apply andb_true_iff in B. destruct B as [C L].
  apply Z.eqb_eq in C. apply Z.leb_le in L. change (emax - prec) with 971 in L.
  assert (E0 : - 1074 <= e) by (unfold fexp, emin, prec, emax in C; lia).
  assert (D : Z.pos (digits2_pos m) <= 53) by (unfold fexp, emin, prec, emax in C; lia).
  pose proof (positive_lt_pow m D) as M53.
  assert (RN : e + scale = scale - 1074 \/ 2 ^ 52 <= Z.pos m).
  { destruct (Z.eq_dec e (- 1074)) as [Q|Q]; [left; lia | right].
    assert (Z.pos (digits2_pos m) = 53) by (unfold fexp, emin, prec, emax in C; lia).
    rewrite digits2_log2 in H. apply Z.log2_le_pow2; lia. }
  pose proof (pow2_pos (e + scale) ltac:(lia)) as PE.
  split.
  { rewrite encode_mantissa; [| lia | lia | exact RN].
    replace (e + scale - scale) with e by lia.
    replace (e <=? 971) with true by (symmetry; apply Z.leb_le; exact L).
    reflexivity. }
  split.
  { apply representable_intro; lia. }
  split; [| lia].
  split; [nia|]. unfold overflow.
  assert (2 ^ 53 * 2 ^ (e + scale) <= 2 ^ (1024 + scale)).
  { rewrite <- Z.pow_add_r by lia. apply pow2_le. lia. }
  nia.
Qed.

(** ** Order *)

Lemma encode_finite (X : Z) :
  representable X -> 0 < X < overflow ->
  encode X = S754_finite false (Z.to_pos (X / 2 ^ grid X)) (grid X - scale) /\
  0 < X / 2 ^ grid X /\
  X = X / 2 ^ grid X * 2 ^ grid X.
Proof.
  intros [_ R] [P O].
  pose proof (pow2_pos (grid X) (grid_nonneg X)) as PG.
  unfold encode.
  replace (X =? 0) with false by (symmetry; apply Z.eqb_neq; lia).
  replace (overflow <=? X) with false by (symmetry; apply Z.leb_gt; lia).
  split; [reflexivity|].
  pose proof (Z.div_mod X (2 ^ grid X) ltac:(lia)) as D. rewrite R in D.
  split; nia.
Qed.

Lemma compare_encode (X Y : Z) :
  representable X -> representable Y ->
  SFcompare (encode X) (encode Y) = Some (Z.min X overflow ?= Z.min Y overflow).
Proof.
  intros RX RY. pose proof scale_ge as SG.
  assert (PO : 0 < overflow) by (apply pow2_pos; lia).
  destruct (Z.eq_dec X 0) as [X0|X0]; destruct (Z.eq_dec Y 0) as [Y0|Y0];
    try subst X; try subst Y.
  - reflexivity.
  - destruct (Z.le_gt_cases overflow Y) as [OY|OY].
    + unfold encode at 2. replace (Y =? 0) with false by (symmetry; apply Z.eqb_neq; lia).
      replace (overflow <=? Y) with true by (symmetry; apply Z.leb_le; lia).
      cbn. f_equal. symmetry. apply Z.compare_lt_iff. lia.
    + destruct (encode_finite Y RY) as [-> _]; [destruct RY; lia|].
      cbn. f_equal. symmetry. apply Z.compare_lt_iff. destruct RY. lia.
  - destruct (Z.le_gt_cases overflow X) as [OX|OX].
    + unfold encode at 1. replace (X =? 0) with false by (symmetry; apply Z.eqb_neq; lia).
      replace (overflow <=? X) with true by (symmetry; apply Z.leb_le; lia).
      cbn. f_equal. symmetry. apply Z.compare_gt_iff. lia.
    + destruct (encode_finite X RX) as [-> _]; [destruct RX; lia|].
      cbn. f_equal. symmetry. apply Z.compare_gt_iff. destruct RX. lia.
  - assert (PX : 0 < X) by (destruct RX; lia).
    assert (PY : 0 < Y) by (destruct RY; lia).
    destruct (Z.le_gt_cases overflow X) as [OX|OX];
      destruct (Z.le_gt_cases overflow Y) as [OY|OY].
    + unfold encode.
      replace (X =? 0) with false by (symmetry; apply Z.eqb_neq; lia).
      replace (Y =? 0) with false by (symmetry; apply Z.eqb_neq; lia).
      replace (overflow <=? X) with true by (symmetry; apply Z.leb_le; lia).
      replace (overflow <=? Y) with true by (symmetry; apply Z.leb_le; lia).
      cbn. f_equal. symmetry. apply Z.compare_eq_iff. lia.
    + unfold encode at 1.
      replace (X =? 0) with false by (symmetry; apply Z.eqb_neq; lia).
      replace (overflow <=? X) with true by (symmetry; apply Z.leb_le; lia).
      destruct (encode_finite Y RY) as [-> _]; [lia|].
      cbn. f_equal. symmetry. apply Z.compare_gt_iff. lia.
    + unfold encode at 2.
      replace (Y =? 0) with false by (symmetry; apply Z.eqb_neq; lia).
      replace (overflow <=? Y) with true by (symmetry; apply Z.leb_le; lia).
      destruct (encode_finite X RX) as [-> _]; [lia|].
      cbn. f_equal. symmetry. apply Z.compare_lt_iff. lia.
    + destruct (encode_finite X RX) as [-> [MX EX]]; [lia|].
      destruct (encode_finite Y RY) as [-> [MY EY]]; [lia|].
      rewrite !Z.min_l by lia.
      pose proof (grid_nonneg X) as GX. pose proof (grid_nonneg Y) as GY.
      pose proof (pow2_pos (grid X) GX) as PGX. pose proof (pow2_pos (grid Y) GY) as PGY.
      cbn [SFcompare]. f_equal.
      destruct (Z.compare_spec (grid X - scale) (grid Y - scale)) as [E|L|L].
      * assert (E' : grid X = grid Y) by lia.
        change (Pos.compare_cont Eq (Z.to_pos (X / 2 ^ grid X)) (Z.to_pos (Y / 2 ^ grid Y)))
          with (Z.pos (Z.to_pos (X / 2 ^ grid X)) ?= Z.pos (Z.to_pos (Y / 2 ^ grid Y))).
        rewrite !Z2Pos.id by lia.
        rewrite E' in *.
        destruct (Z.compare_spec (X / 2 ^ grid Y) (Y / 2 ^ grid Y)) as [Q|Q|Q]; symmetry.
        -- apply Z.compare_eq_iff. nia.
        -- apply Z.compare_lt_iff. nia.
        -- apply Z.compare_gt_iff. nia.
      * symmetry. apply Z.compare_lt_iff.
        destruct (Z.lt_ge_cases X Y) as [Q|Q]; [exact Q|].
        pose proof (grid_mono Y X Q). lia.
      * symmetry. apply Z.compare_gt_iff.
        destruct (Z.lt_ge_cases Y X) as [Q|Q]; [exact Q|].
        pose proof (grid_mono X Y Q). lia.
Qed.

Lemma overflow_pos : 0 < overflow.
Proof. pose proof scale_ge. apply pow2_pos. lia. Qed.

Lemma representable_overflow : representable overflow.
Proof. pose proof scale_ge. apply representable_pow. lia. Qed.

Lemma encode_cap (X : Z) : encode (cap X) = encode X.
Proof.
  unfold cap. pose proof overflow_pos.
  destruct (Z.le_gt_cases overflow X) as [L|L].
  - rewrite Z.min_r by lia. unfold encode.
    replace (overflow =? 0) with false by (symmetry; apply Z.eqb_neq; lia).
    replace (X =? 0) with false by (symmetry; apply Z.eqb_neq; lia).
    replace (overflow <=? overflow) with true by (symmetry; apply Z.leb_le; lia).
    replace (overflow <=? X) with true by (symmetry; apply Z.leb_le; lia).
    reflexivity.
  - rewrite Z.min_l by lia. reflexivity.
Qed.

Lemma representable_cap (X : Z) : representable X -> representable (cap X).
Proof.
  intros R. unfold cap. destruct (Z.le_gt_cases overflow X) as [L|L].
  - rewrite Z.min_r by lia. apply representable_overflow.
  - rewrite Z.min_l by lia. exact R.
Qed.

Lemma encode_0 : encode 0 = S754_zero false.
Proof. reflexivity. Qed.

Lemma encode_infinite (X : Z) : overflow <= X -> encode X = S754_infinity false.
Proof.
  intros L. pose proof overflow_pos. unfold encode.
  replace (X =? 0) with false by (symmetry; apply Z.eqb_neq; lia).
  replace (overflow <=? X) with true by (symmetry; apply Z.leb_le; lia).
  reflexivity.
Qed.

(** A representable number below [overflow] is a finite double. *)
Lemma encode_bounded (X : Z) :
  representable X -> 0 < X < overflow ->
  exists m e,
    encode X = S754_finite false m e /\
    bounded prec emax m e = true /\
    X = Z.pos m * 2 ^ (e + scale) /\ - 1074 <= e.
Proof.
  intros R B. pose proof scale_ge as SG.
  destruct (encode_finite X R B) as [E [M V]].
  pose proof (grid_ge X) as G. pose proof (grid_nonneg X) as G0.
  pose proof (pow2_pos (grid X) G0) as PG.
  exists (Z.to_pos (X / 2 ^ grid X)), (grid X - scale).
  split; [exact E|].
  assert (V' : X = Z.pos (Z.to_pos (X / 2 ^ grid X)) * 2 ^ (grid X - scale + scale)).
  { rewrite Z2Pos.id by lia. replace (grid X - scale + scale) with (grid X) by lia. exact V. }
  split; [| split; [exact V' | lia]].
  unfold bounded, canonical_mantissa. apply andb_true_iff. split.
  - apply Z.eqb_eq. rewrite fexp_grid by lia. rewrite <- V'. reflexivity.
  - apply Z.leb_le. change (emax - prec) with 971.
    destruct (Z.le_gt_cases (grid X - scale) 971) as [L|L]; [exact L|].
    exfalso. destruct (grid_normal X ltac:(lia)) as [_ N].
    assert (overflow <= 2 ^ (grid X + 52)) by (apply pow2_le; lia).
    lia.
Qed.

Lemma valid_encode (X : Z) : representable X -> valid_binary (encode X) = true.
Proof.
  intros R. pose proof overflow_pos.
  destruct (Z.eq_dec X 0) as [->|N]; [reflexivity|].
  destruct (Z.le_gt_cases overflow X) as [L|L].
  - rewrite encode_infinite by exact L. reflexivity.
  - destruct (encode_bounded X R) as [m [e [-> [B _]]]]; [destruct R; lia|]. exact B.
Qed.

(** ** Aligning *)

Lemma pos_iter_xO (m d : positive) : Z.pos (Pos.iter xO m d) = Z.pos m * 2 ^ Z.pos d.
Proof.
  induction d as [|d IH] using Pos.peano_ind.
  - cbn. lia.
  - rewrite Pos.iter_succ. rewrite Pos2Z.inj_succ.
    rewrite Z.pow_succ_r by lia.
    change (Z.pos (Pos.iter xO m d)~0) with (2 * Z.pos (Pos.iter xO m d)).
    rewrite IH. ring.
Qed.

Lemma shl_align_value (m : positive) (e e' : Z) :
  Z.pos (fst (shl_align m e e')) = Z.pos m * 2 ^ (e - snd (shl_align m e e')) /\
  snd (shl_align m e e') = Z.min e e'.
Proof.
  unfold shl_align. destruct (e' - e) as [|d|d] eqn:D; cbn [fst snd].
  - replace (e - e) with 0 by lia. split; lia.
  - replace (e - e) with 0 by lia. split; lia.
  - rewrite pos_iter_xO. split; [f_equal; f_equal; lia | lia].
Qed.

Lemma binary_round_correct (M : positive) (E : Z) :
  - 1074 <= E ->
  binary_round prec emax false M E = encode (rnd (Z.pos M * 2 ^ (E + scale))).
Proof.
  intros LE. pose proof scale_ge as SG. unfold binary_round.
  pose proof (shl_align_value M E (fexp prec emax (Z.pos (digits2_pos M) + E))) as [V S].
  destruct (shl_align M E (fexp prec emax (Z.pos (digits2_pos M) + E))) as [mz ez].
  cbn [fst snd] in V, S.
  assert (EZ : - 1074 <= ez) by (unfold fexp, emin, prec, emax in S; lia).
  assert (X : Z.pos mz * 2 ^ (ez + scale) = Z.pos M * 2 ^ (E + scale)).
  { rewrite V. rewrite <- Z.mul_assoc. rewrite <- Z.pow_add_r by lia. f_equal. f_equal. lia. }
  rewrite round_aux_correct; [rewrite X; reflexivity | lia |].
  rewrite (fexp_grid mz ez) by lia. rewrite X. rewrite <- (fexp_grid M E) by lia. lia.
Qed.

Lemma binary_normalize_correct (n E : Z) :
  0 <= n -> - 1074 <= E ->
  binary_normalize prec emax n E false = encode (rnd (n * 2 ^ (E + scale))).
Proof.
  intros P LE. destruct n as [|p|p]; [| |lia].
  - cbn [binary_normalize]. rewrite Z.mul_0_l. rewrite (rnd_id 0 representable_0). reflexivity.
  - cbn [binary_normalize]. apply binary_round_correct. exact LE.
Qed.

(** ** The operations on non-negative doubles *)

Lemma SFmul_correct (X Y : Z) :
  representable X -> representable Y -> 2 ^ scale <= Y < overflow ->
  SFmul prec emax (encode X) (encode Y) = encode (rnd (X * Y / 2 ^ scale)).
Proof.
  intros RX RY BY. pose proof scale_ge as SG. pose proof overflow_pos as PO.
  pose proof (pow2_pos scale ltac:(lia)) as PS.
  destruct (encode_bounded Y RY ltac:(lia)) as [my [ey [EY [BdY [VY LY]]]]].
  rewrite EY.
  destruct (Z.eq_dec X 0) as [->|NX].
  { rewrite encode_0. cbn [SFmul xorb]. rewrite Z.mul_0_l. rewrite Z.div_0_l by lia.
    rewrite (rnd_id 0 representable_0). reflexivity. }
  assert (PX : 0 < X) by (destruct RX; lia).
  destruct (Z.le_gt_cases overflow X) as [OX|OX].
  { rewrite (encode_infinite X OX). cbn [SFmul xorb].
    rewrite encode_infinite; [reflexivity|].
    apply rnd_above; [apply representable_overflow|].
    apply Z.div_le_lower_bound; [lia|]. nia. }
  destruct (encode_bounded X RX ltac:(lia)) as [mx [ex [EX [BdX [VX LX]]]]].
  rewrite EX. cbn [SFmul xorb].
  assert (V : X * Y / 2 ^ scale = Z.pos (mx * my) * 2 ^ (ex + ey + scale)).
  { rewrite VX, VY. rewrite Pos2Z.inj_mul.
    replace (Z.pos mx * 2 ^ (ex + scale) * (Z.pos my * 2 ^ (ey + scale)))
      with (Z.pos mx * Z.pos my * 2 ^ (ex + ey + scale) * 2 ^ scale).
    - apply Z.div_mul. lia.
    - assert (P2 : 2 ^ (ex + ey + scale) * 2 ^ scale = 2 ^ (ex + scale) * 2 ^ (ey + scale)).
      { rewrite <- !Z.pow_add_r by lia. f_equal. lia. }
      rewrite <- (Z.mul_assoc _ (2 ^ (ex + ey + scale))), P2. ring. }
  rewrite V. apply round_aux_correct; [lia|].
  (* the product of two canonical mantissas needs no alignment *)
  unfold bounded, canonical_mantissa in BdX, BdY.
  apply andb_true_iff in BdX. destruct BdX as [CX _]. apply Z.eqb_eq in CX.
  apply andb_true_iff in BdY. destruct BdY as [CY _]. apply Z.eqb_eq in CY.
  rewrite !digits2_log2 in *. rewrite Pos2Z.inj_mul.
  pose proof (Z.log2_mul_below (Z.pos mx) (Z.pos my) ltac:(lia) ltac:(lia)) as LM.
  pose proof (Z.log2_nonneg (Z.pos mx)). pose proof (Z.log2_nonneg (Z.pos my)).
  unfold fexp, emin, prec, emax in *. lia.
Qed.

Lemma rnd_0 : rnd 0 = 0.
Proof. apply rnd_id. apply representable_0. Qed.

Lemma aligned_sum (mx my : positive) (ex ey : Z) (op : Z -> Z -> Z) :
  (forall a b c, op (a * c) (b * c) = op a b * c) ->
  - 1074 <= ex -> - 1074 <= ey ->
  op (Z.pos (fst (shl_align mx ex (Z.min ex ey)))) (Z.pos (fst (shl_align my ey (Z.min ex ey))))
  * 2 ^ (Z.min ex ey + scale)
  = op (Z.pos mx * 2 ^ (ex + scale)) (Z.pos my * 2 ^ (ey + scale)).
Proof.
  intros D LX LY. pose proof scale_ge as SG.
  pose proof (shl_align_value mx ex (Z.min ex ey)) as [VX SX].
  pose proof (shl_align_value my ey (Z.min ex ey)) as [VY SY].
  rewrite VX, VY, SX, SY.
  replace (Z.min ex (Z.min ex ey)) with (Z.min ex ey) by lia.
  replace (Z.min ey (Z.min ex ey)) with (Z.min ex ey) by lia.
  rewrite <- D. f_equal; rewrite <- Z.mul_assoc, <- Z.pow_add_r by lia; f_equal; f_equal; lia.
Qed.

Lemma SFadd_correct (X Y : Z) :
  representable X -> representable Y ->
  SFadd prec emax (encode X) (encode Y) = encode (rnd (X + Y)).
Proof.
  intros RX RY. pose proof scale_ge as SG. pose proof overflow_pos as PO.
  assert (PX : 0 <= X) by apply RX. assert (PY : 0 <= Y) by apply RY.
  destruct (Z.le_gt_cases overflow X) as [OX|OX].
  { rewrite (encode_infinite X OX).
    rewrite (encode_infinite (rnd (X + Y)))
      by (apply rnd_above; [apply representable_overflow | lia]).
    destruct (Z.eq_dec Y 0) as [->|NY]; [reflexivity|].
    destruct (Z.le_gt_cases overflow Y) as [OY|OY].
    - rewrite (encode_infinite Y OY). reflexivity.
    - destruct (encode_bounded Y RY ltac:(lia)) as [my [ey [-> _]]]. reflexivity. }
  destruct (Z.le_gt_cases overflow Y) as [OY|OY].
  { rewrite (encode_infinite Y OY).
    rewrite (encode_infinite (rnd (X + Y)))
      by (apply rnd_above; [apply representable_overflow | lia]).
    destruct (Z.eq_dec X 0) as [->|NX]; [reflexivity|].
    destruct (encode_bounded X RX ltac:(lia)) as [mx [ex [-> _]]]. reflexivity. }
  destruct (Z.eq_dec X 0) as [->|NX].
  { rewrite Z.add_0_l, (rnd_id Y RY).
    destruct (Z.eq_dec Y 0) as [->|NY]; [reflexivity|].
    destruct (encode_bounded Y RY ltac:(lia)) as [my [ey [-> _]]]. reflexivity. }
  destruct (Z.eq_dec Y 0) as [->|NY].
  { rewrite Z.add_0_r, (rnd_id X RX).
    destruct (encode_bounded X RX ltac:(lia)) as [mx [ex [-> _]]]. reflexivity. }
  destruct (encode_bounded X RX ltac:(lia)) as [mx [ex [EX [_ [VX LX]]]]].
  destruct (encode_bounded Y RY ltac:(lia)) as [my [ey [EY [_ [VY LY]]]]].
  rewrite EX, EY. cbn [SFadd cond_Zopp].
  rewrite binary_normalize_correct; [| lia | lia].
  rewrite (aligned_sum mx my ex ey Z.add) by (intros; lia || ring).
  rewrite <- VX, <- VY. reflexivity.
Qed.

Lemma SFsub_correct (X Y : Z) :
  representable X -> representable Y -> Y <= X < overflow ->
  SFsub prec emax (encode X) (encode Y) = encode (rnd (X - Y)).
Proof.
  intros RX RY B. pose proof scale_ge as SG. pose proof overflow_pos as PO.
  assert (PY : 0 <= Y) by apply RY.
  destruct (Z.eq_dec Y 0) as [->|NY].
  { rewrite Z.sub_0_r, (rnd_id X RX).
    destruct (Z.eq_dec X 0) as [->|NX]; [reflexivity|].
    destruct (encode_bounded X RX ltac:(lia)) as [mx [ex [-> _]]]. reflexivity. }
  destruct (encode_bounded X RX ltac:(lia)) as [mx [ex [EX [_ [VX LX]]]]].
  destruct (encode_bounded Y RY ltac:(lia)) as [my [ey [EY [_ [VY LY]]]]].
  rewrite EX, EY. cbn [SFsub cond_Zopp].
  pose proof (aligned_sum mx my ex ey Z.sub ltac:(intros; ring) LX LY) as A.
  rewrite <- VX, <- VY in A.
  pose proof (pow2_pos (Z.min ex ey + scale) ltac:(lia)) as PM.
  rewrite binary_normalize_correct; [| nia | lia].
  rewrite A. reflexivity.
Qed.

Lemma cap_le (X : Z) : cap X <= overflow.
Proof. unfold cap. lia. Qed.

Lemma cap_id (X : Z) : X <= overflow -> cap X = X.
Proof. unfold cap. lia. Qed.

Lemma dbl_cap (x : float) (X : Z) :
  Prim2SF x = encode X -> representable X -> dbl x (cap X).
Proof.
  intros E R. split; [rewrite encode_cap; exact E|].
  split; [apply representable_cap; exact R | apply cap_le].
Qed.

Lemma dbl_inj (x y : float) (X : Z) : dbl x X -> dbl y X -> x = y.
Proof. intros [E _] [F _]. apply Prim2SF_inj. congruence. Qed.

Lemma dbl_nonneg (x : float) (X : Z) : dbl x X -> 0 <= X.
Proof. intros [_ [[P _] _]]. exact P. Qed.

Lemma dbl_decode (x : float) (m : positive) (e : Z) :
  Prim2SF x = S754_finite false m e -> dbl x (Z.pos m * 2 ^ (e + scale)).
Proof.
  intros E. pose proof (Prim2SF_valid x) as V. rewrite E in V. cbn in V.
  destruct (decode m e V) as [D [R [B _]]].
  split; [congruence|]. split; [exact R | lia].
Qed.

Lemma dbl_mul (x y : float) (X Y : Z) :
  dbl x X -> dbl y Y -> 2 ^ scale <= Y < overflow ->
  dbl (x * y)%float (cap (rnd (X * Y / 2 ^ scale))).
Proof.
  intros [EX [RX _]] [EY [RY _]] B. pose proof scale_ge.
  pose proof (pow2_pos scale ltac:(lia)).
  apply dbl_cap.
  - rewrite mul_spec, EX, EY. apply SFmul_correct; assumption.
  - apply rnd_representable. apply Z.div_pos; [|lia]. destruct RX, RY. nia.
Qed.

Lemma dbl_add (x y : float) (X Y : Z) :
  dbl x X -> dbl y Y -> dbl (x + y)%float (cap (rnd (X + Y))).
Proof.
  intros [EX [RX _]] [EY [RY _]]. apply dbl_cap.
  - rewrite add_spec, EX, EY. apply SFadd_correct; assumption.
  - apply rnd_representable. destruct RX, RY. lia.
Qed.

Lemma dbl_sub (x y : float) (X Y : Z) :
  dbl x X -> dbl y Y -> Y <= X < overflow -> dbl (x - y)%float (rnd (X - Y)).
Proof.
  intros [EX [RX _]] [EY [RY _]] B.
  split; [rewrite sub_spec, EX, EY; apply SFsub_correct; assumption|].
  split; [apply rnd_representable; lia|].
  apply rnd_below; [apply representable_overflow | lia | destruct RY; lia].
Qed.

Lemma dbl_compare (x y : float) (X Y : Z) :
  dbl x X -> dbl y Y -> SFcompare (Prim2SF x) (Prim2SF y) = Some (X ?= Y).
Proof.
  intros [EX [RX LX]] [EY [RY LY]]. rewrite EX, EY, compare_encode by assumption.
  rewrite !Z.min_l by lia. reflexivity.
Qed.

Lemma dbl_ltb (x y : float) (X Y : Z) :
  dbl x X -> dbl y Y -> (x <? y)%float = (X <? Y).
Proof.
  intros DX DY. rewrite ltb_spec. unfold SFltb. rewrite (dbl_compare x y X Y DX DY).
  unfold Z.ltb. destruct (X ?= Y); reflexivity.
Qed.

Lemma dbl_leb (x y : float) (X Y : Z) :
  dbl x X -> dbl y Y -> (x <=? y)%float = (X <=? Y).
Proof.
  intros DX DY. rewrite leb_spec. unfold SFleb. rewrite (dbl_compare x y X Y DX DY).
  unfold Z.leb. destruct (X ?= Y); reflexivity.
Qed.

Lemma dbl_not_nan (x : float) (X : Z) : dbl x X -> PrimFloat.is_nan x = false.
Proof.
  intros D. unfold PrimFloat.is_nan. rewrite FloatAxioms.eqb_spec. unfold SFeqb.
  rewrite (dbl_compare x x X X D D). rewrite Z.compare_refl. reflexivity.
Qed.

Lemma dbl_max2 (x y : float) (X Y : Z) :
  dbl x X -> dbl y Y -> dbl (Binary64.max2 x y) (Z.max X Y).
Proof.
  intros DX DY. unfold Binary64.max2.
  rewrite (dbl_not_nan x X DX), (dbl_not_nan y Y DY).
  rewrite (dbl_ltb x y X Y DX DY), (dbl_ltb y x Y X DY DX).
  destruct (Z.ltb_spec X Y) as [L|L].
  - rewrite Z.max_r by lia. exact DY.
  - destruct (Z.ltb_spec Y X) as [L'|L'].
    + rewrite Z.max_l by lia. exact DX.
    + assert (X = Y) by lia. subst Y. rewrite Z.max_id.
      destruct (PrimFloat.is_zero x && PrimFloat.get_sign x); assumption.
Qed.

Lemma dbl_of_Z (n : Z) : 0 <= n -> dbl (Binary64.of_Z n) (cap (rnd (fixed n))).
Proof.
  intros P. pose proof scale_ge.
  assert (E : binary_normalize prec emax n 0 false = encode (rnd (fixed n))).
  { rewrite binary_normalize_correct by lia. reflexivity. }
  assert (R : representable (rnd (fixed n))).
  { apply rnd_representable. unfold fixed. pose proof (pow2_pos scale). nia. }
  apply dbl_cap; [|exact R].
  unfold Binary64.of_Z. rewrite Prim2SF_SF2Prim; [exact E|].
  rewrite E. apply valid_encode. exact R.
Qed.

Lemma fixed_lt_overflow (n : Z) : n <= 2 ^ 53 -> fixed n < overflow.
Proof.
  intros L. pose proof scale_ge. unfold fixed, overflow.
  pose proof (pow2_pos scale ltac:(lia)).
  assert (2 ^ 53 * 2 ^ scale < 2 ^ (1024 + scale)).
  { rewrite <- Z.pow_add_r by lia. apply pow2_lt. lia. }
  nia.
Qed.

(** Integers up to 2^53 are doubles. *)
Lemma dbl_of_Z_exact (n : Z) : 0 <= n <= 2 ^ 53 -> dbl (Binary64.of_Z n) (fixed n).
Proof.
  intros B. pose proof (dbl_of_Z n ltac:(lia)) as D.
  rewrite (rnd_id (fixed n) (representable_fixed n B)) in D.
  rewrite cap_id in D; [exact D|]. pose proof (fixed_lt_overflow n). lia.
Qed.

Lemma dbl_round (x : float) (X : Z) : dbl x X -> dbl (Binary64.round x) (roundZ X).
Proof.
  intros D. pose proof D as [E [R L]]. pose proof scale_ge as SG.
  pose proof overflow_pos as PO. pose proof (pow2_pos scale ltac:(lia)) as PS.
  unfold Binary64.round, roundZ.
  destruct (Z.eq_dec X 0) as [->|NX].
  { rewrite E. cbn [encode Z.eqb]. 
    replace (scale <=? grid 0) with false.
    - replace ((2 * 0 + 2 ^ scale) / (2 * 2 ^ scale)) with 0; [exact D|].
      symmetry. apply Z.div_small. lia.
    - symmetry. apply Z.leb_gt. rewrite grid_small; [lia|]. apply pow2_pos. lia. }
  assert (PX : 0 < X) by (destruct R; lia).
  destruct (Z.eq_dec X overflow) as [->|NO].
  { rewrite E, encode_infinite by lia.
    replace (scale <=? grid overflow) with true; [exact D|].
    symmetry. apply Z.leb_le. unfold overflow, grid. rewrite Z.log2_pow2 by lia. lia. }
  destruct (encode_finite X R ltac:(lia)) as [EF [MP V]].
  rewrite E, EF.
  pose proof (grid_nonneg X) as G0. pose proof (pow2_pos (grid X) G0) as PG.
  destruct (Z.leb_spec scale (grid X)) as [GE|GL].
  { replace (0 <=? grid X - scale) with true by (symmetry; apply Z.leb_le; lia). exact D. }
  replace (0 <=? grid X - scale) with false by (symmetry; apply Z.leb_gt; lia).
  rewrite andb_false_r. rewrite Z2Pos.id by lia.
  set (m := X / 2 ^ grid X) in *. set (k := 2 ^ (- (grid X - scale))).
  assert (K : 2 ^ scale = k * 2 ^ grid X).
  { unfold k. rewrite <- Z.pow_add_r by lia. f_equal. lia. }
  assert (PK : 0 < k) by (unfold k; apply pow2_pos; lia).
  assert (N : (2 * X + 2 ^ scale) / (2 * 2 ^ scale) = (2 * m + k) / (2 * k)).
  { rewrite V at 1. rewrite K.
    replace (2 * (m * 2 ^ grid X) + k * 2 ^ grid X) with ((2 * m + k) * 2 ^ grid X) by ring.
    replace (2 * (k * 2 ^ grid X)) with (2 * k * 2 ^ grid X) by ring.
    apply Z.div_mul_cancel_r; lia. }
  rewrite N. apply dbl_of_Z_exact.
  split; [apply Z.div_pos; lia|].
  apply Z.div_le_upper_bound; [lia|].
  (* m < 2^53 and k >= 2 *)
  pose proof (grid_upper X) as U. rewrite Z.pow_add_r in U by lia.
  assert (m < 2 ^ 53) by nia.
  assert (2 <= k).
  { unfold k. change 2 with (2 ^ 1) at 1. apply pow2_le. lia. }
  nia.
Qed.

Lemma fixed_pos (n : Z) : 0 <= n -> 0 <= fixed n.
Proof. intros. unfold fixed. pose proof scale_ge. pose proof (pow2_pos scale). nia. Qed.

Lemma fixed_le (n m : Z) : n <= m -> fixed n <= fixed m.
Proof. intros. unfold fixed. pose proof scale_ge. pose proof (pow2_pos scale). nia. Qed.

Lemma fixed_add (n m : Z) : fixed n + fixed m = fixed (n + m).
Proof. unfold fixed. ring. Qed.

Lemma dbl_3000 : dbl (Binary64.of_Z 3000) (fixed 3000).
Proof. apply dbl_of_Z_exact. split; [lia|]. vm_compute. discriminate. Qed.

Lemma dbl_6000 : dbl (PrimFloat.add (Binary64.of_Z 3000) (Binary64.of_Z 3000)) (fixed 6000).
Proof.
  pose proof (dbl_add _ _ _ _ dbl_3000 dbl_3000) as D.
  rewrite fixed_add in D. change (3000 + 3000) with 6000 in D.
  rewrite rnd_id in D.
  - rewrite cap_id in D; [exact D|].
    pose proof (fixed_lt_overflow 6000). assert (6000 <= 2 ^ 53) by (vm_compute; discriminate). lia.
  - apply representable_fixed. split; [lia|]. vm_compute. discriminate.
Qed.

Lemma spread_floor_dbl (a b : float) (A B : Z) :
  dbl a A -> dbl b B -> A <= B ->
  dbl (fst (spread_floor (a, b))) A /\ dbl (snd (spread_floor (a, b))) (spreadZ A B).
Proof.
  intros DA DB L. pose proof overflow_pos as PO.
  unfold spread_floor, spreadZ, MINIMUM_PRICING_rangeSpread.
  cbn [lt sub add of_Z binary64].
  destruct (Z.ltb_spec B overflow) as [FB|IB]; cbn [andb].
  - pose proof (dbl_sub b a B A DB DA ltac:(lia)) as DS.
    rewrite (dbl_ltb _ _ _ _ DS dbl_3000).
    destruct (rnd (B - A) <? fixed 3000); cbn [fst snd].
    + split; [exact DA|]. apply dbl_add; [exact DA | exact dbl_3000].
    + split; assumption.
  - (* the maximum is +Infinity: the difference is +Infinity or NaN *)
    assert (EB : B = overflow) by (destruct DB as [_ [_ ?]]; lia). subst B.
    assert (N : PrimFloat.ltb (PrimFloat.sub b a) (Binary64.of_Z 3000) = false).
    { rewrite ltb_spec, sub_spec. destruct DB as [EB _]. rewrite EB.
      rewrite encode_infinite by lia. destruct DA as [EA [RA LA]]. rewrite EA.
      destruct (Z.eq_dec A 0) as [->|NA].
      - cbn [encode Z.eqb SF64sub SFsub]. 
        destruct (Prim2SF (Binary64.of_Z 3000)) as [s|s| |s m e]; try reflexivity;
          destruct s; reflexivity.
      - destruct (Z.le_gt_cases overflow A) as [OA|OA].
        + rewrite encode_infinite by lia. reflexivity.
        + destruct (encode_bounded A RA) as [m [e [-> _]]]; [destruct RA; lia|].
          cbn [SF64sub SFsub].
          destruct (Prim2SF (Binary64.of_Z 3000)) as [s|s| |s m' e']; try reflexivity;
            destruct s; reflexivity. }
    rewrite N. cbn [fst snd]. split; assumption.
Qed.

Lemma absolute_floor_dbl (a m : float) (A M : Z) :
  dbl a A -> dbl m M ->
  dbl (fst (absolute_floor (a, m)))
      (if A <? fixed 3000 then fixed 3000 else A) /\
  dbl (snd (absolute_floor (a, m)))
      (if A <? fixed 3000 then Z.max M (fixed 6000) else M).
Proof.
  intros DA DM.
  unfold absolute_floor, MINIMUM_PRICING_absoluteMin, MINIMUM_PRICING_rangeSpread.
  cbn [lt add of_Z Math_max2 binary64].
  rewrite (dbl_ltb _ _ _ _ DA dbl_3000).
  destruct (A <? fixed 3000); cbn [fst snd].
  - split; [exact dbl_3000|]. apply dbl_max2; [exact DM | exact dbl_6000].
  - split; assumption.
Qed.

Lemma floors_dbl (a b : float) (A B : Z) :
  dbl a A -> dbl b B -> A <= B ->
  dbl (fst (absolute_floor (spread_floor (a, b)))) (fst (floorsZ A B)) /\
  dbl (snd (absolute_floor (spread_floor (a, b)))) (snd (floorsZ A B)).
Proof.
  intros DA DB L.
  destruct (spread_floor_dbl a b A B DA DB L) as [D1 D2].
  destruct (spread_floor (a, b)) as [a' m]. cbn [fst snd] in D1, D2.
  destruct (absolute_floor_dbl a' m A (spreadZ A B) D1 D2) as [E1 E2].
  unfold floorsZ. destruct (A <? fixed 3000); cbn [fst snd]; split; assumption.
Qed.

(** ** [Math.round] *)

Lemma grid_threshold (X : Z) : 0 <= X -> (scale <= grid X <-> 2 ^ (scale + 52) <= X).
Proof.
  intros P. pose proof scale_ge as SG. unfold grid. split; intros H.
  - assert (L : scale + 52 <= Z.log2 X) by lia.
    assert (0 < X).
    { destruct (Z.eq_dec X 0) as [->|N]; [cbn in L; lia | lia]. }
    apply Z.log2_le_pow2; lia.
  - assert (0 < X) by (pose proof (pow2_pos (scale + 52)); lia).
    assert (scale + 52 <= Z.log2 X) by (apply Z.log2_le_pow2; lia). lia.
Qed.

Lemma roundZ_high (X : Z) : 2 ^ (scale + 52) <= X -> roundZ X = X.
Proof.
  intros H. pose proof scale_ge. pose proof (pow2_pos (scale + 52) ltac:(lia)).
  unfold roundZ. replace (scale <=? grid X) with true; [reflexivity|].
  symmetry. apply Z.leb_le. apply grid_threshold; lia.
Qed.

Lemma roundZ_low (X : Z) :
  0 <= X < 2 ^ (scale + 52) -> roundZ X = fixed ((2 * X + 2 ^ scale) / (2 * 2 ^ scale)).
Proof.
  intros H. unfold roundZ. replace (scale <=? grid X) with false; [reflexivity|].
  symmetry. apply Z.leb_gt.
  destruct (Z.lt_ge_cases (grid X) scale) as [L|L]; [exact L|].
  apply grid_threshold in L; lia.
Qed.

Lemma half_up_bound (X : Z) :
  0 <= X < 2 ^ (scale + 52) -> 0 <= (2 * X + 2 ^ scale) / (2 * 2 ^ scale) <= 2 ^ 52.
Proof.
  intros H. pose proof scale_ge. pose proof (pow2_pos scale ltac:(lia)) as PS.
  rewrite Z.pow_add_r in H by lia.
  split; [apply Z.div_pos; lia|].
  assert ((2 * X + 2 ^ scale) / (2 * 2 ^ scale) < 2 ^ 52 + 1); [|lia].
  apply Z.div_lt_upper_bound; [lia|]. nia.
Qed.

Lemma roundZ_fixed (k : Z) : 0 <= k -> roundZ (fixed k) = fixed k.
Proof.
  intros K. pose proof scale_ge. pose proof (pow2_pos scale ltac:(lia)) as PS.
  destruct (Z.lt_ge_cases (fixed k) (2 ^ (scale + 52))) as [L|L].
  - rewrite roundZ_low by (pose proof (fixed_pos k K); lia).
    f_equal. unfold fixed.
    replace (2 * (k * 2 ^ scale) + 2 ^ scale) with ((2 * k + 1) * 2 ^ scale) by ring.
    rewrite Z.div_mul_cancel_r by lia.
    rewrite Z.mul_comm. rewrite Z.div_add_l by lia. change (1 / 2) with 0. lia.
  - apply roundZ_high. exact L.
Qed.

Lemma roundZ_mono (X Y : Z) : 0 <= X -> X <= Y -> roundZ X <= roundZ Y.
Proof.
  intros P L. pose proof scale_ge. pose proof (pow2_pos scale ltac:(lia)) as PS.
  destruct (Z.lt_ge_cases Y (2 ^ (scale + 52))) as [HY|HY].
  - rewrite !roundZ_low by lia. apply fixed_le. apply Z.div_le_mono; lia.
  - rewrite (roundZ_high Y HY).
    destruct (Z.lt_ge_cases X (2 ^ (scale + 52))) as [HX|HX].
    + rewrite roundZ_low by lia.
      pose proof (half_up_bound X ltac:(lia)) as [_ B].
      unfold fixed. rewrite Z.pow_add_r in HY by lia. nia.
    + rewrite roundZ_high by exact HX. exact L.
Qed.

(** A representable number of the size of an integer is a multiple of the unit. *)
Lemma representable_divides (X a : Z) :
  representable X -> scale - 1074 <= a - 52 -> 2 ^ a <= X -> X mod 2 ^ (a - 52) = 0.
Proof.
  intros [P R] A L. pose proof scale_ge.
  pose proof (pow2_pos a ltac:(lia)).
  assert (G : a - 52 <= grid X).
  { unfold grid. assert (a <= Z.log2 X) by (apply Z.log2_le_pow2; lia). lia. }
  revert R G. generalize (grid X). intros g R G.
  apply Z.mod_divide in R; [|pose proof (pow2_pos g); lia].
  destruct R as [t ->].
  rewrite (pow2_split (a - 52) g) by lia. rewrite Z.mul_assoc.
  apply Z.mod_mul. pose proof (pow2_pos (a - 52)). lia.
Qed.

Lemma roundZ_gap (X Y k : Z) :
  0 <= X -> representable Y -> 0 <= k -> X + fixed k <= Y ->
  roundZ X + fixed k <= roundZ Y.
Proof.
  intros P R K L. pose proof scale_ge. pose proof (pow2_pos scale ltac:(lia)) as PS.
  pose proof (fixed_pos k K) as FK.
  destruct (Z.lt_ge_cases Y (2 ^ (scale + 52))) as [HY|HY].
  - rewrite !roundZ_low by lia. rewrite fixed_add. apply fixed_le.
    replace ((2 * X + 2 ^ scale) / (2 * 2 ^ scale) + k)
      with ((2 * X + 2 ^ scale + k * (2 * 2 ^ scale)) / (2 * 2 ^ scale))
      by (apply Z.div_add; lia).
    apply Z.div_le_mono; [lia|]. unfold fixed in L. nia.
  - rewrite (roundZ_high Y HY).
    destruct (Z.lt_ge_cases X (2 ^ (scale + 52))) as [HX|HX].
    + rewrite roundZ_low by lia.
      pose proof (representable_divides Y (scale + 52) R ltac:(lia) HY) as D.
      replace (scale + 52 - 52) with scale in D by lia.
      apply Z.mod_divide in D; [|lia]. destruct D as [y ->].
      rewrite fixed_add. unfold fixed in *.
      apply Z.mul_le_mono_nonneg_r; [lia|].
      assert (Q : (2 * X + 2 ^ scale) / (2 * 2 ^ scale) < y - k + 1).
      { apply Z.div_lt_upper_bound; [lia|]. nia. }
      lia.
    + rewrite roundZ_high by exact HX. exact L.
Qed.

(** ** Relative error *)

Lemma rnd_relative (X : Z) :
  2 ^ scale <= X -> 32 * rnd X <= 33 * X /\ 31 * X <= 32 * rnd X.
Proof.
  intros L. pose proof scale_ge.
  assert (G : scale - 1074 < grid X).
  { unfold grid. assert (scale <= Z.log2 X).
    { apply Z.log2_le_pow2; [pose proof (pow2_pos scale); lia | exact L]. }
    lia. }
  destruct (grid_normal X G) as [_ N].
  pose proof (rnd_error X) as [E1 E2].
  pose proof (grid_nonneg X) as G0. pose proof (pow2_pos (grid X) G0) as PG.
  rewrite Z.pow_add_r in N by lia.
  assert (16 * 2 ^ grid X <= X).
  { assert (16 <= 2 ^ 52) by (vm_compute; discriminate). nia. }
  lia.
Qed.

(** ** The spread statement *)

Lemma T_facts : representable (fixed 3000) /\ representable (fixed 6000) /\
                fixed 6000 = fixed 3000 + fixed 3000 /\ 0 < fixed 3000 /\
                fixed 6000 < overflow /\ 2 ^ (scale + 11) <= fixed 3000 /\
                fixed 3000 = 3000 * 2 ^ 41 * 2 ^ (scale - 41).
Proof.
  pose proof scale_ge. pose proof (pow2_pos scale ltac:(lia)).
  assert (S53 : 6000 <= 2 ^ 53) by (vm_compute; discriminate).
  split; [apply representable_fixed; lia|].
  split; [apply representable_fixed; lia|].
  split; [rewrite fixed_add; reflexivity|].
  split; [unfold fixed; lia|].
  split; [apply fixed_lt_overflow; lia|].
  split.
  - unfold fixed. rewrite Z.pow_add_r by lia. change (2 ^ 11) with 2048. lia.
  - unfold fixed. rewrite (pow2_split (scale - 41) scale) by lia.
    replace (scale - (scale - 41)) with 41 by lia. ring.
Qed.

Lemma spreadZ_cases (A B : Z) :
  spreadZ A B = B \/
  (B < overflow /\ rnd (B - A) < fixed 3000 /\ B - A < fixed 3000 /\
   spreadZ A B = cap (rnd (A + fixed 3000))).
Proof.
  destruct T_facts as [R3 _].
  unfold spreadZ. destruct (Z.ltb_spec B overflow) as [L|L]; cbn [andb]; [|left; reflexivity].
  destruct (Z.ltb_spec (rnd (B - A)) (fixed 3000)) as [F|F]; [|left; reflexivity].
  right. repeat split; try assumption.
  destruct (Z.lt_ge_cases (B - A) (fixed 3000)) as [Q|Q]; [exact Q|].
  pose proof (rnd_above (B - A) (fixed 3000) R3 Q). lia.
Qed.

Lemma spreadZ_ge (A B : Z) : representable B -> B <= overflow -> B <= spreadZ A B.
Proof.
  intros RB BO. destruct T_facts as [R3 _].
  destruct (spreadZ_cases A B) as [->|[L [_ [D ->]]]]; [lia|].
  unfold cap. apply Z.min_glb; [|exact BO].
  apply rnd_above; [exact RB | lia].
Qed.

Lemma spreadZ_le (A B : Z) : B <= overflow -> spreadZ A B <= overflow.
Proof.
  intros BO. destruct (spreadZ_cases A B) as [->|[_ [_ [_ ->]]]]; [exact BO | apply cap_le].
Qed.

Lemma spreadZ_representable (A B : Z) :
  representable A -> representable B -> representable (spreadZ A B).
Proof.
  intros RA RB. destruct T_facts as [R3 [_ [_ [P3 _]]]].
  destruct (spreadZ_cases A B) as [->|[_ [_ [_ ->]]]]; [exact RB|].
  apply representable_cap. apply rnd_representable. destruct RA. lia.
Qed.

(** From 3000 on, the difference of two prices that is below 3000 is computed
    exactly. *)
Lemma difference_exact (A B : Z) :
  representable A -> representable B -> A <= B ->
  fixed 3000 <= A -> B < overflow -> B - A < fixed 3000 -> rnd (B - A) = B - A.
Proof.
  intros RA RB AB LA FB D. pose proof scale_ge.
  destruct T_facts as [_ [_ [_ [P3 [_ [T11 TE]]]]]].
  pose proof (representable_divides A (scale + 11) RA ltac:(lia) ltac:(lia)) as DA.
  pose proof (representable_divides B (scale + 11) RB ltac:(lia) ltac:(lia)) as DB.
  replace (scale + 11 - 52) with (scale - 41) in * by lia.
  pose proof (pow2_pos (scale - 41) ltac:(lia)) as PP.
  apply Z.mod_divide in DA; [|lia]. apply Z.mod_divide in DB; [|lia].
  destruct DA as [a EA]. destruct DB as [b EB].
  apply rnd_id. replace (B - A) with ((b - a) * 2 ^ (scale - 41)) by (rewrite EA, EB; ring).
  apply representable_intro; [|lia].
  assert (3000 * 2 ^ 41 <= 2 ^ 53) by (vm_compute; discriminate).
  split; nia.
Qed.

Lemma spreadZ_high (A B : Z) :
  representable A -> representable B -> A <= B ->
  fixed 3000 <= A -> B < overflow ->
  (fixed 3000 <= B - A /\ spreadZ A B = B) \/
  (B - A < fixed 3000 /\ spreadZ A B = cap (rnd (A + fixed 3000))).
Proof.
  intros RA RB AB LA FB. destruct T_facts as [R3 _].
  destruct (Z.lt_ge_cases (B - A) (fixed 3000)) as [D|D].
  - right. split; [exact D|]. unfold spreadZ.
    replace (B <? overflow) with true by (symmetry; apply Z.ltb_lt; exact FB).
    rewrite (difference_exact A B RA RB AB LA FB D).
    replace (B - A <? fixed 3000) with true by (symmetry; apply Z.ltb_lt; exact D).
    reflexivity.
  - left. split; [exact D|]. unfold spreadZ.
    replace (rnd (B - A) <? fixed 3000) with false; [rewrite andb_false_r; reflexivity|].
    symmetry. apply Z.ltb_ge. apply rnd_above; assumption.
Qed.

Lemma floorsZ_min (A B : Z) : fixed 3000 <= fst (floorsZ A B).
Proof.
  unfold floorsZ. destruct (Z.ltb_spec A (fixed 3000)); cbn [fst]; lia.
Qed.

Lemma floorsZ_representable (A B : Z) :
  representable A -> representable B -> A <= overflow -> B <= overflow ->
  representable (fst (floorsZ A B)) /\ representable (snd (floorsZ A B)) /\
  fst (floorsZ A B) <= overflow /\ snd (floorsZ A B) <= overflow.
Proof.
  intros RA RB AO BO.
  destruct T_facts as [R3 [R6 [_ [_ [O6 _]]]]].
  pose proof (spreadZ_representable A B RA RB) as RS. pose proof (spreadZ_le A B BO) as LS.
  pose proof (fixed_le 3000 6000 ltac:(lia)).
  unfold floorsZ. destruct (Z.ltb_spec A (fixed 3000)); cbn [fst snd].
  - split; [exact R3|]. split.
    + destruct (Z.max_spec (spreadZ A B) (fixed 6000)) as [[_ ->]|[_ ->]]; assumption.
    + lia.
  - split; [exact RA|]. split; [exact RS|]. lia.
Qed.

Lemma cap_mono (X Y : Z) : X <= Y -> cap X <= cap Y.
Proof. unfold cap. lia. Qed.

Lemma rawZ_mono_l (N1 N2 V : Z) : 0 <= N1 <= N2 -> 0 <= V -> rawZ N1 V <= rawZ N2 V.
Proof.
  intros N P. pose proof scale_ge. pose proof (pow2_pos scale ltac:(lia)).
  unfold rawZ. apply cap_mono. apply rnd_mono.
  - apply Z.div_pos; [nia | lia].
  - apply Z.div_le_mono; [lia | nia].
Qed.

Lemma rawZ_mono_r (N V1 V2 : Z) : 0 <= N -> 0 <= V1 <= V2 -> rawZ N V1 <= rawZ N V2.
Proof.
  intros N0 P. pose proof scale_ge. pose proof (pow2_pos scale ltac:(lia)).
  unfold rawZ. apply cap_mono. apply rnd_mono.
  - apply Z.div_pos; [nia | lia].
  - apply Z.div_le_mono; [lia | nia].
Qed.

Lemma rawZ_representable (N V : Z) :
  0 <= N -> 0 <= V -> representable (rawZ N V) /\ rawZ N V <= overflow.
Proof.
  intros PN PV. pose proof scale_ge. pose proof (pow2_pos scale ltac:(lia)).
  unfold rawZ. split; [|apply cap_le].
  apply representable_cap. apply rnd_representable. apply Z.div_pos; [nia | lia].
Qed.

(** ** The floors respect the order of prices *)

Lemma floorsZ_mono (A1 B1 A2 B2 : Z) :
  representable A1 -> representable B1 -> representable A2 -> representable B2 ->
  A1 <= B1 -> B1 <= overflow -> A2 <= B2 -> B2 <= overflow ->
  A1 <= A2 -> B1 <= B2 ->
  fst (floorsZ A1 B1) <= fst (floorsZ A2 B2) /\ snd (floorsZ A1 B1) <= snd (floorsZ A2 B2).
Proof.
  intros RA1 RB1 RA2 RB2 AB1 BO1 AB2 BO2 LA LB.
  destruct T_facts as [R3 [R6 [E6 [P3 [O6 _]]]]].
  pose proof (spreadZ_ge A1 B1 RB1 BO1) as G1.
  pose proof (spreadZ_ge A2 B2 RB2 BO2) as G2.
  pose proof (spreadZ_le A1 B1 BO1) as U1.
  pose proof (spreadZ_le A2 B2 BO2) as U2.
  assert (P1 : 0 <= A1) by apply RA1.
  (* the maximum after the spread statement, below 3000 and from 3000 on *)
  assert (Low : A1 < fixed 3000 -> spreadZ A1 B1 <= Z.max (spreadZ A2 B2) (fixed 6000)).
  { intros L. destruct (spreadZ_cases A1 B1) as [->|[_ [_ [_ ->]]]]; [lia|].
    assert (rnd (A1 + fixed 3000) <= fixed 6000) by (apply rnd_below; [exact R6 | lia | lia]).
    unfold cap. lia. }
  assert (High : fixed 3000 <= A2 -> B2 < overflow ->
                 fixed 6000 <= spreadZ A2 B2 /\
                 (spreadZ A1 B1 = cap (rnd (A1 + fixed 3000)) ->
                  spreadZ A1 B1 <= spreadZ A2 B2)).
  { intros L F.
    destruct (spreadZ_high A2 B2 RA2 RB2 AB2 L F) as [[D ->]|[D ->]].
    - split; [lia|]. intros ->.
      assert (rnd (A1 + fixed 3000) <= B2) by (apply rnd_below; [exact RB2 | lia | lia]).
      unfold cap. lia.
    - split.
      + assert (fixed 6000 <= rnd (A2 + fixed 3000)) by (apply rnd_above; [exact R6 | lia]).
        unfold cap. lia.
      + intros ->. apply cap_mono. apply rnd_mono; lia. }
  unfold floorsZ.
  destruct (Z.ltb_spec A1 (fixed 3000)) as [L1|L1];
    destruct (Z.ltb_spec A2 (fixed 3000)) as [L2|L2]; cbn [fst snd].
  - split; [lia|]. specialize (Low L1). lia.
  - split; [lia|]. specialize (Low L1).
    destruct (Z.eq_dec B2 overflow) as [EB|NB]; [lia|].
    destruct (High L2 ltac:(lia)) as [H6 _]. lia.
  - lia.
  - split; [lia|].
    destruct (spreadZ_cases A1 B1) as [E|[_ [_ [_ E]]]]; [lia|].
    destruct (Z.eq_dec B2 overflow) as [EB|NB]; [lia|].
    destruct (High L2 ltac:(lia)) as [_ H]. apply H. exact E.
Qed.

(** ** The spread of the stored bounds *)

Lemma half_representable (q : Z) :
  1 <= q <= 2 ^ 52 -> representable ((2 * q - 1) * 2 ^ (scale - 1)).
Proof.
  intros Q. pose proof scale_ge. apply representable_intro; [|lia].
  assert (2 ^ 53 = 2 * 2 ^ 52) by reflexivity. lia.
Qed.

Lemma roundZ_half (q : Z) :
  1 <= q <= 2 ^ 51 -> roundZ ((2 * q - 1) * 2 ^ (scale - 1)) = fixed q.
Proof.
  intros Q. pose proof scale_ge. pose proof (pow2_pos (scale - 1) ltac:(lia)) as PS.
  assert (E : 2 ^ scale = 2 * 2 ^ (scale - 1)) by (apply pow2_pred; lia).
  assert (P51 : 2 ^ 52 = 2 * 2 ^ 51) by reflexivity.
  rewrite roundZ_low.
  - f_equal. rewrite E.
    replace (2 * ((2 * q - 1) * 2 ^ (scale - 1)) + 2 * 2 ^ (scale - 1))
      with (q * (2 * (2 * 2 ^ (scale - 1)))) by ring.
    apply Z.div_mul. lia.
  - rewrite Z.pow_add_r by lia. rewrite E. nia.
Qed.

Lemma stored_spread (A B : Z) :
  representable A -> representable B -> A <= B -> B <= overflow ->
  (fixed 3000 <= A -> B - A < fixed 3000 -> A <= fixed 30000) ->
  roundZ (snd (floorsZ A B)) < overflow ->
  roundZ (fst (floorsZ A B)) + fixed 3000 <= roundZ (snd (floorsZ A B)).
Proof.
  intros RA RB AB BO Ratio Fin. pose proof scale_ge as SG.
  pose proof (pow2_pos scale ltac:(lia)) as PS.
  destruct T_facts as [R3 [R6 [E6 [P3 [O6 _]]]]].
  pose proof (spreadZ_representable A B RA RB) as RS.
  unfold floorsZ in *.
  destruct (Z.ltb_spec A (fixed 3000)) as [L|L]; cbn [fst snd] in *.
  - rewrite (roundZ_fixed 3000) by lia. rewrite <- E6.
    pose proof (roundZ_fixed 6000 ltac:(lia)) as F6.
    pose proof (roundZ_mono (fixed 6000) (Z.max (spreadZ A B) (fixed 6000))
                  ltac:(lia) ltac:(lia)).
    lia.
  - destruct (Z.eq_dec B overflow) as [EB|NB].
    { exfalso. pose proof (spreadZ_ge A B RB BO).
      pose proof (spreadZ_le A B BO).
      assert (E : spreadZ A B = overflow) by lia. rewrite E in Fin.
      rewrite roundZ_high in Fin; [lia|]. unfold overflow. apply pow2_le. lia. }
    destruct (spreadZ_high A B RA RB AB L ltac:(lia)) as [[D ->]|[D E]].
    + apply roundZ_gap; [lia | exact RB | lia | lia].
    + rewrite E in *. specialize (Ratio L D).
      (* the minimum is small: its rounding is a small integer *)
      assert (A30 : fixed 30000 < 2 ^ (scale + 52)).
      { unfold fixed. rewrite Z.pow_add_r by lia.
        assert (30000 < 2 ^ 52) by (vm_compute; reflexivity). nia. }
      rewrite (roundZ_low A) by lia.
      set (q := (2 * A + 2 ^ scale) / (2 * 2 ^ scale)).
      assert (Q : 2 * 2 ^ scale * q <= 2 * A + 2 ^ scale).
      { unfold q. apply Z.mul_div_le. lia. }
      assert (Q0 : 0 <= q) by (unfold q; apply Z.div_pos; lia).
      assert (Q1 : q <= 30000).
      { assert (q < 30001); [|lia]. unfold q. apply Z.div_lt_upper_bound; [lia|].
        unfold fixed in Ratio. nia. }
      rewrite fixed_add.
      assert (B51 : q + 3000 <= 2 ^ 51) by (assert (33000 <= 2 ^ 51) by (vm_compute; discriminate); lia).
      rewrite <- (roundZ_half (q + 3000)) by lia.
      assert (B52 : q + 3000 <= 2 ^ 52) by (assert (2 ^ 51 <= 2 ^ 52) by (vm_compute; discriminate); lia).
      pose proof (half_representable (q + 3000) ltac:(lia)) as RH.
      assert (HE : 2 ^ scale = 2 * 2 ^ (scale - 1)) by (apply pow2_pred; lia).
      pose proof (pow2_pos (scale - 1) ltac:(lia)) as PS1.
      assert (HA : (2 * (q + 3000) - 1) * 2 ^ (scale - 1) <= A + fixed 3000).
      { unfold fixed. rewrite HE in *. nia. }
      apply roundZ_mono; [nia|].
      apply Z.min_glb.
      * apply rnd_above; assumption.
      * assert ((2 * (q + 3000) - 1) * 2 ^ (scale - 1) < overflow); [|lia].
        unfold overflow. 
        assert (2 ^ 53 * 2 ^ (scale - 1) <= 2 ^ (1024 + scale)).
        { rewrite <- Z.pow_add_r by lia. apply pow2_le. lia. }
        assert (2 ^ 53 = 2 * 2 ^ 52) by reflexivity. nia.
Qed.

(** ** Prices in a fixed proportion *)

Section Ratio.

Variables N V1 V2 : Z.
Hypothesis N_nonneg : 0 <= N.
Hypothesis V1_nonneg : 0 <= V1.
Hypothesis low : fixed 3000 <= rawZ N V1.
Hypothesis finite : rawZ N V2 < overflow.

Lemma ratio_facts (p q : Z) :
  0 < q < p -> p * V1 <= q * V2 ->
  exists X1 X2,
    p * X1 <= q * X2 + (q - 1) /\
    32 * rawZ N V1 <= 33 * X1 /\ 31 * X2 <= 32 * rawZ N V2 /\ 2 ^ scale <= X1.
Proof.
  intros PQ R. pose proof scale_ge as SG. pose proof (pow2_pos scale ltac:(lia)) as PS.
  destruct T_facts as [R3 [_ [_ [P3 _]]]].
  assert (V12 : V1 <= V2) by nia.
  assert (M : rawZ N V1 <= rawZ N V2) by (apply rawZ_mono_r; lia).
  set (X1 := N * V1 / 2 ^ scale). set (X2 := N * V2 / 2 ^ scale).
  assert (D1 : 2 ^ scale * X1 <= N * V1 < 2 ^ scale * X1 + 2 ^ scale).
  { unfold X1. pose proof (Z.div_mod (N * V1) (2 ^ scale) ltac:(lia)).
    pose proof (Z.mod_pos_bound (N * V1) (2 ^ scale) PS). lia. }
  assert (D2 : 2 ^ scale * X2 <= N * V2 < 2 ^ scale * X2 + 2 ^ scale).
  { unfold X2. pose proof (Z.div_mod (N * V2) (2 ^ scale) ltac:(lia)).
    pose proof (Z.mod_pos_bound (N * V2) (2 ^ scale) PS). lia. }
  assert (P1 : 0 <= X1) by (unfold X1; apply Z.div_pos; [nia | lia]).
  assert (P2 : 0 <= X2) by (unfold X2; apply Z.div_pos; [nia | lia]).
  assert (A1 : rawZ N V1 = rnd X1).
  { unfold rawZ, cap in *. fold X1 in M, low |- *. fold X2 in M, finite. lia. }
  assert (A2 : rawZ N V2 = rnd X2).
  { unfold rawZ, cap in *. fold X2 in finite |- *. lia. }
  assert (L1 : 2 ^ scale <= X1).
  { destruct (Z.lt_ge_cases X1 (2 ^ scale)) as [C|C]; [|exact C]. exfalso.
    assert (rnd X1 <= fixed 1).
    { apply rnd_below; [apply representable_fixed; split; [lia | vm_compute; discriminate]
                       | lia | unfold fixed; lia]. }
    unfold fixed in *. lia. }
  assert (PX : p * X1 <= q * X2 + (q - 1)).
  { assert (p * (2 ^ scale * X1) < q * (2 ^ scale * X2 + 2 ^ scale)) by nia.
    assert (p * X1 < q * X2 + q) by nia. lia. }
  assert (L2 : 2 ^ scale <= X2) by nia.
  exists X1, X2. split; [exact PX|].
  rewrite A1, A2.
  pose proof (rnd_relative X1 L1) as [E1 _].
  pose proof (rnd_relative X2 L2) as [_ E2].
  repeat split; assumption.
Qed.

(** Maximum against minimum: the rates are in a proportion of 3 to 2 at
    least. *)
Lemma ratio_3_2 : 3 * V1 <= 2 * V2 -> 10 * rawZ N V1 <= 9 * rawZ N V2.
Proof.
  intros R. destruct (ratio_facts 3 2 ltac:(lia) R) as [X1 [X2 [PX [E1 [E2 L1]]]]].
  pose proof scale_ge. assert (2 <= 2 ^ scale).
  { change 2 with (2 ^ 1) at 1. apply pow2_le. lia. }
  lia.
Qed.


End Ratio.

Lemma wide_dbl (x : float) (W : Z) :
  wide x = Some W -> dbl x (W * 2 ^ (scale - 60)).
Proof.
  unfold wide. destruct (Prim2SF x) as [s|s| |s m e] eqn:E; try discriminate.
  destruct s; [discriminate|].
  destruct ((-60 <=? e) && (e <=? 0)) eqn:B; [|discriminate].
  apply andb_true_iff in B. destruct B as [B1 B2].
  apply Z.leb_le in B1. apply Z.leb_le in B2.
  intros H. apply (f_equal (fun o => match o with Some w => w | None => 0 end)) in H.
  cbv beta iota in H. subst W. pose proof scale_ge.
  rewrite <- Z.mul_assoc. rewrite <- Z.pow_add_r by lia.
  replace (e + 60 + (scale - 60)) with (e + scale) by lia.
  apply dbl_decode. exact E.
Qed.

Lemma unit_split : 2 ^ scale = 2 ^ 60 * 2 ^ (scale - 60).
Proof.
  pose proof scale_ge. rewrite <- Z.pow_add_r by lia.
  replace (60 + (scale - 60)) with scale by lia. reflexivity.
Qed.

(** ** What [parseInt] reads, in both arithmetics *)

Lemma digitValue_nonneg (radix : Z) (c : ascii) (d : Z) :
  digitValue radix c = Some d -> 0 <= d.
Proof.
  unfold digitValue.
  set (n := Z.of_nat (nat_of_ascii c)).
  destruct ((48 <=? n) && (n <=? 57)) eqn:C1.
  { apply andb_true_iff in C1. destruct C1 as [C1 _]. apply Z.leb_le in C1.
    destruct (n - 48 <? radix); [|discriminate]. intros H. injection H as <-. lia. }
  destruct ((97 <=? n) && (n <=? 122)) eqn:C2.
  { apply andb_true_iff in C2. destruct C2 as [C2 _]. apply Z.leb_le in C2.
    destruct (n - 87 <? radix); [|discriminate]. intros H. injection H as <-. lia. }
  destruct ((65 <=? n) && (n <=? 90)) eqn:C3.
  { apply andb_true_iff in C3. destruct C3 as [C3 _]. apply Z.leb_le in C3.
    destruct (n - 55 <? radix); [|discriminate]. intros H. injection H as <-. lia. }
  rewrite Z.ltb_irrefl. discriminate.
Qed.

Lemma digits_nonneg (radix : Z) (s : string) :
  0 <= radix ->
  forall acc z, (forall a, acc = Some a -> 0 <= a) ->
                digits radix s acc = Some z -> 0 <= z.
Proof.
  intros R. induction s as [|c r IH]; intros acc z A; cbn [digits].
  - intros ->. apply A. reflexivity.
  - destruct (digitValue radix c) as [d|] eqn:D.
    + apply IH. intros a H. injection H as <-.
      pose proof (digitValue_nonneg radix c d D).
      destruct acc as [a|]; [specialize (A a eq_refl); nia | lia].
    + intros ->. apply A. reflexivity.
Qed.

Lemma parseInt_signed (s : string) (n : Z) :
  parseInt (num:=exact) s = Rat (inject_Z n) ->
  exists z, 0 <= z /\
    ((n = z /\ parseInt (num:=float) s = Binary64.of_Z z) \/
     (n = - z /\ parseInt (num:=float) s = PrimFloat.opp (Binary64.of_Z z))).
Proof.
  unfold parseInt. intros H. revert H.
  match goal with
  | |- context [match ?M with (_, _) => _ end] => destruct M as [negative s1]
  end.
  match goal with
  | |- context [match ?M with (_, _) => _ end] => destruct M as [radix s2] eqn:RD
  end.
  assert (R0 : 0 <= radix).
  { revert RD. repeat match goal with
                      | |- context [match ?x with _ => _ end] => destruct x
                      end; intros H; injection H as <- _; lia. }
  destruct (digits radix s2 None) as [z|] eqn:D; [|discriminate].
  pose proof (digits_nonneg radix s2 R0 None z ltac:(discriminate) D) as Z0.
  cbn [neg of_Z exact_number binary64 exact_neg].
  destruct negative.
  - intros H. exists z. split; [exact Z0|]. right. split; [|reflexivity].
    assert (H' : Qred (- inject_Z z) = inject_Z n) by congruence.
    pose proof (Qred_correct (- inject_Z z)) as C. rewrite H' in C.
    unfold Qeq in C. cbn in C. lia.
  - intros H. exists z. split; [exact Z0|]. left. split; [|reflexivity]. assert (H' : inject_Z z = inject_Z n) by congruence.
    unfold inject_Z in H'. congruence.
Qed.

Lemma parseInt_binary64 (s : string) (n : Z) :
  parseInt (num:=exact) s = Rat (inject_Z n) -> 0 < n ->
  parseInt (num:=float) s = Binary64.of_Z n.
Proof.
  intros H P. destruct (parseInt_signed s n H) as [z [Z0 [[E F]|[E _]]]]; [|lia].
  subst z. exact F.
Qed.

(** ** The multipliers of a complete form *)

Lemma member_In (x : float) (l : list float) : member x l = true -> In x l.
Proof.
  unfold member. intros H. apply existsb_exists in H. destruct H as [y [I E]].
  apply FloatAxioms.Leibniz.eqb_spec in E. subst y. exact I.
Qed.

Lemma paint_value_in (fd : FormData) :
  In (paintTier fd) [ "standard"; "premium"; "designer" ] ->
  In (ToNumber (paintMultiplier (num:=float) fd)) paint_values.
Proof.
  unfold paintMultiplier. simpl In.
  intros [E|[E|[E|[]]]]; rewrite <- E; vm_compute; auto.
Qed.

Lemma difficulty_value_in (fd : FormData) :
  In (difficultyLevel fd) [ "basic"; "standard"; "moderate"; "complex"; "high_difficulty" ] ->
  In (ToNumber (difficultyMultiplier (num:=float) fd)) difficulty_values.
Proof.
  unfold difficultyMultiplier. simpl In.
  intros [E|[E|[E|[E|[E|[]]]]]]; rewrite <- E; vm_compute; auto 6.
Qed.

Lemma surfaceMultiplier_of_bits (num : Type) (N : JSNumber num) (type : string) (ne : bool)
    (sel : string -> bool) :
  surfaceMultiplier_of (num:=num) type ne sel
  = surfaceMultiplier_of type ne (pick surface_ids (map sel surface_ids)).
Proof.
  unfold surfaceMultiplier_of, interior_closed, exterior_closed, both_closed, hardest,
    any_primary.
  rewrite !(@pick_ids sel "walls"), !(@pick_ids sel "ceilings"), !(@pick_ids sel "trim"),
    !(@pick_ids sel "wood_siding"), !(@pick_ids sel "vinyl_siding"),
    !(@pick_ids sel "cement"), !(@pick_ids sel "stucco"), !(@pick_ids sel "brick")
    by (simpl; auto 10).
  reflexivity.
Qed.

Lemma offered_valid (fd : FormData) :
  valid_surfaces fd ->
  offered (projectType fd) (map (includes (surfaces fd)) surface_ids) = true.
Proof.
  intros [_ F]. unfold offered. apply forallb_forall. intros k I.
  rewrite (@pick_ids (includes (surfaces fd)) k I).
  destruct (includes (surfaces fd) k) eqn:S; [|reflexivity]. cbn [implb].
  apply includes_In in S. rewrite Forall_forall in F. apply includes_In. apply F. exact S.
Qed.

Lemma nonempty_bits (fd : FormData) :
  valid_surfaces fd ->
  nonempty (surfaces fd)
  = existsb (fun b => b) (map (includes (surfaces fd)) surface_ids).
Proof.
  intros [T F]. destruct (surfaces fd) as [|a l] eqn:E; [reflexivity|].
  cbn [nonempty]. symmetry. apply existsb_exists. exists true. split; [|reflexivity].
  rewrite <- E. apply in_map_iff. exists a. split.
  - apply includes_In. rewrite E. left. reflexivity.
  - rewrite Forall_forall in F. specialize (F a (or_introl eq_refl)).
    simpl in T. destruct T as [T|[T|[T|[]]]]; rewrite <- T in F; simpl in F;
      simpl; intuition.
Qed.

Lemma surface_values_complete :
  forallb (fun type =>
    forallb (fun bs =>
      implb (offered type bs)
            (member (surfaceMultiplier_of type (existsb (fun b => b) bs) (pick surface_ids bs))
                    surface_values))
      (all_bits 8))
    [ "interior"; "exterior"; "both" ] = true.
Proof. vm_compute. reflexivity. Qed.

Lemma surface_value_in (fd : FormData) :
  valid_surfaces fd -> In (surfaceMultiplier (num:=float) fd) surface_values.
Proof.
  intros V. rewrite surfaceMultiplier_binary64.
  rewrite (nonempty_bits fd V). rewrite surfaceMultiplier_of_bits.
  pose proof surface_values_complete as C.
  apply forallb_In with (x := projectType fd) in C; [|apply V].
  apply forallb_In with (x := map (includes (surfaces fd)) surface_ids) in C;
    [|exact (all_bits_complete (map (includes (surfaces fd)) surface_ids) eq_refl)].
  rewrite (offered_valid fd V) in C. cbn [implb] in C.
  apply member_In. exact C.
Qed.

(** ** The band per square foot of a complete form *)

Lemma bands_ok :
  forallb (fun f =>
    forallb (fun p =>
      forallb (fun d =>
        forallb (fun s => band_ok (base_of f p d s)) surface_values)
        difficulty_values)
      paint_values)
    [ App_js; part_000 ] = true.
Proof. vm_compute. reflexivity. Qed.

Lemma base_band (f : source_file) (fd : FormData) :
  valid_surfaces fd ->
  In (paintTier fd) [ "standard"; "premium"; "designer" ] ->
  In (difficultyLevel fd) [ "basic"; "standard"; "moderate"; "complex"; "high_difficulty" ] ->
  band_ok (base f fd) = true.
Proof.
  intros VS VT VD.
  change (base f fd) with (base_of f (ToNumber (paintMultiplier fd))
                             (ToNumber (difficultyMultiplier fd)) (surfaceMultiplier fd)).
  pose proof bands_ok as C.
  apply forallb_In with (x := f) in C; [|destruct f; simpl; auto].
  apply forallb_In with (x := ToNumber (paintMultiplier fd)) in C;
    [|apply paint_value_in; exact VT].
  apply forallb_In with (x := ToNumber (difficultyMultiplier fd)) in C;
    [|apply difficulty_value_in; exact VD].
  apply forallb_In with (x := surfaceMultiplier fd) in C; [|apply surface_value_in; exact VS].
  exact C.
Qed.

Lemma band_image (b : float * float) :
  band_ok b = true ->
  dbl (fst b) (image (fst b)) /\ dbl (snd b) (image (snd b)) /\
  2 ^ scale <= image (fst b) /\ 3 * image (fst b) <= 2 * image (snd b) /\
  image (snd b) <= 2 ^ (scale + 10).
Proof.
  unfold band_ok, image. destruct (wide (fst b)) as [lo|] eqn:L; [|discriminate].
  destruct (wide (snd b)) as [hi|] eqn:H; [|discriminate].
  intros B. apply andb_true_iff in B. destruct B as [B B3].
  apply andb_true_iff in B. destruct B as [B1 B2].
  apply Z.leb_le in B1. apply Z.leb_le in B2. apply Z.leb_le in B3.
  pose proof scale_ge. pose proof (pow2_pos (scale - 60) ltac:(lia)) as PS.
  split; [apply wide_dbl; exact L|]. split; [apply wide_dbl; exact H|].
  rewrite unit_split. split; [nia|]. split; [nia|].
  replace (scale + 10) with (70 + (scale - 60)) by lia.
  rewrite Z.pow_add_r by lia. nia.
Qed.

Lemma pow_lt_overflow (a : Z) : 0 <= a -> a < 1024 + scale -> 2 ^ a < overflow.
Proof. intros P L. unfold overflow. apply pow2_lt. lia. Qed.

Lemma valid_band (f : source_file) (fd : FormData) (n : Z) :
  valid fd n -> band_ok (base f fd) = true.
Proof. intros [VS [VT [VD _]]]. apply base_band; assumption. Qed.

Lemma valid_rates (f : source_file) (fd : FormData) (n : Z) :
  valid fd n ->
  dbl (fst (base f fd)) (minZ f fd) /\ dbl (snd (base f fd)) (maxZ f fd) /\
  2 ^ scale <= minZ f fd /\ 3 * minZ f fd <= 2 * maxZ f fd /\
  maxZ f fd <= 2 ^ (scale + 10).
Proof. intros V. apply band_image. exact (valid_band f fd n V). Qed.

Lemma sqftZ_facts (n : Z) :
  0 <= n -> dbl (Binary64.of_Z n) (sqftZ n) /\ representable (sqftZ n) /\ 0 <= sqftZ n.
Proof.
  intros P. pose proof (dbl_of_Z n P) as D. split; [exact D|].
  destruct D as [_ [R _]]. split; [exact R | apply R].
Qed.

Lemma sqftZ_mono (n1 n2 : Z) : 0 <= n1 -> n1 <= n2 -> sqftZ n1 <= sqftZ n2.
Proof.
  intros P L. unfold sqftZ. apply cap_mono. apply rnd_mono.
  - apply fixed_pos. exact P.
  - apply fixed_le. exact L.
Qed.

Lemma sqftZ_exact (n : Z) : 0 <= n <= 2 ^ 53 -> sqftZ n = fixed n.
Proof.
  intros B. unfold sqftZ. rewrite rnd_id by (apply representable_fixed; exact B).
  apply cap_id. pose proof (fixed_lt_overflow n ltac:(lia)). lia.
Qed.

(** The prices first computed. *)
Lemma raw_dbl (f : source_file) (fd : FormData) (n : Z) :
  valid fd n ->
  dbl (fst (raw f fd)) (fst (rawsZ f fd n)) /\
  dbl (snd (raw f fd)) (snd (rawsZ f fd n)) /\
  fst (rawsZ f fd n) <= snd (rawsZ f fd n).
Proof.
  intros V. destruct (valid_rates f fd n V) as [D1 [D2 [L1 [L2 L3]]]].
  destruct V as [_ [_ [_ [P N]]]].
  pose proof scale_ge as SG. pose proof (pow2_pos scale ltac:(lia)) as PS.
  pose proof (pow_lt_overflow (scale + 10) ltac:(lia) ltac:(lia)) as O.
  destruct (sqftZ_facts n ltac:(lia)) as [DN [RN PN]].
  unfold rawsZ, raw. rewrite (parseInt_binary64 _ n P ltac:(lia)).
  unfold minZ, maxZ in *. destruct (base f fd) as [bl bh]. cbn [fst snd] in *.
  split; [apply dbl_mul; [exact DN | exact D1 | lia]|].
  split; [apply dbl_mul; [exact DN | exact D2 | lia]|].
  apply rawZ_mono_r; lia.
Qed.

Lemma rawsZ_facts (f : source_file) (fd : FormData) (n : Z) :
  valid fd n ->
  representable (fst (rawsZ f fd n)) /\ representable (snd (rawsZ f fd n)) /\
  fst (rawsZ f fd n) <= snd (rawsZ f fd n) /\ snd (rawsZ f fd n) <= overflow.
Proof.
  intros V. destruct (raw_dbl f fd n V) as [[_ [R1 _]] [[_ [R2 O2]] L]].
  split; [exact R1|]. split; [exact R2|]. split; assumption.
Qed.

Lemma guard_valid (fd : FormData) (n : Z) :
  valid fd n ->
  (projectType fd === "") || (squareFootage fd === "") || (paintTier fd === "") = false.
Proof.
  intros [VS [VT [_ [N _]]]].
  assert (G1 : (projectType fd === "") = false).
  { destruct VS as [T _]. simpl in T.
    destruct T as [T|[T|[T|[]]]]; rewrite <- T; reflexivity. }
  assert (G2 : (squareFootage fd === "") = false).
  { destruct (squareFootage fd); [|reflexivity]. vm_compute in N. discriminate N. }
  assert (G3 : (paintTier fd === "") = false).
  { simpl in VT. destruct VT as [T|[T|[T|[]]]]; rewrite <- T; reflexivity. }
  rewrite G1, G2, G3. reflexivity.
Qed.

(** What [calculateEstimate] stores in binary64 for a complete form. *)
Lemma stored_dbl (f : source_file) (fd : FormData) (n : Z) (st : option (Estimate float)) :
  valid fd n ->
  calculateEstimate f fd st = Some (result f fd) /\
  dbl (min (result f fd)) (fst (estimateZ f fd n)) /\
  dbl (max (result f fd)) (snd (estimateZ f fd n)).
Proof.
  intros V. split.
  { unfold calculateEstimate. rewrite (guard_valid fd n V). reflexivity. }
  destruct (raw_dbl f fd n V) as [DA [DB L]].
  unfold result, estimateZ.
  destruct (raw f fd) as [a b]. cbn [fst snd] in DA, DB.
  destruct (floors_dbl a b _ _ DA DB L) as [F1 F2].
  destruct (absolute_floor (spread_floor (a, b))) as [x y]. cbn [fst snd min max] in *.
  split; apply dbl_round; assumption.
Qed.

Lemma estimateZ_facts (f : source_file) (fd : FormData) (n : Z) :
  valid fd n ->
  fixed 3000 <= fst (estimateZ f fd n) /\
  fst (estimateZ f fd n) <= overflow /\ snd (estimateZ f fd n) <= overflow.
Proof.
  intros V. destruct (stored_dbl f fd n None V) as [_ [[_ [_ O1]] [_ [_ O2]]]].
  split; [|split; assumption].
  unfold estimateZ. cbn [fst].
  rewrite <- (roundZ_fixed 3000) at 1 by lia.
  apply roundZ_mono; [apply fixed_pos; lia | apply floorsZ_min].
Qed.

(** The order of the stored bounds follows that of the square footage and of
    the rates. *)
Lemma estimateZ_mono (f1 f2 : source_file) (fd1 fd2 : FormData) (n1 n2 : Z) :
  valid fd1 n1 -> valid fd2 n2 -> n1 <= n2 ->
  minZ f1 fd1 <= minZ f2 fd2 -> maxZ f1 fd1 <= maxZ f2 fd2 ->
  fst (estimateZ f1 fd1 n1) <= fst (estimateZ f2 fd2 n2) /\
  snd (estimateZ f1 fd1 n1) <= snd (estimateZ f2 fd2 n2).
Proof.
  intros V1 V2 L Lmin Lmax.
  destruct (rawsZ_facts f1 fd1 n1 V1) as [RA1 [RB1 [AB1 BO1]]].
  destruct (rawsZ_facts f2 fd2 n2 V2) as [RA2 [RB2 [AB2 BO2]]].
  destruct (valid_rates f1 fd1 n1 V1) as [_ [_ [M1 [M1' _]]]].
  destruct (valid_rates f2 fd2 n2 V2) as [_ [_ [M2 [M2' _]]]].
  pose proof scale_ge as SG. pose proof (pow2_pos scale ltac:(lia)) as PS.
  assert (N1 : 100 <= n1) by apply V1.
  destruct (sqftZ_facts n1 ltac:(lia)) as [_ [_ P1]].
  pose proof (sqftZ_mono n1 n2 ltac:(lia) L) as SM.
  assert (LA : fst (rawsZ f1 fd1 n1) <= fst (rawsZ f2 fd2 n2)).
  { cbn [rawsZ fst]. etransitivity; [apply rawZ_mono_l | apply rawZ_mono_r]; lia. }
  assert (LB : snd (rawsZ f1 fd1 n1) <= snd (rawsZ f2 fd2 n2)).
  { cbn [rawsZ snd]. etransitivity; [apply rawZ_mono_l | apply rawZ_mono_r]; lia. }
  destruct (floorsZ_mono _ _ _ _ RA1 RB1 RA2 RB2 AB1 BO1 AB2 BO2 LA LB) as [F1 F2].
  pose proof (floorsZ_min (fst (rawsZ f1 fd1 n1)) (snd (rawsZ f1 fd1 n1))) as Fm.
  destruct T_facts as [_ [_ [_ [P3 _]]]].
  destruct (floorsZ_representable _ _ RA1 RB1 ltac:(lia) BO1) as [_ [[Q _] _]].
  unfold estimateZ. cbn [fst snd]. split; apply roundZ_mono; lia.
Qed.

Lemma stored_le (f1 f2 : source_file) (fd1 fd2 : FormData) (n1 n2 : Z)
    (st1 st2 : option (Estimate float)) :
  valid fd1 n1 -> valid fd2 n2 -> n1 <= n2 ->
  minZ f1 fd1 <= minZ f2 fd2 -> maxZ f1 fd1 <= maxZ f2 fd2 ->
  exists r1 r2,
    calculateEstimate f1 fd1 st1 = Some r1 /\
    calculateEstimate f2 fd2 st2 = Some r2 /\
    PrimFloat.leb (min r1) (min r2) = true /\
    PrimFloat.leb (max r1) (max r2) = true.
Proof.
  intros V1 V2 L Lmin Lmax.
  destruct (stored_dbl f1 fd1 n1 st1 V1) as [C1 [D1 E1]].
  destruct (stored_dbl f2 fd2 n2 st2 V2) as [C2 [D2 E2]].
  destruct (estimateZ_mono f1 f2 fd1 fd2 n1 n2 V1 V2 L Lmin Lmax) as [M1 M2].
  exists (result f1 fd1), (result f2 fd2).
  split; [exact C1|]. split; [exact C2|].
  rewrite (dbl_leb _ _ _ _ D1 D2), (dbl_leb _ _ _ _ E1 E2).
  split; apply Z.leb_le; assumption.
Qed.

Lemma dbl_infinity : dbl infinity overflow.
Proof.
  split; [|split; [apply representable_overflow | lia]].
  rewrite encode_infinite by lia. reflexivity.
Qed.

Lemma cap_below (X : Z) : cap X <= X.
Proof. unfold cap. lia. Qed.

Lemma three_thousand : Binary64.of_Z 3000 = 3000%float.
Proof. vm_compute. reflexivity. Qed.

Lemma dbl_3000' : dbl 3000%float (fixed 3000).
Proof. rewrite <- three_thousand. exact dbl_3000. Qed.

(** C4 in binary64. *)
Lemma floor_binary64 (f : source_file) (fd : FormData) (n : Z) (st : option (Estimate float)) :
  valid fd n ->
  exists r, calculateEstimate f fd st = Some r /\ PrimFloat.leb 3000 (min r) = true.
Proof.
  intros V. destruct (stored_dbl f fd n st V) as [C [D _]].
  destruct (estimateZ_facts f fd n V) as [L _].
  exists (result f fd). split; [exact C|].
  rewrite (dbl_leb _ _ _ _ dbl_3000' D). apply Z.leb_le. exact L.
Qed.

(** Up to 2^53 square feet nothing overflows. *)
Lemma estimateZ_finite (f : source_file) (fd : FormData) (n : Z) :
  valid fd n -> n <= 2 ^ 53 -> snd (estimateZ f fd n) < overflow.
Proof.
  intros V L. assert (N : 100 <= n) by apply V.
  destruct (valid_rates f fd n V) as [_ [_ [M1 [M2 M3]]]].
  destruct (rawsZ_facts f fd n V) as [RA [RB [AB BO]]].
  pose proof scale_ge as SG. pose proof (pow2_pos scale ltac:(lia)) as PS.
  destruct T_facts as [R3 [R6 [E6 [P3 [O6 [T11 _]]]]]].
  set (T := 2 ^ (scale + 63)).
  assert (RT : representable T) by (apply representable_pow; lia).
  assert (RT' : representable (2 * T)).
  { unfold T. rewrite <- pow2_succ by lia. apply representable_pow. lia. }
  assert (OT : 2 * T < overflow).
  { unfold T. rewrite <- pow2_succ by lia. apply pow_lt_overflow; lia. }
  assert (T3 : fixed 6000 <= T).
  { unfold T, fixed. replace (scale + 63) with (63 + scale) by lia.
    rewrite Z.pow_add_r by lia. assert (6000 <= 2 ^ 63) by (vm_compute; discriminate). nia. }
  assert (B : snd (rawsZ f fd n) <= T).
  { cbn [rawsZ snd]. unfold rawZ. rewrite sqftZ_exact by lia.
    etransitivity; [apply cap_below|].
    assert (0 <= maxZ f fd) by lia. pose proof (fixed_pos n ltac:(lia)).
    apply rnd_below; [exact RT | apply Z.div_pos; [apply Z.mul_nonneg_nonneg; lia | lia]|].
    unfold fixed. replace (n * 2 ^ scale * maxZ f fd) with (n * maxZ f fd * 2 ^ scale) by ring.
    rewrite Z.div_mul by lia. unfold T.
    replace (scale + 63) with (53 + (scale + 10)) by lia.
    rewrite Z.pow_add_r by lia. pose proof (pow2_pos 53 ltac:(lia)). nia. }
  assert (S : spreadZ (fst (rawsZ f fd n)) (snd (rawsZ f fd n)) <= 2 * T).
  { destruct (spreadZ_cases (fst (rawsZ f fd n)) (snd (rawsZ f fd n)))
      as [->|[_ [_ [_ ->]]]]; [lia|].
    etransitivity; [apply cap_below|].
    apply rnd_below; [exact RT' | destruct RA; lia | lia]. }
  assert (F : snd (floorsZ (fst (rawsZ f fd n)) (snd (rawsZ f fd n))) <= 2 * T).
  { unfold floorsZ. destruct (_ <? _); cbn [snd]; lia. }
  destruct (floorsZ_representable _ _ RA RB ltac:(lia) BO) as [_ [[Q _] _]].
  unfold estimateZ. cbn [snd].
  apply Z.le_lt_trans with (m := roundZ (2 * T)); [apply roundZ_mono; assumption|].
  rewrite roundZ_high; [exact OT|].
  unfold T. rewrite <- pow2_succ by lia. apply pow2_le. lia.
Qed.

(** C5 in binary64: the spread is kept when the stored maximum is finite. *)
Lemma estimateZ_spread (f : source_file) (fd : FormData) (n : Z) :
  valid fd n -> snd (estimateZ f fd n) < overflow ->
  fst (estimateZ f fd n) + fixed 3000 <= snd (estimateZ f fd n).
Proof.
  intros V Fin. assert (N : 100 <= n) by apply V.
  destruct (valid_rates f fd n V) as [_ [_ [M1 [M2 M3]]]].
  destruct (rawsZ_facts f fd n V) as [RA [RB [AB BO]]].
  pose proof scale_ge as SG. pose proof (pow2_pos scale ltac:(lia)) as PS.
  destruct (sqftZ_facts n ltac:(lia)) as [_ [_ PN]].
  unfold estimateZ in *. cbn [fst snd] in *.
  apply stored_spread; try assumption.
  intros Lo Gap.
  assert (BF : snd (rawsZ f fd n) < overflow).
  { destruct (Z.lt_ge_cases (snd (rawsZ f fd n)) overflow) as [C|C]; [exact C|]. exfalso.
    destruct (floorsZ_representable _ _ RA RB ltac:(lia) BO) as [_ [[Q _] _]].
    assert (overflow <= snd (floorsZ (fst (rawsZ f fd n)) (snd (rawsZ f fd n)))).
    { unfold floorsZ. pose proof (spreadZ_ge (fst (rawsZ f fd n)) (snd (rawsZ f fd n)) RB BO).
      destruct (_ <? _); cbn [snd]; lia. }
    pose proof (roundZ_mono overflow _ ltac:(pose proof overflow_pos; lia) H) as R.
    rewrite (roundZ_high overflow) in R; [lia|].
    unfold overflow. apply pow2_le. lia. }
  pose proof (ratio_3_2 (sqftZ n) (minZ f fd) (maxZ f fd) PN ltac:(lia) Lo BF M2) as R.
  cbn [rawsZ fst snd] in *. unfold fixed in *. lia.
Qed.

Lemma spread_binary64 (f : source_file) (fd : FormData) (n : Z) (st : option (Estimate float)) :
  valid fd n ->
  exists r, calculateEstimate f fd st = Some r /\
    (PrimFloat.ltb (max r) infinity = true ->
     PrimFloat.leb 3000 (PrimFloat.sub (max r) (min r)) = true) /\
    (n <= 2 ^ 53 -> PrimFloat.ltb (max r) infinity = true).
Proof.
  intros V. destruct (stored_dbl f fd n st V) as [C [D1 D2]].
  destruct (estimateZ_facts f fd n V) as [L [O1 O2]].
  exists (result f fd). split; [exact C|].
  rewrite (dbl_ltb _ _ _ _ D2 dbl_infinity). split.
  - intros Fin. apply Z.ltb_lt in Fin.
    pose proof (estimateZ_spread f fd n V Fin) as S.
    destruct T_facts as [R3 [_ [_ [P3 _]]]].
    rewrite (dbl_leb _ _ _ _ dbl_3000' (dbl_sub _ _ _ _ D2 D1 ltac:(lia))).
    apply Z.leb_le. apply rnd_above; [exact R3 | lia].
  - intros B. apply Z.ltb_lt. apply estimateZ_finite; assumption.
Qed.

(** C6 in binary64. *)
Lemma monotone_binary64 (f : source_file) (fd : FormData) (s1 s2 : string) (n1 n2 : Z)
    (st1 st2 : option (Estimate float)) :
  valid (with_squareFootage fd s1) n1 ->
  valid (with_squareFootage fd s2) n2 ->
  n1 <= n2 ->
  exists r1 r2,
    calculateEstimate f (with_squareFootage fd s1) st1 = Some r1 /\
    calculateEstimate f (with_squareFootage fd s2) st2 = Some r2 /\
    PrimFloat.leb (min r1) (min r2) = true /\
    PrimFloat.leb (max r1) (max r2) = true.
Proof.
  intros V1 V2 L. apply (stored_le f f _ _ n1 n2 st1 st2 V1 V2 L); apply Z.le_refl.
Qed.








Lemma wide_le_image (x y : float) : wide_le x y = true -> image x <= image y.
Proof.
  unfold wide_le, image. destruct (wide x) as [a|]; [|discriminate].
  destruct (wide y) as [b|]; [|discriminate]. intros L. apply Z.leb_le in L.
  pose proof scale_ge. pose proof (pow2_pos (scale - 60) ltac:(lia)). nia.
Qed.

(** The band grows with each of the three multipliers. *)
Lemma bands_monotone :
  forallb (fun f =>
    forallb (fun p1 => forallb (fun p2 =>
      forallb (fun d1 => forallb (fun d2 =>
        forallb (fun s1 => forallb (fun s2 =>
          implb (PrimFloat.leb p1 p2 && PrimFloat.leb d1 d2 && PrimFloat.leb s1 s2)
                (band_le (base_of f p1 d1 s1) (base_of f p2 d2 s2)))
          surface_values) surface_values)
        difficulty_values) difficulty_values)
      paint_values) paint_values)
    [ App_js; part_000 ] = true.
Proof. vm_compute. reflexivity. Qed.

Lemma rates_monotone (f : source_file) (fd1 fd2 : FormData) (n1 n2 : Z) :
  valid fd1 n1 -> valid fd2 n2 ->
  PrimFloat.leb (ToNumber (paintMultiplier fd1)) (ToNumber (paintMultiplier fd2)) = true ->
  PrimFloat.leb (ToNumber (difficultyMultiplier fd1)) (ToNumber (difficultyMultiplier fd2))
  = true ->
  PrimFloat.leb (surfaceMultiplier fd1) (surfaceMultiplier fd2) = true ->
  minZ f fd1 <= minZ f fd2 /\ maxZ f fd1 <= maxZ f fd2.
Proof.
  intros [VS1 [VT1 [VD1 _]]] [VS2 [VT2 [VD2 _]]] LP LD LS.
  pose proof bands_monotone as C.
  apply forallb_In with (x := f) in C; [|destruct f; simpl; auto].
  apply forallb_In with (x := ToNumber (paintMultiplier fd1)) in C;
    [|apply paint_value_in; exact VT1].
  apply forallb_In with (x := ToNumber (paintMultiplier fd2)) in C;
    [|apply paint_value_in; exact VT2].
  apply forallb_In with (x := ToNumber (difficultyMultiplier fd1)) in C;
    [|apply difficulty_value_in; exact VD1].
  apply forallb_In with (x := ToNumber (difficultyMultiplier fd2)) in C;
    [|apply difficulty_value_in; exact VD2].
  apply forallb_In with (x := surfaceMultiplier fd1) in C;
    [|apply surface_value_in; exact VS1].
  apply forallb_In with (x := surfaceMultiplier fd2) in C;
    [|apply surface_value_in; exact VS2].
  rewrite LP, LD, LS in C. cbn [andb implb] in C.
  apply andb_true_iff in C. destruct C as [C1 C2].
  split; apply wide_le_image; assumption.
Qed.

Lemma stored_monotone (f : source_file) (fd1 fd2 : FormData) (n1 n2 : Z)
    (st1 st2 : option (Estimate float)) :
  valid fd1 n1 -> valid fd2 n2 ->
  n1 <= n2 ->
  PrimFloat.leb (ToNumber (paintMultiplier fd1)) (ToNumber (paintMultiplier fd2)) = true ->
  PrimFloat.leb (ToNumber (difficultyMultiplier fd1)) (ToNumber (difficultyMultiplier fd2))
  = true ->
  PrimFloat.leb (surfaceMultiplier fd1) (surfaceMultiplier fd2) = true ->
  exists r1 r2,
    calculateEstimate f fd1 st1 = Some r1 /\
    calculateEstimate f fd2 st2 = Some r2 /\
    PrimFloat.leb (min r1) (min r2) = true /\
    PrimFloat.leb (max r1) (max r2) = true.
Proof.
  intros V1 V2 L LP LD LS.
  destruct (rates_monotone f fd1 fd2 n1 n2 V1 V2 LP LD LS) as [M1 M2].
  exact (stored_le f f fd1 fd2 n1 n2 st1 st2 V1 V2 L M1 M2).
Qed.

(** X5. In binary64: of two complete forms, the one with the smaller or equal
    square footage and the smaller or equal paint multiplier, difficulty
    multiplier and surface multiplier, each as the program computes it, has
    the smaller or equal stored minimum and the smaller or equal stored
    maximum. *)
Theorem estimate_monotone (f : source_file) (fd1 fd2 : FormData) (n1 n2 : Z)
    (st1 st2 : option (Estimate float)) :
  valid fd1 n1 -> valid fd2 n2 ->
  n1 <= n2 ->
  PrimFloat.leb (ToNumber (paintMultiplier fd1)) (ToNumber (paintMultiplier fd2)) = true ->
  PrimFloat.leb (ToNumber (difficultyMultiplier fd1)) (ToNumber (difficultyMultiplier fd2))
  = true ->
  PrimFloat.leb (surfaceMultiplier fd1) (surfaceMultiplier fd2) = true ->
  exists r1 r2,
    calculateEstimate f fd1 st1 = Some r1 /\
    calculateEstimate f fd2 st2 = Some r2 /\
    PrimFloat.leb (min r1) (min r2) = true /\
    PrimFloat.leb (max r1) (max r2) = true.
Proof. apply stored_monotone. Qed.

Lemma estimate_monotone_witness :
  exists r1 r2,
    calculateEstimate App_js scenarioA (@None (Estimate float)) = Some r1 /\
    calculateEstimate App_js scenarioB (@None (Estimate float)) = Some r2 /\
    PrimFloat.leb (min r1) (min r2) = true /\
    PrimFloat.leb (max r1) (max r2) = true.
Proof.
  apply (estimate_monotone App_js scenarioA scenarioB 1000 2000 None None
           scenarioA_valid scenarioB_valid).
  - lia.
  - vm_compute. reflexivity.
  - vm_compute. reflexivity.
  - vm_compute. reflexivity.
Defined.

(** The order is that of the computed multipliers.  The selections ceilings
    (interior) and walls with ceilings (both) have the same multiplier 1.2 in
    exact arithmetic; binary64 computes 1.2000000000000002 for the first and
    1.2 for the second, and at 1115 sqft, moderate difficulty, stores the
    minimum 3011 for the first and 3010 for the second. *)
Remark equal_in_exact_arithmetic_only :
  let one := selection "interior" "1115" "standard" "moderate" [ "ceilings" ] in
  let two := selection "both" "1115" "standard" "moderate" [ "walls"; "ceilings" ] in
  surfaceMultiplier (num:=exact) one = surfaceMultiplier two /\
  PrimFloat.ltb (surfaceMultiplier two) (surfaceMultiplier one) = true /\
  option_map (@min float) (calculateEstimate App_js one None) = Some 3011%float /\
  option_map (@min float) (calculateEstimate App_js two None) = Some 3010%float.
Proof. repeat split; vm_compute; reflexivity. Qed.

(** ** Harder work is never cheaper *)

Lemma range_le_intro (f : source_file) (fd1 fd2 : FormData) :
  (exists r1 r2,
     calculateEstimate f fd1 None = Some r1 /\
     calculateEstimate f fd2 None = Some r2 /\
     PrimFloat.leb (min r1) (min r2) = true /\ PrimFloat.leb (max r1) (max r2) = true) ->
  range_le (stored f fd1) (stored f fd2).
Proof.
  intros [r1 [r2 [C1 [C2 [A B]]]]]. unfold stored. rewrite C1, C2.
  cbn [option_map range_le]. split; assumption.
Qed.

Lemma leb_refl_value (x : float) (l : list float) :
  In x l -> forallb (fun y => PrimFloat.leb y y) l = true -> PrimFloat.leb x x = true.
Proof. intros I C. exact (forallb_In _ _ x C I). Qed.

Lemma paint_refl (fd : FormData) :
  In (paintTier fd) [ "standard"; "premium"; "designer" ] ->
  PrimFloat.leb (ToNumber (paintMultiplier fd)) (ToNumber (paintMultiplier fd)) = true.
Proof.
  intros V. apply (leb_refl_value _ paint_values); [apply paint_value_in; exact V|].
  vm_compute. reflexivity.
Qed.

Lemma difficulty_refl (fd : FormData) :
  In (difficultyLevel fd) [ "basic"; "standard"; "moderate"; "complex"; "high_difficulty" ] ->
  PrimFloat.leb (ToNumber (difficultyMultiplier fd)) (ToNumber (difficultyMultiplier fd)) = true.
Proof.
  intros V. apply (leb_refl_value _ difficulty_values); [apply difficulty_value_in; exact V|].
  vm_compute. reflexivity.
Qed.

Lemma surface_refl (fd : FormData) :
  valid_surfaces fd -> PrimFloat.leb (surfaceMultiplier fd) (surfaceMultiplier fd) = true.
Proof.
  intros V. apply (leb_refl_value _ surface_values); [apply surface_value_in; exact V|].
  vm_compute. reflexivity.
Qed.

Lemma tier_step (f : source_file) (fd : FormData) (n : Z) (a b : string) :
  valid fd n ->
  In a [ "standard"; "premium"; "designer" ] -> In b [ "standard"; "premium"; "designer" ] ->
  PrimFloat.leb (ToNumber (paintMultiplier (num:=float) (with_paintTier fd a)))
                (ToNumber (paintMultiplier (with_paintTier fd b))) = true ->
  range_le (stored f (with_paintTier fd a)) (stored f (with_paintTier fd b)).
Proof.
  intros V A B L. apply range_le_intro.
  pose proof (@valid_with_paintTier fd n a V A) as Va.
  pose proof (@valid_with_paintTier fd n b V B) as Vb.
  apply (stored_monotone f _ _ n n None None Va Vb); [lia | exact L | |].
  - exact (difficulty_refl fd (proj1 (proj2 (proj2 V)))).
  - exact (surface_refl fd (proj1 V)).
Qed.

Lemma level_step (f : source_file) (fd : FormData) (n : Z) (a b : string) :
  valid fd n ->
  In a [ "basic"; "standard"; "moderate"; "complex"; "high_difficulty" ] ->
  In b [ "basic"; "standard"; "moderate"; "complex"; "high_difficulty" ] ->
  PrimFloat.leb (ToNumber (difficultyMultiplier (num:=float) (with_difficultyLevel fd a)))
                (ToNumber (difficultyMultiplier (with_difficultyLevel fd b))) = true ->
  range_le (stored f (with_difficultyLevel fd a)) (stored f (with_difficultyLevel fd b)).
Proof.
  intros V A B L. apply range_le_intro.
  pose proof (@valid_with_difficultyLevel fd n a V A) as Va.
  pose proof (@valid_with_difficultyLevel fd n b V B) as Vb.
  apply (stored_monotone f _ _ n n None None Va Vb); [lia | | exact L |].
  - exact (paint_refl fd (proj1 (proj2 V))).
  - exact (surface_refl fd (proj1 V)).
Qed.

(** X6. In binary64, with everything else fixed, both stored bounds grow, or
    stay, along the difficulty levels basic, standard, moderate, complex,
    high_difficulty and along the paint tiers standard, premium, designer. *)
Theorem harder_is_never_cheaper (f : source_file) (fd : FormData) (n : Z) :
  valid fd n ->
  let level l := stored f (with_difficultyLevel fd l) in
  let tier t := stored f (with_paintTier fd t) in
  range_le (level "basic") (level "standard") /\
  range_le (level "standard") (level "moderate") /\
  range_le (level "moderate") (level "complex") /\
  range_le (level "complex") (level "high_difficulty") /\
  range_le (tier "standard") (tier "premium") /\
  range_le (tier "premium") (tier "designer").
Proof.
  intros V level tier. unfold level, tier.
  repeat split;
    (apply (level_step f fd n _ _ V) || apply (tier_step f fd n _ _ V));
    try (simpl; auto 10; fail); vm_compute; reflexivity.
Qed.

Lemma harder_is_never_cheaper_witness :
  valid scenarioA 1000 /\
  range_le (stored App_js (with_difficultyLevel scenarioA "complex"))
           (stored App_js (with_difficultyLevel scenarioA "high_difficulty")).
Proof.
  split; [exact scenarioA_valid|].
  exact (proj1 (proj2 (proj2 (proj2
           (harder_is_never_cheaper App_js scenarioA 1000 scenarioA_valid))))).
Defined.

(** ** Checking and unchecking a surface *)

Lemma check_mono_true :
  forallb (fun type =>
    forallb (fun s =>
      forallb (fun ne => forallb (mono_at type s ne) (all_bits 8)) [ true; false ])
      (getSurfaceOptions type))
    [ "interior"; "exterior"; "both" ] = true.
Proof. vm_compute. reflexivity. Qed.

(** The closed form reads the selection at the eight surface ids only. *)
Lemma surfaceMultiplier_of_ids (num : Type) (N : JSNumber num) (type : string) (ne : bool)
    (sel sel' : string -> bool) :
  (forall k, In k surface_ids -> sel k = sel' k) ->
  surfaceMultiplier_of (num:=num) type ne sel = surfaceMultiplier_of type ne sel'.
Proof.
  intros E.
  unfold surfaceMultiplier_of, interior_closed, exterior_closed, both_closed, hardest,
    any_primary.
  rewrite !(E "walls"), !(E "ceilings"), !(E "trim"), !(E "wood_siding"),
    !(E "vinyl_siding"), !(E "cement"), !(E "stucco"), !(E "brick")
    by (simpl; auto 10).
  reflexivity.
Qed.

(** With one more offered surface in the selection the closed form is not
    smaller. *)
Lemma closed_mono (type s : string) (ne : bool) (sel : string -> bool) :
  In type [ "interior"; "exterior"; "both" ] ->
  In s (getSurfaceOptions type) ->
  PrimFloat.leb (surfaceMultiplier_of type ne (fun k => sel k && negb (k === s)))
                (surfaceMultiplier_of type true (fun k => sel k || (k === s))) = true.
Proof.
  intros T S.
  assert (N : In ne [ true; false ]) by (destruct ne; simpl; auto).
  pose proof check_mono_true as C.
  apply forallb_In with (x := type) in C; [|exact T].
  apply forallb_In with (x := s) in C; [|exact S].
  apply forallb_In with (x := ne) in C; [|exact N].
  apply forallb_In with (x := map sel surface_ids) in C;
    [|exact (all_bits_complete (map sel surface_ids) eq_refl)].
  unfold mono_at in C.
  rewrite (surfaceMultiplier_of_ids float _ type ne
             (fun k => sel k && negb (k === s))
             (fun k => pick surface_ids (map sel surface_ids) k && negb (k === s))).
  - rewrite (surfaceMultiplier_of_ids float _ type true
               (fun k => sel k || (k === s))
               (fun k => pick surface_ids (map sel surface_ids) k || (k === s))).
    + exact C.
    + intros k I. rewrite (@pick_ids sel k I). reflexivity.
  - intros k I. rewrite (@pick_ids sel k I). reflexivity.
Qed.

(** The surface multiplier before and after a surface is checked. *)
Lemma toggle_multiplier (fd : FormData) (s : string) :
  In (projectType fd) [ "interior"; "exterior"; "both" ] ->
  In s (getSurfaceOptions (projectType fd)) ->
  if includes (surfaces fd) s
  then PrimFloat.leb (surfaceMultiplier (handleSurfaceChange fd s)) (surfaceMultiplier fd) = true
  else PrimFloat.leb (surfaceMultiplier fd) (surfaceMultiplier (handleSurfaceChange fd s)) = true.
Proof.
  intros T S.
  rewrite (surfaceMultiplier_binary64 fd).
  rewrite (surfaceMultiplier_binary64 (handleSurfaceChange fd s)).
  unfold handleSurfaceChange. cbn [projectType surfaces with_surfaces].
  pose proof (closed_mono (projectType fd) s) as M.
  destruct (includes (surfaces fd) s) eqn:I.
  - specialize (M (nonempty (filter (fun x => negb (x === s)) (surfaces fd)))
                  (includes (surfaces fd)) T S).
    assert (N : nonempty (surfaces fd) = true).
    { destruct (surfaces fd); [discriminate I | reflexivity]. }
    rewrite N.
    rewrite (@surfaceMultiplier_of_ext float _ (projectType fd) true
               (includes (surfaces fd))
               (fun k => includes (surfaces fd) k || (k === s))).
    + rewrite (@surfaceMultiplier_of_ext float _ (projectType fd) _
                 (includes (filter (fun x => negb (x === s)) (surfaces fd)))
                 (fun k => includes (surfaces fd) k && negb (k === s))).
      * exact M.
      * intros k. apply includes_filter.
    + intros k. destruct (String.eqb_spec k s) as [->|_].
      * rewrite I. reflexivity.
      * rewrite orb_false_r. reflexivity.
  - specialize (M (nonempty (surfaces fd)) (includes (surfaces fd)) T S).
    assert (N : nonempty (surfaces fd ++ [ s ]) = true).
    { destruct (surfaces fd); reflexivity. }
    rewrite N.
    rewrite (@surfaceMultiplier_of_ext float _ (projectType fd) (nonempty (surfaces fd))
               (includes (surfaces fd))
               (fun k => includes (surfaces fd) k && negb (k === s))).
    + rewrite (@surfaceMultiplier_of_ext float _ (projectType fd) true
                 (includes (surfaces fd ++ [ s ]))
                 (fun k => includes (surfaces fd) k || (k === s))).
      * exact M.
      * intros k. apply includes_app.
    + intros k. destruct (String.eqb_spec k s) as [->|_].
      * rewrite I. reflexivity.
      * rewrite andb_true_r. reflexivity.
Qed.

(** X9. In binary64, on a complete form, checking one more of the surfaces
    offered for the project type never lowers either stored bound, and
    unchecking one never raises either. *)
Theorem one_more_surface (f : source_file) (fd : FormData) (n : Z) (s : string) :
  valid fd n ->
  In s (getSurfaceOptions (projectType fd)) ->
  if includes (surfaces fd) s
  then range_le (stored f (handleSurfaceChange fd s)) (stored f fd)
  else range_le (stored f fd) (stored f (handleSurfaceChange fd s)).
Proof.
  intros V S.
  pose proof (@valid_toggle fd n s V S) as V'.
  pose proof (toggle_multiplier fd s (proj1 (proj1 V)) S) as M.
  pose proof (paint_refl fd (proj1 (proj2 V))) as P.
  pose proof (difficulty_refl fd (proj1 (proj2 (proj2 V)))) as D.
  destruct (includes (surfaces fd) s); apply range_le_intro.
  - apply (stored_monotone f _ _ n n None None V' V); [lia | exact P | exact D | exact M].
  - apply (stored_monotone f _ _ n n None None V V'); [lia | exact P | exact D | exact M].
Qed.

Lemma one_more_surface_witness :
  valid scenarioA 1000 /\
  range_le (stored App_js scenarioA) (stored App_js (handleSurfaceChange scenarioA "ceilings")).
Proof.
  split; [exact scenarioA_valid|].
  apply (one_more_surface App_js scenarioA 1000 "ceilings" scenarioA_valid).
  simpl. auto.
Defined.

(** ** The floors only raise prices *)

Lemma floorsZ_raise (A B : Z) :
  representable B -> B <= overflow ->
  A <= fst (floorsZ A B) /\ B <= snd (floorsZ A B).
Proof.
  intros RB BO. pose proof (spreadZ_ge A B RB BO) as S.
  unfold floorsZ. destruct (Z.ltb_spec A (fixed 3000)); cbn [fst snd]; lia.
Qed.

Lemma raised (f : source_file) (fd : FormData) (n : Z) (st : option (Estimate float)) :
  valid fd n ->
  exists r,
    calculateEstimate f fd st = Some r /\
    PrimFloat.leb (Math_round (fst (raw f fd))) (min r) = true /\
    PrimFloat.leb (Math_round (snd (raw f fd))) (max r) = true /\
    (PrimFloat.ltb (fst (raw f fd)) 3000 = false ->
     PrimFloat.ltb (PrimFloat.sub (snd (raw f fd)) (fst (raw f fd))) 3000 = false ->
     min r = Math_round (fst (raw f fd)) /\ max r = Math_round (snd (raw f fd))).
Proof.
  intros V. destruct (stored_dbl f fd n st V) as [C [D1 D2]].
  destruct (raw_dbl f fd n V) as [DA [DB L]].
  destruct (rawsZ_facts f fd n V) as [RA [RB [_ BO]]].
  exists (result f fd). split; [exact C|].
  change (@Math_round float binary64) with Binary64.round.
  rewrite (dbl_leb _ _ _ _ (dbl_round _ _ DA) D1), (dbl_leb _ _ _ _ (dbl_round _ _ DB) D2).
  destruct (floorsZ_raise (fst (rawsZ f fd n)) (snd (rawsZ f fd n)) RB BO) as [F1 F2].
  unfold estimateZ. cbn [fst snd].
  split; [apply Z.leb_le; apply roundZ_mono; [apply RA | exact F1]|].
  split; [apply Z.leb_le; apply roundZ_mono; [apply RB | exact F2]|].
  intros Lo Wide. unfold result.
  destruct (raw f fd) as [a b]. cbn [fst snd] in Lo, Wide.
  unfold spread_floor, absolute_floor, MINIMUM_PRICING_rangeSpread,
    MINIMUM_PRICING_absoluteMin.
  cbn [lt sub add of_Z binary64].
  rewrite three_thousand, Wide, Lo. cbn [min max fst snd]. split; reflexivity.
Qed.

(** X12. The floors only raise prices, in binary64: for a complete form each
    stored bound is at least the rounded price first computed, and when the
    first minimum is not below 3000 and the difference the program computes
    between the two first prices is not below 3000, the stored range is the
    first range, rounded. *)
Theorem floors_only_raise (f : source_file) (fd : FormData) (n : Z)
    (st : option (Estimate float)) :
  valid fd n ->
  exists r,
    calculateEstimate f fd st = Some r /\
    PrimFloat.leb (Math_round (fst (raw f fd))) (min r) = true /\
    PrimFloat.leb (Math_round (snd (raw f fd))) (max r) = true /\
    (PrimFloat.ltb (fst (raw f fd)) 3000 = false ->
     PrimFloat.ltb (PrimFloat.sub (snd (raw f fd)) (fst (raw f fd))) 3000 = false ->
     min r = Math_round (fst (raw f fd)) /\ max r = Math_round (snd (raw f fd))).
Proof. apply raised. Qed.

Lemma floors_only_raise_witness :
  valid scenarioB 2000 /\
  exists r,
    calculateEstimate App_js scenarioB (@None (Estimate float)) = Some r /\
    PrimFloat.leb (Math_round (fst (raw App_js scenarioB))) (min r) = true /\
    PrimFloat.leb (Math_round (snd (raw App_js scenarioB))) (max r) = true.
Proof.
  split; [exact scenarioB_valid|].
  destruct (floors_only_raise App_js scenarioB 2000 None scenarioB_valid)
    as [r [C [A [B _]]]].
  exists r. repeat split; assumption.
Defined.

(** ** Bounds on the band *)

Lemma bands_bounded :
  forallb (fun f =>
    forallb (fun p =>
      forallb (fun d => forallb (bounded_at f p d) surface_values) difficulty_values)
      paint_values)
    [ App_js; part_000 ] = true.
Proof. vm_compute. reflexivity. Qed.

Lemma base_bounded (f : source_file) (fd : FormData) (n : Z) :
  valid fd n ->
  PrimFloat.leb (rate_min (BASE_RATES f)) (fst (base f fd)) = true /\
  PrimFloat.leb (fst (base f fd)) (snd (base f fd)) = true /\
  PrimFloat.leb (snd (base f fd)) (snd (base_of f (tenths 16) (tenths 25) (tenths 18))) = true.
Proof.
  intros [VS [VT [VD _]]].
  change (base f fd) with (base_of f (ToNumber (paintMultiplier fd))
                             (ToNumber (difficultyMultiplier fd)) (surfaceMultiplier fd)).
  pose proof bands_bounded as C.
  apply forallb_In with (x := f) in C; [|destruct f; simpl; auto].
  apply forallb_In with (x := ToNumber (paintMultiplier fd)) in C;
    [|apply paint_value_in; exact VT].
  apply forallb_In with (x := ToNumber (difficultyMultiplier fd)) in C;
    [|apply difficulty_value_in; exact VD].
  apply forallb_In with (x := surfaceMultiplier fd) in C; [|apply surface_value_in; exact VS].
  unfold bounded_at in C.
  apply andb_true_iff in C. destruct C as [C C3].
  apply andb_true_iff in C. destruct C as [C1 C2].
  split; [exact C1|]. split; assumption.
Qed.

(** X3. The surface multiplier never exceeds 1.8, whatever the form holds, in
    exact arithmetic and in binary64; and for a complete form the band per
    square foot that binary64 computes starts at the lower base rate or above,
    is in order, and ends at or below the upper rate of the dearest form
    (designer paint, high difficulty, surface multiplier 1.8). *)
Theorem band_bounds (f : source_file) (fd : FormData) (n : Z) :
  exact_le (surfaceMultiplier fd) (Rat (Qred (18 # 10))) /\
  PrimFloat.leb (surfaceMultiplier fd) (div (of_Z 18) (of_Z 10)) = true /\
  (valid fd n ->
   PrimFloat.leb (rate_min (BASE_RATES f)) (fst (base f fd)) = true /\
   PrimFloat.leb (fst (base f fd)) (snd (base f fd)) = true /\
   PrimFloat.leb (snd (base f fd))
     (mul (mul (mul (rate_max (BASE_RATES f)) (tenths 16)) (tenths 25)) (tenths 18)) = true).
Proof.
  split; [apply surfaceMultiplier_le|]. split; [apply surfaceMultiplier64_le|].
  apply base_bounded.
Qed.

Lemma band_bounds_witness :
  valid scenarioB 2000 /\
  PrimFloat.leb (rate_min (BASE_RATES App_js)) (fst (base App_js scenarioB)) = true /\
  PrimFloat.leb (fst (base App_js scenarioB)) (snd (base App_js scenarioB)) = true /\
  PrimFloat.leb (snd (base App_js scenarioB))
    (mul (mul (mul (rate_max (BASE_RATES App_js)) (tenths 16)) (tenths 25)) (tenths 18)) = true.
Proof.
  split; [exact scenarioB_valid|].
  exact (proj2 (proj2 (band_bounds App_js scenarioB 2000)) scenarioB_valid).
Defined.

(** ** An interior project with no interior surface *)

Lemma zero64 : Binary64.of_Z 0 = 0%float.
Proof. vm_compute. reflexivity. Qed.

(** A finite number times zero is zero. *)
Lemma mul_zero64 (x : float) (X : Z) :
  dbl x X -> X < overflow -> PrimFloat.mul x 0 = 0%float.
Proof.
  intros [E _] L. apply Prim2SF_inj. rewrite mul_spec, E.
  change (Prim2SF 0) with (S754_zero false).
  unfold encode. destruct (X =? 0); [reflexivity|].
  replace (overflow <=? X) with false by (symmetry; apply Z.leb_gt; exact L).
  reflexivity.
Qed.

Lemma bands_zero :
  forallb (fun f => forallb (fun p => forallb (zero_at f p) difficulty_values) paint_values)
          [ App_js; part_000 ] = true.
Proof. vm_compute. reflexivity. Qed.

Lemma sqftZ_finite (n : Z) : 0 <= n <= 2 ^ 1023 -> sqftZ n < overflow.
Proof.
  intros B. pose proof scale_ge. unfold sqftZ.
  apply Z.le_lt_trans with (m := rnd (fixed n)); [apply cap_below|].
  apply Z.le_lt_trans with (m := 2 ^ (1023 + scale)).
  - apply rnd_below; [apply representable_pow; lia | apply fixed_pos; lia|].
    unfold fixed. rewrite Z.pow_add_r by lia. pose proof (pow2_pos scale ltac:(lia)). nia.
  - apply pow_lt_overflow; lia.
Qed.

Lemma interior_none_selected64 (f : source_file) (fd : FormData) (n : Z)
    (st : option (Estimate float)) :
  projectType fd = "interior" ->
  surfaces fd <> [] ->
  includes (surfaces fd) "walls" = false ->
  includes (surfaces fd) "ceilings" = false ->
  includes (surfaces fd) "trim" = false ->
  In (paintTier fd) [ "standard"; "premium"; "designer" ] ->
  In (difficultyLevel fd) [ "basic"; "standard"; "moderate"; "complex"; "high_difficulty" ] ->
  parseInt (num:=exact) (squareFootage fd) = Rat (inject_Z n) ->
  0 < n <= 2 ^ 1023 ->
  surfaceMultiplier fd = 0%float /\
  calculateEstimate f fd st =
    Some {| min := 3000%float; max := 6000%float;
            tierName := get tierNames (paintTier fd) |}.
Proof.
  intros T N W C Tr VT VD P B.
  assert (S : surfaceMultiplier (num:=float) fd = 0%float).
  { rewrite surfaceMultiplier_interior by assumption.
    unfold interior_branch. rewrite W, C, Tr. vm_compute. reflexivity. }
  split; [exact S|].
  assert (Bs : base f fd = (0%float, 0%float)).
  { change (base f fd) with (base_of f (ToNumber (paintMultiplier fd))
                               (ToNumber (difficultyMultiplier fd)) (surfaceMultiplier fd)).
    rewrite S. pose proof bands_zero as K.
    apply forallb_In with (x := f) in K; [|destruct f; simpl; auto].
    apply forallb_In with (x := ToNumber (paintMultiplier fd)) in K;
      [|apply paint_value_in; exact VT].
    apply forallb_In with (x := ToNumber (difficultyMultiplier fd)) in K;
      [|apply difficulty_value_in; exact VD].
    unfold zero_at in K. apply andb_true_iff in K. destruct K as [K1 K2].
    apply FloatAxioms.Leibniz.eqb_spec in K1. apply FloatAxioms.Leibniz.eqb_spec in K2.
    cbn [of_Z binary64] in K1, K2. rewrite zero64 in K1, K2.
    rewrite (surjective_pairing (base_of _ _ _ _)), K1, K2. reflexivity. }
  assert (R : raw f fd = (0%float, 0%float)).
  { unfold raw. rewrite Bs, (parseInt_binary64 _ n P ltac:(lia)).
    cbn [mul binary64].
    rewrite (mul_zero64 _ _ (dbl_of_Z n ltac:(lia)) (sqftZ_finite n ltac:(lia))).
    reflexivity. }
  unfold calculateEstimate.
  assert (G2 : (squareFootage fd === "") = false).
  { destruct (squareFootage fd); [|reflexivity]. vm_compute in P. discriminate P. }
  assert (G3 : (paintTier fd === "") = false).
  { simpl in VT. destruct VT as [E|[E|[E|[]]]]; rewrite <- E; reflexivity. }
  rewrite T, G2, G3. cbn [String.eqb orb]. unfold result. rewrite R. reflexivity.
Qed.

(** X4. For project type interior, a selection that is not empty and holds
    none of walls, ceilings and trim has surface multiplier 0, and in binary64
    the stored range is 3000 to 6000 whatever the paint tier and the
    difficulty level are, for every square footage up to 2^1023. *)
Theorem interior_without_interior_surface (f : source_file) (fd : FormData) (n : Z)
    (st : option (Estimate float)) :
  projectType fd = "interior" ->
  surfaces fd <> [] ->
  includes (surfaces fd) "walls" = false ->
  includes (surfaces fd) "ceilings" = false ->
  includes (surfaces fd) "trim" = false ->
  In (paintTier fd) [ "standard"; "premium"; "designer" ] ->
  In (difficultyLevel fd) [ "basic"; "standard"; "moderate"; "complex"; "high_difficulty" ] ->
  parseInt (num:=exact) (squareFootage fd) = Rat (inject_Z n) ->
  0 < n <= 2 ^ 1023 ->
  surfaceMultiplier fd = 0%float /\
  calculateEstimate f fd st =
    Some {| min := 3000%float; max := 6000%float;
            tierName := get tierNames (paintTier fd) |}.
Proof. apply interior_none_selected64. Qed.

Lemma interior_without_interior_surface_witness :
  calculateEstimate App_js
    (selection "interior" "25000" "designer" "high_difficulty" [ "brick"; "stucco" ])
    (@None (Estimate float))
  = Some {| min := 3000%float; max := 6000%float;
            tierName := VString "Designer/Specialty Paint" |}.
Proof.
  refine (proj2 (interior_without_interior_surface App_js
            (selection "interior" "25000" "designer" "high_difficulty" [ "brick"; "stucco" ])
            25000 None _ _ _ _ _ _ _ _ _));
    try reflexivity; try discriminate; try (simpl; auto 10; fail).
  split; [lia|]. apply Z.leb_le. vm_compute. reflexivity.
Defined.

(** Beyond the range of binary64 the product with zero is NaN. *)
Remark interior_without_interior_surface_overflow :
  calculateEstimate App_js
    (selection "interior" ("1" ++ zeros 400) "designer" "high_difficulty" [ "brick" ])
    (@None (Estimate float))
  = Some {| min := nan; max := nan; tierName := VString "Designer/Specialty Paint" |}.
Proof. vm_compute. reflexivity. Qed.

(** ** Changing the project type *)

(** X25. [handleInputChange] on the project type keeps the checked surfaces.
    So when a project with only primary exterior surfaces checked is switched
    to interior, the estimate binary64 computes drops to the floors, 3000 to
    6000, whatever the paint tier and the difficulty level are, for every
    square footage up to 2^1023. *)
Theorem project_type_change_keeps_surfaces (f : source_file) (form : Form)
    (errors : Errors) (n : Z) (st : option (Estimate float)) :
  surfaces (project form) <> [] ->
  Forall (fun s => In s primary_exterior) (surfaces (project form)) ->
  In (paintTier (project form)) [ "standard"; "premium"; "designer" ] ->
  In (difficultyLevel (project form))
     [ "basic"; "standard"; "moderate"; "complex"; "high_difficulty" ] ->
  parseInt (num:=exact) (squareFootage (project form)) = Rat (inject_Z n) ->
  0 < n <= 2 ^ 1023 ->
  surfaces (project (fst (handleInputChange form errors input_projectType "interior")))
  = surfaces (project form) /\
  calculateEstimate f
    (project (fst (handleInputChange form errors input_projectType "interior"))) st
  = Some {| min := 3000%float; max := 6000%float;
            tierName := get tierNames (paintTier (project form)) |}.
Proof.
  intros N F VT VD P B. split; [reflexivity|].
  cbn [handleInputChange fst set_field with_project project].
  apply (proj2 (interior_none_selected64 f (with_projectType (project form) "interior") n st
                  eq_refl N
                  (not_primary_exterior "walls" F eq_refl)
                  (not_primary_exterior "ceilings" F eq_refl)
                  (not_primary_exterior "trim" F eq_refl)
                  VT VD P B)).
Qed.

Lemma project_type_change_keeps_surfaces_witness :
  stored App_js (project jane_exterior) = Some (240000%float, 560000%float) /\
  calculateEstimate App_js
    (project (fst (handleInputChange jane_exterior [] input_projectType "interior")))
    (@None (Estimate float))
  = Some {| min := 3000%float; max := 6000%float;
            tierName := VString "Designer/Specialty Paint" |}.
Proof.
  split; [vm_compute; reflexivity|].
  refine (proj2 (project_type_change_keeps_surfaces App_js jane_exterior []
                   25000 None _ _ _ _ _ _)).
  - discriminate.
  - repeat (apply Forall_cons; [simpl; auto 10|]). apply Forall_nil.
  - simpl. auto.
  - simpl. auto 10.
  - reflexivity.
  - split; [lia|]. apply Z.leb_le. vm_compute. reflexivity.
Defined.

(** ** The estimate of an accepted form *)

(** The opposite of a double that is not negative is below every positive
    double. *)
Lemma opp_below (x y : float) (X Y : Z) :
  dbl x X -> dbl y Y -> 0 < Y -> PrimFloat.ltb (PrimFloat.opp x) y = true.
Proof.
  intros [EX _] [EY _] P. rewrite ltb_spec, opp_spec, EX, EY.
  unfold encode. replace (Y =? 0) with false by (symmetry; apply Z.eqb_neq; lia).
  destruct (X =? 0), (overflow <=? X), (overflow <=? Y); reflexivity.
Qed.

Lemma accepted_square_footage (form : Form) (n : Z) :
  snd (validateForm (num:=float) form) = true ->
  parseInt (num:=exact) (squareFootage (project form)) = Rat (inject_Z n) ->
  100 <= n.
Proof.
  intros A P.
  destruct (accepted_fields form A) as [_ [_ [_ [_ [_ [_ [_ [L _]]]]]]]].
  cbn [lt of_Z binary64] in L.
  assert (H100 : dbl (Binary64.of_Z 100) (fixed 100)).
  { apply dbl_of_Z_exact. split; [lia|]. apply Z.leb_le. vm_compute. reflexivity. }
  assert (P100 : 0 < fixed 100).
  { pose proof scale_ge. pose proof (pow2_pos scale ltac:(lia)). unfold fixed. lia. }
  destruct (parseInt_signed _ n P) as [z [Z0 [[E F]|[E F]]]].
  - subst z. rewrite F in L.
    rewrite (dbl_ltb _ _ _ _ (dbl_of_Z n Z0) H100) in L. apply Z.ltb_ge in L.
    destruct (Z.lt_ge_cases n 100) as [C|C]; [|exact C]. exfalso.
    assert (B : 0 <= n <= 2 ^ 53).
    { split; [exact Z0|]. assert (100 <= 2 ^ 53) by (apply Z.leb_le; vm_compute; reflexivity).
      lia. }
    change (cap (rnd (fixed n))) with (sqftZ n) in L. rewrite (sqftZ_exact n B) in L.
    pose proof scale_ge. pose proof (pow2_pos scale ltac:(lia)). unfold fixed in L. nia.
  - rewrite F in L. rewrite (opp_below _ _ _ _ (dbl_of_Z z Z0) H100 P100) in L.
    discriminate L.
Qed.

Lemma accepted_estimate (f : source_file) (form : Form) (n : Z)
    (estimate : option (Estimate float)) :
  snd (validateForm (num:=float) form) = true ->
  valid (project form) n ->
  exists r,
    handleSubmit f form estimate = ([], Some r, true) /\
    PrimFloat.leb 3000 (min r) = true /\
    (PrimFloat.ltb (max r) infinity = true ->
     PrimFloat.leb 3000 (PrimFloat.sub (max r) (min r)) = true) /\
    (n <= 2 ^ 53 -> PrimFloat.ltb (max r) infinity = true).
Proof.
  intros A V.
  exists (result f (project form)).
  split; [exact (handleSubmit_accepted f form estimate A)|].
  destruct (stored_dbl f (project form) n estimate V) as [C _].
  destruct (floor_binary64 f (project form) n estimate V) as [r1 [C1 F1]].
  destruct (spread_binary64 f (project form) n estimate V) as [r2 [C2 F2]].
  rewrite C in C1, C2. injection C1 as <-. injection C2 as <-.
  split; [exact F1 | exact F2].
Qed.

(** X20. In binary64: when [validateForm] accepts a form whose square footage
    reads as the integer [n], then [n] is at least 100; if moreover the
    project type, the paint tier, the difficulty level and the surfaces are
    among those the form offers, the estimate [handleSubmit] stores has a
    minimum of at least 3000, and a maximum at least 3000 above it when that
    maximum is finite, which it is up to 2^53 square feet. *)
Theorem accepted_form_estimate (f : source_file) (form : Form) (n : Z)
    (estimate : option (Estimate float)) :
  snd (validateForm (num:=float) form) = true ->
  parseInt (num:=exact) (squareFootage (project form)) = Rat (inject_Z n) ->
  100 <= n /\
  (valid_surfaces (project form) ->
   In (paintTier (project form)) [ "standard"; "premium"; "designer" ] ->
   In (difficultyLevel (project form))
      [ "basic"; "standard"; "moderate"; "complex"; "high_difficulty" ] ->
   exists r,
     handleSubmit f form estimate = ([], Some r, true) /\
     PrimFloat.leb 3000 (min r) = true /\
     (PrimFloat.ltb (max r) infinity = true ->
      PrimFloat.leb 3000 (PrimFloat.sub (max r) (min r)) = true) /\
     (n <= 2 ^ 53 -> PrimFloat.ltb (max r) infinity = true)).
Proof.
  intros A P. pose proof (accepted_square_footage form n A P) as L.
  split; [exact L|]. intros VS VT VD.
  apply accepted_estimate; [exact A|].
  split; [exact VS|]. split; [exact VT|]. split; [exact VD|]. split; assumption.
Qed.

Lemma jane_accepted64 : snd (validateForm (num:=float) jane) = true.
Proof. vm_compute. reflexivity. Qed.

Lemma accepted_form_estimate_witness :
  100 <= 2000 /\
  exists r,
    handleSubmit App_js jane None = ([], Some r, true) /\
    PrimFloat.leb 3000 (min r) = true /\
    (PrimFloat.ltb (max r) infinity = true ->
     PrimFloat.leb 3000 (PrimFloat.sub (max r) (min r)) = true) /\
    (2000 <= 2 ^ 53 -> PrimFloat.ltb (max r) infinity = true).
Proof.
  destruct (accepted_form_estimate App_js jane 2000 None jane_accepted64 eq_refl) as [L E].
  split; [exact L|].
  apply E; [apply scenarioB_valid | simpl; auto | simpl; auto].
Defined.

(** ** A combined project blends *)

Lemma check_blend64_true :
  forallb (fun ne => forallb (blend64_at ne) (all_bits 8)) [ true; false ] = true.
Proof. vm_compute. reflexivity. Qed.

Lemma both_blends_exact (fd : FormData) :
  exact_le (surfaceMultiplier (with_projectType fd "both"))
           (Math_max2 (surfaceMultiplier (with_projectType fd "interior"))
                      (surfaceMultiplier (with_projectType fd "exterior"))).
Proof.
  rewrite !surfaceMultiplier_exact.
  cbn [projectType surfaces with_projectType].
  assert (N : In (nonempty (surfaces fd)) [ true; false ])
    by (destruct (nonempty (surfaces fd)); simpl; auto).
  pose proof check_blend_true as C.
  apply forallb_In with (x := nonempty (surfaces fd)) in C; [|exact N].
  apply forallb_In with (x := map (includes (surfaces fd)) surface_ids) in C;
    [|exact (all_bits_complete (map (includes (surfaces fd)) surface_ids) eq_refl)].
  unfold blend_at in C. apply exact_leb_le in C.
  rewrite !(surfaceMultiplier_of_bits exact _ _ _ (includes (surfaces fd))). exact C.
Qed.

Lemma both_blends_binary64 (fd : FormData) :
  PrimFloat.leb (surfaceMultiplier (with_projectType fd "both"))
                (Math_max2 (surfaceMultiplier (with_projectType fd "interior"))
                           (surfaceMultiplier (with_projectType fd "exterior"))) = true.
Proof.
  rewrite !surfaceMultiplier_binary64.
  cbn [projectType surfaces with_projectType].
  assert (N : In (nonempty (surfaces fd)) [ true; false ])
    by (destruct (nonempty (surfaces fd)); simpl; auto).
  pose proof check_blend64_true as C.
  apply forallb_In with (x := nonempty (surfaces fd)) in C; [|exact N].
  apply forallb_In with (x := map (includes (surfaces fd)) surface_ids) in C;
    [|exact (all_bits_complete (map (includes (surfaces fd)) surface_ids) eq_refl)].
  unfold blend64_at in C.
  rewrite !(surfaceMultiplier_of_bits float _ _ _ (includes (surfaces fd))). exact C.
Qed.

(** X24. For any selection, the surface multiplier of a combined project is
    at most the greater of the multipliers the same selection has as an
    interior and as an exterior project, in exact arithmetic and in binary64:
    the two domains are blended, not stacked. *)
Theorem both_blends (fd : FormData) :
  exact_le (surfaceMultiplier (with_projectType fd "both"))
           (Math_max2 (surfaceMultiplier (with_projectType fd "interior"))
                      (surfaceMultiplier (with_projectType fd "exterior"))) /\
  PrimFloat.leb (surfaceMultiplier (with_projectType fd "both"))
                (Math_max2 (surfaceMultiplier (with_projectType fd "interior"))
                           (surfaceMultiplier (with_projectType fd "exterior"))) = true.
Proof. split; [apply both_blends_exact | apply both_blends_binary64]. Qed.

(** ** How the two floors compose *)

(** A second pass through the floors changes nothing. *)
Lemma floorsZ_idempotent (A B : Z) :
  representable A -> representable B -> A <= B -> B <= overflow ->
  floorsZ (fst (floorsZ A B)) (snd (floorsZ A B)) = floorsZ A B.
Proof.
  intros RA RB AB BO.
  destruct T_facts as [R3 [R6 [E6 [P3 [O6 _]]]]].
  pose proof (spreadZ_ge A B RB BO) as SG.
  unfold floorsZ at 2 3 4. destruct (Z.ltb_spec A (fixed 3000)) as [L|L]; cbn [fst snd].
  - unfold floorsZ. rewrite Z.ltb_irrefl. f_equal.
    set (M := Z.max (spreadZ A B) (fixed 6000)).
    assert (HM : fixed 6000 <= M) by (unfold M; lia).
    unfold spreadZ.
    replace (rnd (M - fixed 3000) <? fixed 3000) with false;
      [rewrite andb_false_r; reflexivity|].
    symmetry. apply Z.ltb_ge. apply rnd_above; [exact R3 | lia].
  - unfold floorsZ.
    replace (A <? fixed 3000) with false by (symmetry; apply Z.ltb_ge; exact L).
    f_equal.
    destruct (spreadZ_cases A B) as [E|[FB [C1 [C2 E]]]].
    + rewrite E. exact E.
    + rewrite E.
      destruct (spreadZ_cases A (cap (rnd (A + fixed 3000)))) as [E'|[_ [_ [_ E']]]];
        exact E'.
Qed.

Lemma floors_twice (f : source_file) (fd : FormData) (n : Z) :
  valid fd n ->
  absolute_floor (spread_floor (absolute_floor (spread_floor (raw (num:=float) f fd))))
  = absolute_floor (spread_floor (raw f fd)).
Proof.
  intros V. destruct (raw_dbl f fd n V) as [DA [DB L]].
  destruct (rawsZ_facts f fd n V) as [RA [RB [_ BO]]].
  destruct (raw f fd) as [a b]. cbn [fst snd] in DA, DB.
  set (A := fst (rawsZ f fd n)) in *. set (B := snd (rawsZ f fd n)) in *.
  destruct (floors_dbl a b A B DA DB L) as [D1 D2].
  assert (L' : fst (floorsZ A B) <= snd (floorsZ A B)).
  { pose proof (spreadZ_ge A B RB BO). destruct T_facts as [_ [_ [E6 [P3 _]]]].
    unfold floorsZ. destruct (Z.ltb_spec A (fixed 3000)); cbn [fst snd]; lia. }
  destruct (absolute_floor (spread_floor (a, b))) as [a' b'] eqn:E.
  cbn [fst snd] in D1, D2.
  destruct (floors_dbl a' b' _ _ D1 D2 L') as [D1' D2'].
  rewrite (floorsZ_idempotent A B RA RB L BO) in D1', D2'.
  rewrite (surjective_pairing (absolute_floor (spread_floor (a', b')))).
  f_equal; [exact (dbl_inj _ _ _ D1' D1) | exact (dbl_inj _ _ _ D2' D2)].
Qed.

(** The floors in the other order. *)
Lemma floors_swapped (f : source_file) (fd : FormData) (n : Z) :
  valid fd n ->
  spread_floor (absolute_floor (raw (num:=float) f fd))
  = absolute_floor (spread_floor (raw f fd)).
Proof.
  intros V. destruct (raw_dbl f fd n V) as [DA [DB L]].
  destruct (rawsZ_facts f fd n V) as [RA [RB [_ BO]]].
  destruct (raw f fd) as [a b]. cbn [fst snd] in DA, DB.
  set (A := fst (rawsZ f fd n)) in *. set (B := snd (rawsZ f fd n)) in *.
  destruct T_facts as [R3 [R6 [E6 [P3 [O6 _]]]]].
  destruct (floors_dbl a b A B DA DB L) as [D1 D2].
  destruct (absolute_floor_dbl a b A B DA DB) as [F1 F2].
  destruct (absolute_floor (a, b)) as [a' b'] eqn:E. cbn [fst snd] in F1, F2.
  assert (L' : (if A <? fixed 3000 then fixed 3000 else A)
               <= (if A <? fixed 3000 then Z.max B (fixed 6000) else B)).
  { destruct (Z.ltb_spec A (fixed 3000)); lia. }
  destruct (spread_floor_dbl a' b' _ _ F1 F2 L') as [G1 G2].
  rewrite (surjective_pairing (spread_floor (a', b'))).
  rewrite (surjective_pairing (absolute_floor (spread_floor (a, b)))).
  f_equal.
  - apply (dbl_inj _ _ _ G1). unfold floorsZ in D1.
    destruct (A <? fixed 3000); exact D1.
  - revert G2 D2. unfold floorsZ.
    destruct (Z.ltb_spec A (fixed 3000)) as [C|C]; cbn [snd]; intros G2 D2.
    + assert (S : spreadZ (fixed 3000) (Z.max B (fixed 6000)) = Z.max B (fixed 6000)).
      { unfold spreadZ.
        replace (rnd (Z.max B (fixed 6000) - fixed 3000) <? fixed 3000) with false;
          [rewrite andb_false_r; reflexivity|].
        symmetry. apply Z.ltb_ge. apply rnd_above; [exact R3 | lia]. }
      rewrite S in G2.
      assert (M : Z.max (spreadZ A B) (fixed 6000) = Z.max B (fixed 6000)).
      { destruct (spreadZ_cases A B) as [->|[FB [_ [C2 ->]]]]; [reflexivity|].
        assert (rnd (A + fixed 3000) <= fixed 6000)
          by (apply rnd_below; [exact R6 | destruct RA; lia | lia]).
        pose proof (cap_below (rnd (A + fixed 3000))). lia. }
      rewrite M in D2. exact (dbl_inj _ _ _ G2 D2).
    + exact (dbl_inj _ _ _ G2 D2).
Qed.

(** X10. In binary64, on the prices of a complete form the two floor
    statements can be taken in either order: the spread floor after the
    absolute floor gives the same prices as the absolute floor after the
    spread floor, which is the order of the program. *)
Theorem floors_commute (f : source_file) (fd : FormData) (n : Z) :
  valid fd n ->
  spread_floor (absolute_floor (raw (num:=float) f fd))
  = absolute_floor (spread_floor (raw f fd)).
Proof. apply floors_swapped. Qed.

Lemma floors_commute_witness :
  valid scenarioA 1000 /\
  spread_floor (absolute_floor (raw (num:=float) App_js scenarioA))
  = absolute_floor (spread_floor (raw App_js scenarioA)).
Proof.
  split; [exact scenarioA_valid|].
  exact (floors_commute App_js scenarioA 1000 scenarioA_valid).
Defined.

(** X11. In binary64 the floors are idempotent on the prices of a complete
    form: prices that went through both floor statements are left as they are
    by a second pass. *)
Theorem floors_idempotent (f : source_file) (fd : FormData) (n : Z) :
  valid fd n ->
  absolute_floor (spread_floor (absolute_floor (spread_floor (raw (num:=float) f fd))))
  = absolute_floor (spread_floor (raw f fd)).
Proof. apply floors_twice. Qed.

Lemma floors_idempotent_witness :
  valid scenarioA 1000 /\
  absolute_floor (spread_floor (absolute_floor (spread_floor
    (raw (num:=float) App_js scenarioA))))
  = absolute_floor (spread_floor (raw App_js scenarioA)).
Proof.
  split; [exact scenarioA_valid|].
  exact (floors_idempotent App_js scenarioA 1000 scenarioA_valid).
Defined.

(** * The invariants of the stored range *)

(** C4. For every complete form, [calculateEstimate] stores an estimate whose
    rounded minimum is at least the absolute minimum 3000: in binary64, the
    arithmetic of the program, for every square footage from 100 on, however
    large; and in exact arithmetic. *)
Theorem floor_invariant (f : source_file) (fd : FormData) (n : Z)
    (st64 : option (Estimate float)) (st : option (Estimate exact)) :
  valid fd n ->
  (exists r, calculateEstimate f fd st64 = Some r /\ PrimFloat.leb 3000 (min r) = true) /\
  (exists r, calculateEstimate f fd st = Some r /\ exact_le (Rat 3000) (min r)).
Proof.
  intros V. split; [exact (floor_binary64 f fd n st64 V) | exact (floor_exact f st V)].
Qed.

Lemma floor_invariant_witness :
  valid scenarioA 1000 /\
  exists r, calculateEstimate App_js scenarioA (@None (Estimate float)) = Some r /\
            PrimFloat.leb 3000 (min r) = true.
Proof.
  split; [exact scenarioA_valid|].
  exact (proj1 (floor_invariant App_js scenarioA 1000 None None scenarioA_valid)).
Defined.




(** * Monotonicity in the square footage *)

(** C6. With the project type, the paint tier, the difficulty level and the
    surfaces fixed, a larger square footage (both at least 100) never gives a
    smaller stored minimum nor a smaller stored maximum: in binary64, across
    both floors and up to overflow, and in exact arithmetic. *)
Theorem monotone_in_squareFootage (f : source_file) (fd : FormData) (s1 s2 : string)
    (n1 n2 : Z) (st1 st2 : option (Estimate float)) (st1' st2' : option (Estimate exact)) :
  valid (with_squareFootage fd s1) n1 ->
  valid (with_squareFootage fd s2) n2 ->
  n1 <= n2 ->
  (exists r1 r2,
     calculateEstimate f (with_squareFootage fd s1) st1 = Some r1 /\
     calculateEstimate f (with_squareFootage fd s2) st2 = Some r2 /\
     PrimFloat.leb (min r1) (min r2) = true /\
     PrimFloat.leb (max r1) (max r2) = true) /\
  (exists r1 r2,
     calculateEstimate f (with_squareFootage fd s1) st1' = Some r1 /\
     calculateEstimate f (with_squareFootage fd s2) st2' = Some r2 /\
     exact_le (min r1) (min r2) /\
     exact_le (max r1) (max r2)).
Proof.
  intros V1 V2 L. split.
  - exact (monotone_binary64 f fd s1 s2 n1 n2 st1 st2 V1 V2 L).
  - exact (@monotone_exact f fd s1 s2 n1 n2 st1' st2' V1 V2 L).
Qed.

Lemma monotone_in_squareFootage_witness :
  exists r1 r2,
    calculateEstimate App_js (with_squareFootage scenarioA "900") (@None (Estimate float))
    = Some r1 /\
    calculateEstimate App_js (with_squareFootage scenarioA "2400") (@None (Estimate float))
    = Some r2 /\
    PrimFloat.leb (min r1) (min r2) = true /\
    PrimFloat.leb (max r1) (max r2) = true.
Proof.
  refine (proj1 (monotone_in_squareFootage App_js scenarioA "900" "2400" 900 2400
                   None None None None _ _ _)).
  - complete_form.
  - complete_form.
  - lia.
Defined.

(** * Order of the paint tiers *)



